(** * vibe-board: the Convex control-plane store

    A shallow embedding of the mutations and queries of
    [packages/backend/convex/{workspaces,executionProcesses,queuedMessages}.ts],
    of [sessions.ts] with the workspace-repo functions that follow it, and of
    the approval functions, and theorems about them.

    Modelling conventions.
    - A Convex table is the list of its documents in creation order and the
      [_id] of a document is its position in that list.  None of the
      functions of the repository deletes a document, so positions are
      stable; [ctx.db.insert] appends.
    - [ctx.db.get] is list lookup; [ctx.db.patch] throws on a document that
      does not exist and otherwise replaces the listed fields; a field
      patched with [undefined] is removed, which is [None] here.
    - A handler is a computation in a state-and-error monad over the
      database.  [Date.now()] is an argument of the handler: Convex freezes
      the clock for the duration of one mutation.
    - A mutation is a transaction: when the handler throws, nothing it wrote
      is committed ([runMutation]). *)

From stdpp Require Import base option list strings sorting.
From Stdlib Require Import ZArith Lia.
From Stdlib Require QArith.

Local Open Scope Z_scope.

(** ** Enumerations of [schema.ts] *)

Inductive ExecutionStatus : Type :=
  | ExPending | ExRunning | ExCompleted | ExFailed | ExKilled | ExDropped.

Inductive ExecutionRunReason : Type :=
  | RrSetup | RrCodingAgent | RrCleanup | RrArchive | RrDevServer | RrReview
  | RrSystem.

(** [sessionStatus] and [workspaceStatus] are the same union of literals. *)
Inductive SessionStatus : Type :=
  | StRunning | StIdle | StNeedsAttention | StError.

Inductive QueueState : Type :=
  | QQueued | QConsumed | QDiscarded.

#[global] Instance ExecutionStatus_eq_dec : EqDecision ExecutionStatus.
Proof. solve_decision. Defined.
#[global] Instance SessionStatus_eq_dec : EqDecision SessionStatus.
Proof. solve_decision. Defined.
#[global] Instance QueueState_eq_dec : EqDecision QueueState.
Proof. solve_decision. Defined.

(** ** Documents *)

(** A document id is a position in its table; a time is [Date.now()], in
    milliseconds. *)
Abbreviation Id := nat (only parsing).
Abbreviation Time := Z (only parsing).

Record Workspace : Type := mkWorkspace {
  ws_ownerUserId : string;
  ws_organizationId : option string;
  ws_projectId : option string;
  ws_name : string;
  ws_branch : string;
  ws_status : SessionStatus;
  ws_archived : bool;
  ws_pinned : bool;
  ws_activeSessionId : option Id;
  ws_activeWorkspaceRepoId : option Id;
  ws_createdAt : Time;
  ws_updatedAt : Time;
}.

Record WorkspaceRepo : Type := mkWorkspaceRepo {
  wr_workspaceId : Id;
  wr_repoId : string;
  wr_repoName : string;
  wr_targetBranch : string;
  wr_enabled : bool;
  wr_sortOrder : Z;
  wr_createdAt : Time;
  wr_updatedAt : Time;
}.

Record Session : Type := mkSession {
  se_workspaceId : Id;
  se_title : option string;
  se_status : SessionStatus;
  se_lastUsedAt : Time;
  se_createdAt : Time;
  se_updatedAt : Time;
}.

Record ExecutionProcess : Type := mkExecutionProcess {
  ep_workspaceId : Id;
  ep_sessionId : Id;
  ep_runReason : ExecutionRunReason;
  ep_status : ExecutionStatus;
  ep_executor : option string;
  ep_queuedFollowUpConsumed : bool;
  ep_startedAt : Time;
  ep_completedAt : option Time;
  ep_errorMessage : option string;
  ep_createdAt : Time;
  ep_updatedAt : Time;
}.

Record ExecutionProcessRepoState : Type := mkExecutionProcessRepoState {
  rs_executionProcessId : Id;
  rs_workspaceRepoId : Id;
  rs_beforeHeadCommit : option string;
  rs_afterHeadCommit : option string;
  rs_repoState : option string;
  rs_createdAt : Time;
  rs_updatedAt : Time;
}.

Record QueuedMessage : Type := mkQueuedMessage {
  qm_sessionId : Id;
  qm_message : string;
  qm_executor : option string;
  qm_variant : option string;
  qm_state : QueueState;
  qm_enqueueingProcessId : option Id;
  qm_queuedAt : Time;
  qm_consumedAt : option Time;
  qm_discardedAt : option Time;
  qm_createdAt : Time;
  qm_updatedAt : Time;
}.

(** ** The database *)

Record Db : Type := mkDb {
  workspaces : list Workspace;
  workspaceRepos : list WorkspaceRepo;
  sessions : list Session;
  executionProcesses : list ExecutionProcess;
  executionProcessRepoStates : list ExecutionProcessRepoState;
  queuedMessages : list QueuedMessage;
}.

Definition emptyDb : Db := mkDb [] [] [] [] [] [].

(** A table is a lens into the database. *)
Record Table (A : Type) : Type := mkTable {
  rows : Db -> list A;
  setRows : list A -> Db -> Db;
}.
Arguments rows {A} _ _.
Arguments setRows {A} _ _ _.

Definition workspacesT : Table Workspace :=
  mkTable _ workspaces
    (fun l db => mkDb l (workspaceRepos db) (sessions db)
                   (executionProcesses db) (executionProcessRepoStates db)
                   (queuedMessages db)).
Definition workspaceReposT : Table WorkspaceRepo :=
  mkTable _ workspaceRepos
    (fun l db => mkDb (workspaces db) l (sessions db)
                   (executionProcesses db) (executionProcessRepoStates db)
                   (queuedMessages db)).
Definition sessionsT : Table Session :=
  mkTable _ sessions
    (fun l db => mkDb (workspaces db) (workspaceRepos db) l
                   (executionProcesses db) (executionProcessRepoStates db)
                   (queuedMessages db)).
Definition executionProcessesT : Table ExecutionProcess :=
  mkTable _ executionProcesses
    (fun l db => mkDb (workspaces db) (workspaceRepos db) (sessions db)
                   l (executionProcessRepoStates db) (queuedMessages db)).
Definition executionProcessRepoStatesT : Table ExecutionProcessRepoState :=
  mkTable _ executionProcessRepoStates
    (fun l db => mkDb (workspaces db) (workspaceRepos db) (sessions db)
                   (executionProcesses db) l (queuedMessages db)).
Definition queuedMessagesT : Table QueuedMessage :=
  mkTable _ queuedMessages
    (fun l db => mkDb (workspaces db) (workspaceRepos db) (sessions db)
                   (executionProcesses db) (executionProcessRepoStates db) l).

(** ** Handlers: state and exceptions *)

Inductive Error : Type :=
  | WorkspaceNotFound (workspaceId : Id)
  | SessionNotFound (sessionId : Id)
  | ExecutionProcessNotFound (executionProcessId : Id)
  | WorkspaceWithoutRepository
  | PatchOfMissingDocument (id : Id)
  | UniqueFoundSeveral.

Definition Handler (A : Type) : Type := Db -> Error + (A * Db).

Definition ret {A} (a : A) : Handler A := fun db => inr (a, db).
Definition throw {A} (e : Error) : Handler A := fun _ => inl e.
Definition bind {A B} (m : Handler A) (k : A -> Handler B) : Handler B :=
  fun db => match m db with
            | inl e => inl e
            | inr (a, db') => k a db'
            end.

Declare Scope handler_scope.
Delimit Scope handler_scope with handler.
Notation "'let*' x ':=' m 'in' k" := (bind m (fun x => k))
  (at level 10, x name, m at level 100, k at level 200) : handler_scope.
Local Open Scope handler_scope.

(** [ctx.db.get(id)] *)
Definition db_get {A} (T : Table A) (id : Id) : Handler (option A) :=
  fun db => inr (rows T db !! id, db).

(** [ctx.db.insert(table, doc)]: the new document's id. *)
Definition db_insert {A} (T : Table A) (doc : A) : Handler Id :=
  fun db => inr (length (rows T db), setRows T (rows T db ++ [doc]) db).

(** [ctx.db.patch(id, fields)]; [f] writes the fields. *)
Definition db_patch {A} (T : Table A) (id : Id) (f : A -> A) : Handler unit :=
  fun db => match rows T db !! id with
            | None => inl (PatchOfMissingDocument id)
            | Some doc => inr (tt, setRows T (<[id := f doc]> (rows T db)) db)
            end.

(** [ctx.db.query(table).withIndex(index, q => q.eq(..)..)]: the documents
    that satisfy the equalities of the index range, each with its id, in
    creation order. *)
Definition db_query {A} (T : Table A) (P : A -> Prop)
    `{!forall a, Decision (P a)} : Handler (list (Id * A)) :=
  fun db => inr (filter (fun d => P (snd d)) (imap pair (rows T db)), db).

(** [.unique()]: the matching document, [null] when there is none; throws
    when there are several. *)
Definition unique {A} (matches : list (Id * A)) : Handler (option (Id * A)) :=
  match matches with
  | [] => ret None
  | [d] => ret (Some d)
  | _ => throw UniqueFoundSeveral
  end.

(** The document that an index puts last: the greatest value of the
    remaining index field [key], and among equal values the one created
    last (an index orders by its fields, then by creation). *)
Fixpoint greatest {A} (key : A -> Z) (matches : list (Id * A))
  : option (Id * A) :=
  match matches with
  | [] => None
  | d :: later =>
    match greatest key later with
    | None => Some d
    | Some d' => if key (snd d') <? key (snd d) then Some d else Some d'
    end
  end.

(** [.order('desc').first()] on an index whose remaining field is [key]. *)
Definition firstDesc {A} (key : A -> Z) (matches : list (Id * A))
  : Handler (option (Id * A)) :=
  ret (greatest key matches).

(** What a mutation commits and what it returns. *)
Definition runMutation {A} (h : Handler A) (db : Db) : Db * (Error + A) :=
  match h db with
  | inl e => (db, inl e)
  | inr (a, db') => (db', inr a)
  end.

(** ** executionProcesses.ts *)

Definition mapExecutionToSessionStatus (status : ExecutionStatus)
  : SessionStatus :=
  if bool_decide (status = ExPending) || bool_decide (status = ExRunning)
  then StRunning
  else if bool_decide (status = ExFailed) || bool_decide (status = ExKilled)
  then StNeedsAttention
  else StIdle.

Record StartExecutionArgs : Type := mkStartExecutionArgs {
  sx_workspaceId : Id;
  sx_sessionId : Id;
  sx_runReason : ExecutionRunReason;
  sx_executor : option string;
}.

Record StartExecutionResult : Type := mkStartExecutionResult {
  sxr_executionProcessId : Id;
  sxr_startedAt : Time;
}.

Definition startExecution (now : Time) (args : StartExecutionArgs)
  : Handler StartExecutionResult :=
  let* workspace := db_get workspacesT (sx_workspaceId args) in
  match workspace with
  | None => throw (WorkspaceNotFound (sx_workspaceId args))
  | Some _ =>
    let* session := db_get sessionsT (sx_sessionId args) in
    match session with
    | None => throw (SessionNotFound (sx_sessionId args))
    | Some _ =>
      let* executionProcessId := db_insert executionProcessesT
        {| ep_workspaceId := sx_workspaceId args;
           ep_sessionId := sx_sessionId args;
           ep_runReason := sx_runReason args;
           ep_status := ExRunning;
           ep_executor := sx_executor args;
           ep_queuedFollowUpConsumed := false;
           ep_startedAt := now;
           ep_completedAt := None;
           ep_errorMessage := None;
           ep_createdAt := now;
           ep_updatedAt := now |} in
      let* _ := db_patch sessionsT (sx_sessionId args)
        (fun s => {| se_workspaceId := se_workspaceId s;
                     se_title := se_title s;
                     se_status := StRunning;
                     se_lastUsedAt := now;
                     se_createdAt := se_createdAt s;
                     se_updatedAt := now |}) in
      let* _ := db_patch workspacesT (sx_workspaceId args)
        (fun w => {| ws_ownerUserId := ws_ownerUserId w;
                     ws_organizationId := ws_organizationId w;
                     ws_projectId := ws_projectId w;
                     ws_name := ws_name w;
                     ws_branch := ws_branch w;
                     ws_status := StRunning;
                     ws_archived := ws_archived w;
                     ws_pinned := ws_pinned w;
                     ws_activeSessionId := Some (sx_sessionId args);
                     ws_activeWorkspaceRepoId := ws_activeWorkspaceRepoId w;
                     ws_createdAt := ws_createdAt w;
                     ws_updatedAt := now |}) in
      ret {| sxr_executionProcessId := executionProcessId;
             sxr_startedAt := now |}
    end
  end.

Record SetExecutionStatusArgs : Type := mkSetExecutionStatusArgs {
  ses_executionProcessId : Id;
  ses_status : ExecutionStatus;
  ses_errorMessage : option string;
}.

Record SetExecutionStatusResult : Type := mkSetExecutionStatusResult {
  sesr_executionProcessId : Id;
  sesr_status : ExecutionStatus;
  sesr_sessionStatus : SessionStatus;
  sesr_updatedAt : Time;
}.

(** The local [terminal] of the handler. *)
Definition terminal (status : ExecutionStatus) : bool :=
  bool_decide (status = ExCompleted) || bool_decide (status = ExFailed)
  || bool_decide (status = ExKilled) || bool_decide (status = ExDropped).

Definition setExecutionStatus (now : Time) (args : SetExecutionStatusArgs)
  : Handler SetExecutionStatusResult :=
  let* process := db_get executionProcessesT (ses_executionProcessId args) in
  match process with
  | None => throw (ExecutionProcessNotFound (ses_executionProcessId args))
  | Some process =>
    let mappedSessionStatus := mapExecutionToSessionStatus (ses_status args) in
    let* _ := db_patch executionProcessesT (ses_executionProcessId args)
      (fun p => {| ep_workspaceId := ep_workspaceId p;
                   ep_sessionId := ep_sessionId p;
                   ep_runReason := ep_runReason p;
                   ep_status := ses_status args;
                   ep_executor := ep_executor p;
                   ep_queuedFollowUpConsumed := ep_queuedFollowUpConsumed p;
                   ep_startedAt := ep_startedAt p;
                   ep_completedAt :=
                     if terminal (ses_status args) then Some now
                     else ep_completedAt process;
                   ep_errorMessage := ses_errorMessage args;
                   ep_createdAt := ep_createdAt p;
                   ep_updatedAt := now |}) in
    let* _ := db_patch sessionsT (ep_sessionId process)
      (fun s => {| se_workspaceId := se_workspaceId s;
                   se_title := se_title s;
                   se_status := mappedSessionStatus;
                   se_lastUsedAt := now;
                   se_createdAt := se_createdAt s;
                   se_updatedAt := now |}) in
    let* _ := db_patch workspacesT (ep_workspaceId process)
      (fun w => {| ws_ownerUserId := ws_ownerUserId w;
                   ws_organizationId := ws_organizationId w;
                   ws_projectId := ws_projectId w;
                   ws_name := ws_name w;
                   ws_branch := ws_branch w;
                   ws_status := mappedSessionStatus;
                   ws_archived := ws_archived w;
                   ws_pinned := ws_pinned w;
                   ws_activeSessionId := ws_activeSessionId w;
                   ws_activeWorkspaceRepoId := ws_activeWorkspaceRepoId w;
                   ws_createdAt := ws_createdAt w;
                   ws_updatedAt := now |}) in
    ret {| sesr_executionProcessId := ses_executionProcessId args;
           sesr_status := ses_status args;
           sesr_sessionStatus := mappedSessionStatus;
           sesr_updatedAt := now |}
  end.

Record UpsertExecutionRepoStateArgs : Type := mkUpsertExecutionRepoStateArgs {
  ux_executionProcessId : Id;
  ux_workspaceRepoId : Id;
  ux_beforeHeadCommit : option string;
  ux_afterHeadCommit : option string;
  ux_repoState : option string;
}.

Record UpsertExecutionRepoStateResult : Type :=
  mkUpsertExecutionRepoStateResult {
  uxr_executionProcessRepoStateId : Id;
  uxr_updatedAt : Time;
}.

(** JavaScript's [a ?? b]. *)
Definition nullish {A} (a b : option A) : option A :=
  match a with
  | Some x => Some x
  | None => b
  end.
Infix "??" := nullish (at level 45, right associativity).

(** The index range of [by_execution_process_id_and_workspace_repo_id]. *)
Definition repoStateOf (executionProcessId workspaceRepoId : Id)
    (r : ExecutionProcessRepoState) : Prop :=
  rs_executionProcessId r = executionProcessId
  /\ rs_workspaceRepoId r = workspaceRepoId.

#[global] Instance repoStateOf_dec e w r : Decision (repoStateOf e w r).
Proof. unfold repoStateOf. apply _. Defined.

Definition upsertExecutionRepoState (now : Time)
    (args : UpsertExecutionRepoStateArgs)
  : Handler UpsertExecutionRepoStateResult :=
  let* matches := db_query executionProcessRepoStatesT
      (repoStateOf (ux_executionProcessId args) (ux_workspaceRepoId args)) in
  let* existing := unique matches in
  match existing with
  | Some (existing_id, existing) =>
    let* _ := db_patch executionProcessRepoStatesT existing_id
      (fun r => {| rs_executionProcessId := rs_executionProcessId r;
                   rs_workspaceRepoId := rs_workspaceRepoId r;
                   rs_beforeHeadCommit :=
                     ux_beforeHeadCommit args ?? rs_beforeHeadCommit existing;
                   rs_afterHeadCommit :=
                     ux_afterHeadCommit args ?? rs_afterHeadCommit existing;
                   rs_repoState :=
                     ux_repoState args ?? rs_repoState existing;
                   rs_createdAt := rs_createdAt r;
                   rs_updatedAt := now |}) in
    ret {| uxr_executionProcessRepoStateId := existing_id;
           uxr_updatedAt := now |}
  | None =>
    let* executionProcessRepoStateId :=
      db_insert executionProcessRepoStatesT
        {| rs_executionProcessId := ux_executionProcessId args;
           rs_workspaceRepoId := ux_workspaceRepoId args;
           rs_beforeHeadCommit := ux_beforeHeadCommit args;
           rs_afterHeadCommit := ux_afterHeadCommit args;
           rs_repoState := ux_repoState args;
           rs_createdAt := now;
           rs_updatedAt := now |} in
    ret {| uxr_executionProcessRepoStateId := executionProcessRepoStateId;
           uxr_updatedAt := now |}
  end.

(** ** queuedMessages.ts *)

Record QueuePayload : Type := mkQueuePayload {
  qp_queuedMessageId : Id;
  qp_message : string;
  qp_executor : option string;
  qp_variant : option string;
  qp_queuedAt : Time;
  qp_enqueueingProcessId : option Id;
}.

(** [queueStatusValidator] *)
Inductive QueueStatus : Type :=
  | StatusEmpty
  | StatusQueued (p : QueuePayload)
  | StatusConsumed (p : QueuePayload).

Definition payloadOf (id : Id) (queued : QueuedMessage) : QueuePayload :=
  {| qp_queuedMessageId := id;
     qp_message := qm_message queued;
     qp_executor := qm_executor queued;
     qp_variant := qm_variant queued;
     qp_queuedAt := qm_queuedAt queued;
     qp_enqueueingProcessId := qm_enqueueingProcessId queued |}.

(** The index range [q.eq('sessionId', sessionId).eq('state', 'queued')] of
    [by_session_id_and_state_and_queued_at]. *)
Definition queuedOf (sessionId : Id) (m : QueuedMessage) : Prop :=
  qm_sessionId m = sessionId /\ qm_state m = QQueued.

#[global] Instance queuedOf_dec s m : Decision (queuedOf s m).
Proof. unfold queuedOf. apply _. Defined.

(** The query that opens all four functions of the file. *)
Definition firstQueued (sessionId : Id)
  : Handler (option (Id * QueuedMessage)) :=
  let* matches := db_query queuedMessagesT (queuedOf sessionId) in
  firstDesc qm_queuedAt matches.

Record EnqueueFollowUpArgs : Type := mkEnqueueFollowUpArgs {
  ef_sessionId : Id;
  ef_message : string;
  ef_executor : option string;
  ef_variant : option string;
  ef_enqueueingProcessId : option Id;
}.

Record EnqueueFollowUpResult : Type := mkEnqueueFollowUpResult {
  efr_queuedMessageId : Id;
  efr_queuedAt : Time;
  efr_state : QueueState;
}.

(** The fields that [enqueueFollowUp] patches into the queued row. *)
Definition overwriteQueued (now : Time) (args : EnqueueFollowUpArgs)
    (m : QueuedMessage) : QueuedMessage :=
  {| qm_sessionId := qm_sessionId m;
     qm_message := ef_message args;
     qm_executor := ef_executor args;
     qm_variant := ef_variant args;
     qm_state := qm_state m;
     qm_enqueueingProcessId := ef_enqueueingProcessId args;
     qm_queuedAt := now;
     qm_consumedAt := qm_consumedAt m;
     qm_discardedAt := qm_discardedAt m;
     qm_createdAt := qm_createdAt m;
     qm_updatedAt := now |}.

(** The row that [enqueueFollowUp] inserts. *)
Definition newQueued (now : Time) (args : EnqueueFollowUpArgs)
  : QueuedMessage :=
  {| qm_sessionId := ef_sessionId args;
     qm_message := ef_message args;
     qm_executor := ef_executor args;
     qm_variant := ef_variant args;
     qm_state := QQueued;
     qm_enqueueingProcessId := ef_enqueueingProcessId args;
     qm_queuedAt := now;
     qm_consumedAt := None;
     qm_discardedAt := None;
     qm_createdAt := now;
     qm_updatedAt := now |}.

Definition enqueueFollowUp (now : Time) (args : EnqueueFollowUpArgs)
  : Handler EnqueueFollowUpResult :=
  let* existingQueued := firstQueued (ef_sessionId args) in
  match existingQueued with
  | Some (existingQueued_id, _) =>
    let* _ := db_patch queuedMessagesT existingQueued_id
                (overwriteQueued now args) in
    ret {| efr_queuedMessageId := existingQueued_id;
           efr_queuedAt := now;
           efr_state := QQueued |}
  | None =>
    let* queuedMessageId := db_insert queuedMessagesT (newQueued now args) in
    ret {| efr_queuedMessageId := queuedMessageId;
           efr_queuedAt := now;
           efr_state := QQueued |}
  end.

Definition getQueueStatus (sessionId : Id) : Handler QueueStatus :=
  let* queued := firstQueued sessionId in
  match queued with
  | None => ret StatusEmpty
  | Some (queued_id, queued) => ret (StatusQueued (payloadOf queued_id queued))
  end.

Definition markConsumed (now : Time) (m : QueuedMessage) : QueuedMessage :=
  {| qm_sessionId := qm_sessionId m;
     qm_message := qm_message m;
     qm_executor := qm_executor m;
     qm_variant := qm_variant m;
     qm_state := QConsumed;
     qm_enqueueingProcessId := qm_enqueueingProcessId m;
     qm_queuedAt := qm_queuedAt m;
     qm_consumedAt := Some now;
     qm_discardedAt := qm_discardedAt m;
     qm_createdAt := qm_createdAt m;
     qm_updatedAt := now |}.

Definition markDiscarded (now : Time) (m : QueuedMessage) : QueuedMessage :=
  {| qm_sessionId := qm_sessionId m;
     qm_message := qm_message m;
     qm_executor := qm_executor m;
     qm_variant := qm_variant m;
     qm_state := QDiscarded;
     qm_enqueueingProcessId := qm_enqueueingProcessId m;
     qm_queuedAt := qm_queuedAt m;
     qm_consumedAt := qm_consumedAt m;
     qm_discardedAt := Some now;
     qm_createdAt := qm_createdAt m;
     qm_updatedAt := now |}.

Definition consumeQueuedMessage (now : Time) (sessionId : Id)
  : Handler QueueStatus :=
  let* queued := firstQueued sessionId in
  match queued with
  | None => ret StatusEmpty
  | Some (queued_id, queued) =>
    let* _ := db_patch queuedMessagesT queued_id (markConsumed now) in
    ret (StatusConsumed (payloadOf queued_id queued))
  end.

Definition discardQueuedMessage (now : Time) (sessionId : Id)
  : Handler QueueStatus :=
  let* queued := firstQueued sessionId in
  match queued with
  | None => ret StatusEmpty
  | Some (queued_id, _) =>
    let* _ := db_patch queuedMessagesT queued_id (markDiscarded now) in
    ret StatusEmpty
  end.

(** ** workspaces.ts *)

(** [workspaceInputValidator] *)
Record WorkspaceInput : Type := mkWorkspaceInput {
  wi_repoId : string;
  wi_repoName : string;
  wi_targetBranch : string;
  wi_enabled : option bool;
  wi_sortOrder : option Z;
}.

Record CreateWorkspaceArgs : Type := mkCreateWorkspaceArgs {
  cw_ownerUserId : string;
  cw_organizationId : option string;
  cw_projectId : option string;
  cw_name : string;
  cw_branch : string;
  cw_repos : list WorkspaceInput;
  cw_initialSessionTitle : option string;
}.

Record CreateWorkspaceResult : Type := mkCreateWorkspaceResult {
  cwr_workspaceId : Id;
  cwr_sessionId : Id;
  cwr_workspaceRepoIds : list Id;
}.

(** The document inserted for [repo], the [index]-th entry of [args.repos]. *)
Definition workspaceRepoDoc (now : Time) (workspaceId : Id) (index : nat)
    (repo : WorkspaceInput) : WorkspaceRepo :=
  {| wr_workspaceId := workspaceId;
     wr_repoId := wi_repoId repo;
     wr_repoName := wi_repoName repo;
     wr_targetBranch := wi_targetBranch repo;
     wr_enabled := default true (wi_enabled repo);
     wr_sortOrder := default (Z.of_nat index) (wi_sortOrder repo);
     wr_createdAt := now;
     wr_updatedAt := now |}.

(** The [for (const [index, repo] of args.repos.entries())] loop, from
    position [index] on, pushing onto [workspaceRepoIds]. *)
Fixpoint insertWorkspaceRepos (now : Time) (workspaceId : Id) (index : nat)
    (repos : list WorkspaceInput) (workspaceRepoIds : list Id)
  : Handler (list Id) :=
  match repos with
  | [] => ret workspaceRepoIds
  | repo :: rest =>
    let* workspaceRepoId := db_insert workspaceReposT
      (workspaceRepoDoc now workspaceId index repo) in
    insertWorkspaceRepos now workspaceId (S index) rest
      (workspaceRepoIds ++ [workspaceRepoId])
  end.

Definition createWorkspace (now : Time) (args : CreateWorkspaceArgs)
  : Handler CreateWorkspaceResult :=
  if bool_decide (length (cw_repos args) = 0%nat)
  then throw WorkspaceWithoutRepository
  else
    let* workspaceId := db_insert workspacesT
      {| ws_ownerUserId := cw_ownerUserId args;
         ws_organizationId := cw_organizationId args;
         ws_projectId := cw_projectId args;
         ws_name := cw_name args;
         ws_branch := cw_branch args;
         ws_status := StIdle;
         ws_archived := false;
         ws_pinned := false;
         ws_activeSessionId := None;
         ws_activeWorkspaceRepoId := None;
         ws_createdAt := now;
         ws_updatedAt := now |} in
    let* workspaceRepoIds :=
      insertWorkspaceRepos now workspaceId 0 (cw_repos args) [] in
    let* sessionId := db_insert sessionsT
      {| se_workspaceId := workspaceId;
         se_title := cw_initialSessionTitle args;
         se_status := StIdle;
         se_lastUsedAt := now;
         se_createdAt := now;
         se_updatedAt := now |} in
    let* _ := db_patch workspacesT workspaceId
      (fun w => {| ws_ownerUserId := ws_ownerUserId w;
                   ws_organizationId := ws_organizationId w;
                   ws_projectId := ws_projectId w;
                   ws_name := ws_name w;
                   ws_branch := ws_branch w;
                   ws_status := ws_status w;
                   ws_archived := ws_archived w;
                   ws_pinned := ws_pinned w;
                   ws_activeSessionId := Some sessionId;
                   ws_activeWorkspaceRepoId := workspaceRepoIds !! 0%nat;
                   ws_createdAt := ws_createdAt w;
                   ws_updatedAt := now |}) in
    ret {| cwr_workspaceId := workspaceId;
           cwr_sessionId := sessionId;
           cwr_workspaceRepoIds := workspaceRepoIds |}.

(** ** Index scans that return several documents *)

(** The order of an index among the documents of one range: by the
    remaining index field [key], then by creation. *)
Definition indexBefore {A} (key : A -> Z) (d1 d2 : Id * A) : Prop :=
  key (snd d1) < key (snd d2)
  \/ (key (snd d1) = key (snd d2) /\ (fst d1 <= fst d2)%nat).

#[global] Instance indexBefore_dec {A} (key : A -> Z) d1 d2 :
  Decision (indexBefore key d1 d2).
Proof. unfold indexBefore. apply _. Defined.

(** [.order('asc')] and [.order('desc')] *)
Definition orderAsc {A} (key : A -> Z) (matches : list (Id * A))
  : list (Id * A) :=
  merge_sort (indexBefore key) matches.

Definition orderDesc {A} (key : A -> Z) (matches : list (Id * A))
  : list (Id * A) :=
  merge_sort (flip (indexBefore key)) matches.

(** In a list of matches an id stands for one document. *)
Definition idsDetermine {A} (matches : list (Id * A)) : Prop :=
  forall d1 d2,
    d1 ∈ matches -> d2 ∈ matches -> fst d1 = fst d2 -> d1 = d2.

(** ** executionProcesses.ts, continued *)

Record MarkQueuedFollowUpConsumedResult : Type :=
  mkMarkQueuedFollowUpConsumedResult {
  mqr_executionProcessId : Id;
  mqr_queuedFollowUpConsumed : bool;
  mqr_updatedAt : Time;
}.

Definition markQueuedFollowUpConsumed (now : Time) (executionProcessId : Id)
  : Handler MarkQueuedFollowUpConsumedResult :=
  let* process := db_get executionProcessesT executionProcessId in
  match process with
  | None => throw (ExecutionProcessNotFound executionProcessId)
  | Some _ =>
    let* _ := db_patch executionProcessesT executionProcessId
      (fun p => {| ep_workspaceId := ep_workspaceId p;
                   ep_sessionId := ep_sessionId p;
                   ep_runReason := ep_runReason p;
                   ep_status := ep_status p;
                   ep_executor := ep_executor p;
                   ep_queuedFollowUpConsumed := true;
                   ep_startedAt := ep_startedAt p;
                   ep_completedAt := ep_completedAt p;
                   ep_errorMessage := ep_errorMessage p;
                   ep_createdAt := ep_createdAt p;
                   ep_updatedAt := now |}) in
    ret {| mqr_executionProcessId := executionProcessId;
           mqr_queuedFollowUpConsumed := true;
           mqr_updatedAt := now |}
  end.

(** The index range [q.eq('sessionId', sessionId)] of
    [by_session_id_and_started_at]. *)
Definition executionOf (sessionId : Id) (p : ExecutionProcess) : Prop :=
  ep_sessionId p = sessionId.

#[global] Instance executionOf_dec s p : Decision (executionOf s p).
Proof. unfold executionOf. apply _. Defined.

(** *** [.take(n)] *)

(** A [v.number()] argument is a float64: a finite number, an infinity or
    NaN.  The finite ones are rationals, and a rational stands for them
    here, numerator over denominator. *)
Inductive Number : Type :=
  | Finite (q : QArith_base.Q)
  | Infinite (negative : bool)
  | NaN.

(** [Number.isInteger(n)] *)
Definition isInteger (n : Number) : bool :=
  match n with
  | Finite q =>
    QArith_base.Qnum q mod Z.pos (QArith_base.Qden q) =? 0
  | Infinite _ | NaN => false
  end.

(** [n < 0] *)
Definition isNegative (n : Number) : bool :=
  match n with
  | Finite q => QArith_base.Qnum q <? 0
  | Infinite negative => negative
  | NaN => false
  end.

(** The count that a non-negative integer stands for. *)
Definition toCount (n : Number) : nat :=
  match n with
  | Finite q =>
    Z.to_nat (QArith_base.Qnum q / Z.pos (QArith_base.Qden q))
  | Infinite _ | NaN => 0%nat
  end.

(** A query that reads with [.take] throws one more error than the
    handlers above: the one of a count that is not a non-negative
    integer. *)
Inductive QueryError : Type :=
  | Raised (e : Error)
  | TakeCountInvalid (n : Number).

Definition Query (A : Type) : Type := Db -> QueryError + (A * Db).

Definition qret {A} (a : A) : Query A := fun db => inr (a, db).
Definition qthrow {A} (e : QueryError) : Query A := fun _ => inl e.
Definition qbind {A B} (m : Query A) (k : A -> Query B) : Query B :=
  fun db => match m db with
            | inl e => inl e
            | inr (a, db') => k a db'
            end.

(** A step of a handler inside such a query. *)
Definition inQuery {A} (h : Handler A) : Query A :=
  fun db => match h db with
            | inl e => inl (Raised e)
            | inr r => inr r
            end.

Declare Scope query_scope.
Delimit Scope query_scope with query.
Notation "'let*' x ':=' m 'in' k" := (qbind m (fun x => k))
  (at level 10, x name, m at level 100, k at level 200) : query_scope.

(** [.take(n)] of the rows of a query: it throws unless [n] is a
    non-negative integer, [!Number.isInteger(n) || n < 0]. *)
Definition db_take {A} (n : Number) (rows : list A) : Query (list A) :=
  if negb (isInteger n) || isNegative n then qthrow (TakeCountInvalid n)
  else qret (take (toCount n) rows).

(** [n] is the non-negative integer [k]. *)
Definition isCount (n : Number) (k : nat) : Prop :=
  exists q,
    n = Finite q
    /\ QArith_base.Qeq q (QArith_base.inject_Z (Z.of_nat k)).

(** A returned object carries the [_id] and every field of the row, so it
    is the row with its id.  [limit] is the optional number that the
    handler passes to [.take]. *)
Definition listExecutionProcessesBySession (sessionId : Id)
    (limit : option Number) : Query (list (Id * ExecutionProcess)) :=
  (let* matches :=
     inQuery (db_query executionProcessesT (executionOf sessionId)) in
   let queryBuilder := orderDesc ep_startedAt matches in
   match limit with
   | None => qret queryBuilder
   | Some limit => db_take limit queryBuilder
   end)%query.

(** ** workspaces.ts, continued *)

Definition getWorkspace (workspaceId : Id)
  : Handler (option (Id * Workspace)) :=
  let* workspace := db_get workspacesT workspaceId in
  match workspace with
  | None => ret None
  | Some workspace => ret (Some (workspaceId, workspace))
  end.

(** The index range
    [q.eq('ownerUserId', ownerUserId).eq('archived', archived)] of
    [by_owner_user_id_and_archived_and_updated_at]. *)
Definition ownedBy (ownerUserId : string) (archived : bool) (w : Workspace)
  : Prop :=
  ws_ownerUserId w = ownerUserId /\ ws_archived w = archived.

#[global] Instance ownedBy_dec o a w : Decision (ownedBy o a w).
Proof. unfold ownedBy. apply _. Defined.

(** The comparator passed to [rows.sort]. *)
Definition compareWorkspaces (a b : Id * Workspace) : Z :=
  if bool_decide (ws_pinned (snd a) = ws_pinned (snd b))
  then ws_updatedAt (snd b) - ws_updatedAt (snd a)
  else if ws_pinned (snd a) then -1 else 1.

(** [Array.prototype.sort] is a stable sort: [a] stays before [b] unless
    the comparator is positive on them. *)
Fixpoint insertSorted {A} (compare : A -> A -> Z) (a : A) (sorted : list A)
  : list A :=
  match sorted with
  | [] => [a]
  | b :: rest =>
    if compare a b <=? 0 then a :: b :: rest
    else b :: insertSorted compare a rest
  end.

Definition arraySort {A} (compare : A -> A -> Z) (rows : list A) : list A :=
  foldr (insertSorted compare) [] rows.

Definition listWorkspacesByOwner (ownerUserId : string)
    (archived : option bool) : Handler (list (Id * Workspace)) :=
  let archived := default false archived in
  let* matches := db_query workspacesT (ownedBy ownerUserId archived) in
  let rows := orderDesc ws_updatedAt matches in
  ret (arraySort compareWorkspaces rows).

Record UpdateWorkspaceArgs : Type := mkUpdateWorkspaceArgs {
  uw_workspaceId : Id;
  uw_name : option string;
  uw_archived : option bool;
  uw_pinned : option bool;
  uw_status : option SessionStatus;
  uw_activeSessionId : option Id;
  uw_activeWorkspaceRepoId : option Id;
}.

Record UpdateWorkspaceResult : Type := mkUpdateWorkspaceResult {
  uwr_workspaceId : Id;
  uwr_updatedAt : Time;
}.

Definition updateWorkspace (now : Time) (args : UpdateWorkspaceArgs)
  : Handler UpdateWorkspaceResult :=
  let* workspace := db_get workspacesT (uw_workspaceId args) in
  match workspace with
  | None => throw (WorkspaceNotFound (uw_workspaceId args))
  | Some workspace =>
    let* _ := db_patch workspacesT (uw_workspaceId args)
      (fun w => {| ws_ownerUserId := ws_ownerUserId w;
                   ws_organizationId := ws_organizationId w;
                   ws_projectId := ws_projectId w;
                   ws_name := default (ws_name workspace) (uw_name args);
                   ws_branch := ws_branch w;
                   ws_status :=
                     default (ws_status workspace) (uw_status args);
                   ws_archived :=
                     default (ws_archived workspace) (uw_archived args);
                   ws_pinned :=
                     default (ws_pinned workspace) (uw_pinned args);
                   ws_activeSessionId :=
                     uw_activeSessionId args ?? ws_activeSessionId workspace;
                   ws_activeWorkspaceRepoId :=
                     uw_activeWorkspaceRepoId args
                     ?? ws_activeWorkspaceRepoId workspace;
                   ws_createdAt := ws_createdAt w;
                   ws_updatedAt := now |}) in
    ret {| uwr_workspaceId := uw_workspaceId args; uwr_updatedAt := now |}
  end.

(** ** sessions.ts *)

Record CreateSessionResult : Type := mkCreateSessionResult {
  csr_sessionId : Id;
  csr_workspaceId : Id;
  csr_lastUsedAt : Time;
}.

Definition createSession (now : Time) (workspaceId : Id)
    (title : option string) : Handler CreateSessionResult :=
  let* workspace := db_get workspacesT workspaceId in
  match workspace with
  | None => throw (WorkspaceNotFound workspaceId)
  | Some _ =>
    let* sessionId := db_insert sessionsT
      {| se_workspaceId := workspaceId;
         se_title := title;
         se_status := StIdle;
         se_lastUsedAt := now;
         se_createdAt := now;
         se_updatedAt := now |} in
    let* _ := db_patch workspacesT workspaceId
      (fun w => {| ws_ownerUserId := ws_ownerUserId w;
                   ws_organizationId := ws_organizationId w;
                   ws_projectId := ws_projectId w;
                   ws_name := ws_name w;
                   ws_branch := ws_branch w;
                   ws_status := ws_status w;
                   ws_archived := ws_archived w;
                   ws_pinned := ws_pinned w;
                   ws_activeSessionId := Some sessionId;
                   ws_activeWorkspaceRepoId := ws_activeWorkspaceRepoId w;
                   ws_createdAt := ws_createdAt w;
                   ws_updatedAt := now |}) in
    ret {| csr_sessionId := sessionId;
           csr_workspaceId := workspaceId;
           csr_lastUsedAt := now |}
  end.

(** The index range [q.eq('workspaceId', workspaceId)] of
    [by_workspace_id_and_last_used_at]. *)
Definition sessionOf (workspaceId : Id) (s : Session) : Prop :=
  se_workspaceId s = workspaceId.

#[global] Instance sessionOf_dec w s : Decision (sessionOf w s).
Proof. unfold sessionOf. apply _. Defined.

Definition listSessionsByWorkspace (workspaceId : Id)
  : Handler (list (Id * Session)) :=
  let* matches := db_query sessionsT (sessionOf workspaceId) in
  ret (orderDesc se_lastUsedAt matches).

Definition touchSession (now : Time) (sessionId : Id)
  : Handler (Id * Time) :=
  let* session := db_get sessionsT sessionId in
  match session with
  | None => throw (SessionNotFound sessionId)
  | Some _ =>
    let* _ := db_patch sessionsT sessionId
      (fun s => {| se_workspaceId := se_workspaceId s;
                   se_title := se_title s;
                   se_status := se_status s;
                   se_lastUsedAt := now;
                   se_createdAt := se_createdAt s;
                   se_updatedAt := now |}) in
    ret (sessionId, now)
  end.

Definition setSessionStatus (now : Time) (sessionId : Id)
    (status : SessionStatus) : Handler (Id * SessionStatus * Time) :=
  let* session := db_get sessionsT sessionId in
  match session with
  | None => throw (SessionNotFound sessionId)
  | Some _ =>
    let* _ := db_patch sessionsT sessionId
      (fun s => {| se_workspaceId := se_workspaceId s;
                   se_title := se_title s;
                   se_status := status;
                   se_lastUsedAt := now;
                   se_createdAt := se_createdAt s;
                   se_updatedAt := now |}) in
    ret (sessionId, status, now)
  end.

(** ** The workspace-repo functions that follow sessions.ts *)

(** The index ranges [q.eq('workspaceId', workspaceId)] of
    [by_workspace_id_and_sort_order] and
    [q.eq('workspaceId', workspaceId).eq('enabled', true)] of
    [by_workspace_id_and_enabled_and_sort_order]. *)
Definition repoOf (workspaceId : Id) (r : WorkspaceRepo) : Prop :=
  wr_workspaceId r = workspaceId.

Definition enabledRepoOf (workspaceId : Id) (r : WorkspaceRepo) : Prop :=
  wr_workspaceId r = workspaceId /\ wr_enabled r = true.

#[global] Instance repoOf_dec w r : Decision (repoOf w r).
Proof. unfold repoOf. apply _. Defined.
#[global] Instance enabledRepoOf_dec w r : Decision (enabledRepoOf w r).
Proof. unfold enabledRepoOf. apply _. Defined.

Definition listWorkspaceRepos (workspaceId : Id) (enabledOnly : option bool)
  : Handler (list (Id * WorkspaceRepo)) :=
  if bool_decide (enabledOnly = Some true)
  then
    let* matches := db_query workspaceReposT (enabledRepoOf workspaceId) in
    ret (orderAsc wr_sortOrder matches)
  else
    let* matches := db_query workspaceReposT (repoOf workspaceId) in
    ret (orderAsc wr_sortOrder matches).

(** ** The whole store

    [schema.ts] declares a seventh table, [approvals], and the functions
    below throw errors that the ones above do not.  Their handlers run over
    the database together with the approvals. *)

Inductive ApprovalStatus : Type :=
  | ApPending | ApApproved | ApRejected | ApExpired | ApCancelled.

#[global] Instance ApprovalStatus_eq_dec : EqDecision ApprovalStatus.
Proof. solve_decision. Defined.

Record Approval : Type := mkApproval {
  ap_workspaceId : Id;
  ap_sessionId : Id;
  ap_executionProcessId : Id;
  ap_kind : string;
  ap_prompt : string;
  ap_status : ApprovalStatus;
  ap_requestedAt : Time;
  ap_respondedAt : option Time;
  ap_respondedBy : option string;
  ap_expiresAt : option Time;
  ap_createdAt : Time;
  ap_updatedAt : Time;
}.

Record Store : Type := mkStore {
  st_db : Db;
  approvals : list Approval;
}.

Inductive StoreError : Type :=
  | Thrown (e : Error)
  | WorkspaceRepoNotFound (workspaceRepoId : Id)
  | WorkspaceRepoNotInWorkspace (workspaceRepoId workspaceId : Id)
  | ApprovalNotFound (approvalId : Id)
  | ApprovalNotPending (approvalId : Id).

Definition StoreHandler (A : Type) : Type :=
  Store -> StoreError + (A * Store).

Definition sret {A} (a : A) : StoreHandler A := fun st => inr (a, st).
Definition sthrow {A} (e : StoreError) : StoreHandler A := fun _ => inl e.
Definition sbind {A B} (m : StoreHandler A) (k : A -> StoreHandler B)
  : StoreHandler B :=
  fun st => match m st with
            | inl e => inl e
            | inr (a, st') => k a st'
            end.

(** A step on one of the six tables of [Db]. *)
Definition onDb {A} (h : Handler A) : StoreHandler A :=
  fun st => match h (st_db st) with
            | inl e => inl (Thrown e)
            | inr (a, db') => inr (a, mkStore db' (approvals st))
            end.

(** [ctx.db.get], [ctx.db.insert] and [ctx.db.patch] on approvals. *)
Definition approval_get (id : Id) : StoreHandler (option Approval) :=
  fun st => inr (approvals st !! id, st).

Definition approval_insert (doc : Approval) : StoreHandler Id :=
  fun st => inr (length (approvals st),
                 mkStore (st_db st) (approvals st ++ [doc])).

Definition approval_patch (id : Id) (f : Approval -> Approval)
  : StoreHandler unit :=
  fun st => match approvals st !! id with
            | None => inl (Thrown (PatchOfMissingDocument id))
            | Some doc =>
              inr (tt, mkStore (st_db st) (<[id := f doc]> (approvals st)))
            end.

Definition runStoreMutation {A} (h : StoreHandler A) (st : Store)
  : Store * (StoreError + A) :=
  match h st with
  | inl e => (st, inl e)
  | inr (a, st') => (st', inr a)
  end.

Declare Scope store_scope.
Delimit Scope store_scope with store.
Notation "'let*' x ':=' m 'in' k" := (sbind m (fun x => k))
  (at level 10, x name, m at level 100, k at level 200) : store_scope.

Record UpdateWorkspaceRepoArgs : Type := mkUpdateWorkspaceRepoArgs {
  ur_workspaceRepoId : Id;
  ur_enabled : option bool;
  ur_targetBranch : option string;
  ur_sortOrder : option Z;
}.

Definition updateWorkspaceRepo (now : Time) (args : UpdateWorkspaceRepoArgs)
  : StoreHandler (Id * Time) :=
  (let* workspaceRepo :=
     onDb (db_get workspaceReposT (ur_workspaceRepoId args)) in
   match workspaceRepo with
   | None => sthrow (WorkspaceRepoNotFound (ur_workspaceRepoId args))
   | Some workspaceRepo =>
     let* _ := onDb (db_patch workspaceReposT (ur_workspaceRepoId args)
       (fun r => {| wr_workspaceId := wr_workspaceId r;
                    wr_repoId := wr_repoId r;
                    wr_repoName := wr_repoName r;
                    wr_targetBranch :=
                      default (wr_targetBranch workspaceRepo)
                        (ur_targetBranch args);
                    wr_enabled :=
                      default (wr_enabled workspaceRepo) (ur_enabled args);
                    wr_sortOrder :=
                      default (wr_sortOrder workspaceRepo)
                        (ur_sortOrder args);
                    wr_createdAt := wr_createdAt r;
                    wr_updatedAt := now |})) in
     sret (ur_workspaceRepoId args, now)
   end)%store.

Definition setActiveWorkspaceRepo (now : Time)
    (workspaceId workspaceRepoId : Id) : StoreHandler (Id * Id * Time) :=
  (let* workspace := onDb (db_get workspacesT workspaceId) in
   match workspace with
   | None => sthrow (Thrown (WorkspaceNotFound workspaceId))
   | Some _ =>
     let* workspaceRepo := onDb (db_get workspaceReposT workspaceRepoId) in
     match workspaceRepo with
     | Some workspaceRepo =>
       if bool_decide (wr_workspaceId workspaceRepo <> workspaceId)
       then sthrow (WorkspaceRepoNotInWorkspace workspaceRepoId workspaceId)
       else
         let* _ := onDb (db_patch workspacesT workspaceId
           (fun w => {| ws_ownerUserId := ws_ownerUserId w;
                        ws_organizationId := ws_organizationId w;
                        ws_projectId := ws_projectId w;
                        ws_name := ws_name w;
                        ws_branch := ws_branch w;
                        ws_status := ws_status w;
                        ws_archived := ws_archived w;
                        ws_pinned := ws_pinned w;
                        ws_activeSessionId := ws_activeSessionId w;
                        ws_activeWorkspaceRepoId := Some workspaceRepoId;
                        ws_createdAt := ws_createdAt w;
                        ws_updatedAt := now |})) in
         sret (workspaceId, workspaceRepoId, now)
     | None => sthrow (WorkspaceRepoNotInWorkspace workspaceRepoId workspaceId)
     end
   end)%store.

(** ** The approval functions that follow migration-workspaces.md *)

Record RequestApprovalArgs : Type := mkRequestApprovalArgs {
  ra_workspaceId : Id;
  ra_sessionId : Id;
  ra_executionProcessId : Id;
  ra_kind : string;
  ra_prompt : string;
  ra_expiresAt : option Time;
}.

Record RequestApprovalResult : Type := mkRequestApprovalResult {
  rar_approvalId : Id;
  rar_status : ApprovalStatus;
  rar_requestedAt : Time;
}.

(** The patch of the session by [requestApproval] and [respondApproval]. *)
Definition sessionWithStatus (now : Time) (status : SessionStatus)
    (s : Session) : Session :=
  {| se_workspaceId := se_workspaceId s;
     se_title := se_title s;
     se_status := status;
     se_lastUsedAt := now;
     se_createdAt := se_createdAt s;
     se_updatedAt := now |}.

(** Their patch of the workspace. *)
Definition workspaceWithStatus (now : Time) (status : SessionStatus)
    (w : Workspace) : Workspace :=
  {| ws_ownerUserId := ws_ownerUserId w;
     ws_organizationId := ws_organizationId w;
     ws_projectId := ws_projectId w;
     ws_name := ws_name w;
     ws_branch := ws_branch w;
     ws_status := status;
     ws_archived := ws_archived w;
     ws_pinned := ws_pinned w;
     ws_activeSessionId := ws_activeSessionId w;
     ws_activeWorkspaceRepoId := ws_activeWorkspaceRepoId w;
     ws_createdAt := ws_createdAt w;
     ws_updatedAt := now |}.

Definition requestApproval (now : Time) (args : RequestApprovalArgs)
  : StoreHandler RequestApprovalResult :=
  (let* approvalId := approval_insert
     {| ap_workspaceId := ra_workspaceId args;
        ap_sessionId := ra_sessionId args;
        ap_executionProcessId := ra_executionProcessId args;
        ap_kind := ra_kind args;
        ap_prompt := ra_prompt args;
        ap_status := ApPending;
        ap_requestedAt := now;
        ap_respondedAt := None;
        ap_respondedBy := None;
        ap_expiresAt := ra_expiresAt args;
        ap_createdAt := now;
        ap_updatedAt := now |} in
   let* _ := onDb (db_patch sessionsT (ra_sessionId args)
                     (sessionWithStatus now StNeedsAttention)) in
   let* _ := onDb (db_patch workspacesT (ra_workspaceId args)
                     (workspaceWithStatus now StNeedsAttention)) in
   sret {| rar_approvalId := approvalId;
           rar_status := ApPending;
           rar_requestedAt := now |})%store.

(** The [status] argument of [respondApproval]. *)
Inductive ApprovalResponse : Type := RespApproved | RespRejected.

Definition responseStatus (r : ApprovalResponse) : ApprovalStatus :=
  match r with
  | RespApproved => ApApproved
  | RespRejected => ApRejected
  end.

Record RespondApprovalArgs : Type := mkRespondApprovalArgs {
  rp_approvalId : Id;
  rp_status : ApprovalResponse;
  rp_respondedBy : string;
}.

Record RespondApprovalResult : Type := mkRespondApprovalResult {
  rpr_approvalId : Id;
  rpr_status : ApprovalStatus;
  rpr_respondedAt : Time;
}.

Definition respondApproval (now : Time) (args : RespondApprovalArgs)
  : StoreHandler RespondApprovalResult :=
  (let* approval := approval_get (rp_approvalId args) in
   match approval with
   | None => sthrow (ApprovalNotFound (rp_approvalId args))
   | Some approval =>
     if bool_decide (ap_status approval <> ApPending)
     then sthrow (ApprovalNotPending (rp_approvalId args))
     else
       let* _ := approval_patch (rp_approvalId args)
         (fun a => {| ap_workspaceId := ap_workspaceId a;
                      ap_sessionId := ap_sessionId a;
                      ap_executionProcessId := ap_executionProcessId a;
                      ap_kind := ap_kind a;
                      ap_prompt := ap_prompt a;
                      ap_status := responseStatus (rp_status args);
                      ap_requestedAt := ap_requestedAt a;
                      ap_respondedAt := Some now;
                      ap_respondedBy := Some (rp_respondedBy args);
                      ap_expiresAt := ap_expiresAt a;
                      ap_createdAt := ap_createdAt a;
                      ap_updatedAt := now |}) in
       let* _ := onDb (db_patch sessionsT (ap_sessionId approval)
                         (sessionWithStatus now StIdle)) in
       let* _ := onDb (db_patch workspacesT (ap_workspaceId approval)
                         (workspaceWithStatus now StIdle)) in
       sret {| rpr_approvalId := rp_approvalId args;
               rpr_status := responseStatus (rp_status args);
               rpr_respondedAt := now |}
   end)%store.

(** The index range [q.eq('sessionId', sessionId).eq('status', 'pending')]
    of [by_session_id_and_status_and_requested_at]. *)
Definition pendingOf (sessionId : Id) (a : Approval) : Prop :=
  ap_sessionId a = sessionId /\ ap_status a = ApPending.

#[global] Instance pendingOf_dec s a : Decision (pendingOf s a).
Proof. unfold pendingOf. apply _. Defined.

(** The object that [listPendingApprovalsBySession] returns for a row. *)
Record PendingApproval : Type := mkPendingApproval {
  pa_approvalId : Id;
  pa_workspaceId : Id;
  pa_sessionId : Id;
  pa_executionProcessId : Id;
  pa_kind : string;
  pa_prompt : string;
  pa_status : ApprovalStatus;
  pa_requestedAt : Time;
  pa_expiresAt : option Time;
}.

Definition pendingApprovalOf (d : Id * Approval) : PendingApproval :=
  {| pa_approvalId := fst d;
     pa_workspaceId := ap_workspaceId (snd d);
     pa_sessionId := ap_sessionId (snd d);
     pa_executionProcessId := ap_executionProcessId (snd d);
     pa_kind := ap_kind (snd d);
     pa_prompt := ap_prompt (snd d);
     pa_status := ap_status (snd d);
     pa_requestedAt := ap_requestedAt (snd d);
     pa_expiresAt := ap_expiresAt (snd d) |}.

Definition listPendingApprovalsBySession (sessionId : Id)
  : StoreHandler (list PendingApproval) :=
  fun st =>
    let matches :=
      filter (fun d => pendingOf sessionId (snd d))
        (imap pair (approvals st)) in
    inr (pendingApprovalOf <$> orderDesc ap_requestedAt matches, st).

(** * Specification vocabulary *)

(** The database that a successful [setExecutionStatus] commits. *)
Definition setExecutionStatus_db (now : Time) (args : SetExecutionStatusArgs)
    (process : ExecutionProcess) (session : Session) (workspace : Workspace)
    (db : Db) : Db :=
  let mapped := mapExecutionToSessionStatus (ses_status args) in
  {| workspaces :=
       <[ep_workspaceId process :=
           {| ws_ownerUserId := ws_ownerUserId workspace;
              ws_organizationId := ws_organizationId workspace;
              ws_projectId := ws_projectId workspace;
              ws_name := ws_name workspace;
              ws_branch := ws_branch workspace;
              ws_status := mapped;
              ws_archived := ws_archived workspace;
              ws_pinned := ws_pinned workspace;
              ws_activeSessionId := ws_activeSessionId workspace;
              ws_activeWorkspaceRepoId := ws_activeWorkspaceRepoId workspace;
              ws_createdAt := ws_createdAt workspace;
              ws_updatedAt := now |}]> (workspaces db);
     workspaceRepos := workspaceRepos db;
     sessions :=
       <[ep_sessionId process :=
           {| se_workspaceId := se_workspaceId session;
              se_title := se_title session;
              se_status := mapped;
              se_lastUsedAt := now;
              se_createdAt := se_createdAt session;
              se_updatedAt := now |}]> (sessions db);
     executionProcesses :=
       <[ses_executionProcessId args :=
           {| ep_workspaceId := ep_workspaceId process;
              ep_sessionId := ep_sessionId process;
              ep_runReason := ep_runReason process;
              ep_status := ses_status args;
              ep_executor := ep_executor process;
              ep_queuedFollowUpConsumed := ep_queuedFollowUpConsumed process;
              ep_startedAt := ep_startedAt process;
              ep_completedAt :=
                if terminal (ses_status args) then Some now
                else ep_completedAt process;
              ep_errorMessage := ses_errorMessage args;
              ep_createdAt := ep_createdAt process;
              ep_updatedAt := now |}]> (executionProcesses db);
     executionProcessRepoStates := executionProcessRepoStates db;
     queuedMessages := queuedMessages db |}.

(** The database that a successful [startExecution] commits. *)
Definition startExecution_db (now : Time) (args : StartExecutionArgs)
    (session : Session) (workspace : Workspace) (db : Db) : Db :=
  {| workspaces :=
       <[sx_workspaceId args :=
           {| ws_ownerUserId := ws_ownerUserId workspace;
              ws_organizationId := ws_organizationId workspace;
              ws_projectId := ws_projectId workspace;
              ws_name := ws_name workspace;
              ws_branch := ws_branch workspace;
              ws_status := StRunning;
              ws_archived := ws_archived workspace;
              ws_pinned := ws_pinned workspace;
              ws_activeSessionId := Some (sx_sessionId args);
              ws_activeWorkspaceRepoId := ws_activeWorkspaceRepoId workspace;
              ws_createdAt := ws_createdAt workspace;
              ws_updatedAt := now |}]> (workspaces db);
     workspaceRepos := workspaceRepos db;
     sessions :=
       <[sx_sessionId args :=
           {| se_workspaceId := se_workspaceId session;
              se_title := se_title session;
              se_status := StRunning;
              se_lastUsedAt := now;
              se_createdAt := se_createdAt session;
              se_updatedAt := now |}]> (sessions db);
     executionProcesses :=
       executionProcesses db ++
         [{| ep_workspaceId := sx_workspaceId args;
             ep_sessionId := sx_sessionId args;
             ep_runReason := sx_runReason args;
             ep_status := ExRunning;
             ep_executor := sx_executor args;
             ep_queuedFollowUpConsumed := false;
             ep_startedAt := now;
             ep_completedAt := None;
             ep_errorMessage := None;
             ep_createdAt := now;
             ep_updatedAt := now |}];
     executionProcessRepoStates := executionProcessRepoStates db;
     queuedMessages := queuedMessages db |}.

(** ** The follow-up queue *)

(** The row that the query of [queuedMessages.ts] finds among the rows [l]
    of the table. *)
Definition firstQueuedRow (sessionId : Id) (l : list QueuedMessage)
  : option (Id * QueuedMessage) :=
  greatest qm_queuedAt (filter (fun d => queuedOf sessionId (snd d))
                          (imap pair l)).

(** The number of rows of a session in state [queued]. *)
Definition queuedCount (sessionId : Id) (db : Db) : nat :=
  length (filter (queuedOf sessionId) (queuedMessages db)).

(** The three mutations of the queue, with the clock they read. *)
Inductive QueueOp : Type :=
  | OpEnqueue (now : Time) (args : EnqueueFollowUpArgs)
  | OpConsume (now : Time) (sessionId : Id)
  | OpDiscard (now : Time) (sessionId : Id).

(** The database after one queue mutation has run as a transaction. *)
Definition applyQueueOp (db : Db) (op : QueueOp) : Db :=
  match op with
  | OpEnqueue now args => fst (runMutation (enqueueFollowUp now args) db)
  | OpConsume now sessionId =>
    fst (runMutation (consumeQueuedMessage now sessionId) db)
  | OpDiscard now sessionId =>
    fst (runMutation (discardQueuedMessage now sessionId) db)
  end.

Definition applyQueueOps (ops : list QueueOp) (db : Db) : Db :=
  foldl applyQueueOp db ops.

(** ** [createWorkspace] *)

(** The workspace document of [createWorkspace] after its final patch. *)
Definition createdWorkspace (now : Time) (args : CreateWorkspaceArgs)
    (sessionId : Id) (workspaceRepoIds : list Id) : Workspace :=
  {| ws_ownerUserId := cw_ownerUserId args;
     ws_organizationId := cw_organizationId args;
     ws_projectId := cw_projectId args;
     ws_name := cw_name args;
     ws_branch := cw_branch args;
     ws_status := StIdle;
     ws_archived := false;
     ws_pinned := false;
     ws_activeSessionId := Some sessionId;
     ws_activeWorkspaceRepoId := workspaceRepoIds !! 0%nat;
     ws_createdAt := now;
     ws_updatedAt := now |}.

(** The session document of [createWorkspace]. *)
Definition createdSession (now : Time) (args : CreateWorkspaceArgs)
    (workspaceId : Id) : Session :=
  {| se_workspaceId := workspaceId;
     se_title := cw_initialSessionTitle args;
     se_status := StIdle;
     se_lastUsedAt := now;
     se_createdAt := now;
     se_updatedAt := now |}.

(** ** [upsertExecutionRepoState] *)

(** The number of repo-state rows of an (execution, workspace-repo) pair. *)
Definition repoStateCount (executionProcessId workspaceRepoId : Id) (db : Db)
  : nat :=
  length (filter (repoStateOf executionProcessId workspaceRepoId)
            (executionProcessRepoStates db)).

(** The row that [upsertExecutionRepoState] leaves in place of [existing]. *)
Definition patchedRepoState (now : Time) (args : UpsertExecutionRepoStateArgs)
    (existing : ExecutionProcessRepoState) : ExecutionProcessRepoState :=
  {| rs_executionProcessId := rs_executionProcessId existing;
     rs_workspaceRepoId := rs_workspaceRepoId existing;
     rs_beforeHeadCommit :=
       ux_beforeHeadCommit args ?? rs_beforeHeadCommit existing;
     rs_afterHeadCommit :=
       ux_afterHeadCommit args ?? rs_afterHeadCommit existing;
     rs_repoState := ux_repoState args ?? rs_repoState existing;
     rs_createdAt := rs_createdAt existing;
     rs_updatedAt := now |}.

(** The row that [upsertExecutionRepoState] inserts. *)
Definition insertedRepoState (now : Time)
    (args : UpsertExecutionRepoStateArgs) : ExecutionProcessRepoState :=
  {| rs_executionProcessId := ux_executionProcessId args;
     rs_workspaceRepoId := ux_workspaceRepoId args;
     rs_beforeHeadCommit := ux_beforeHeadCommit args;
     rs_afterHeadCommit := ux_afterHeadCommit args;
     rs_repoState := ux_repoState args;
     rs_createdAt := now;
     rs_updatedAt := now |}.

(** ** A small database for the examples

    Workspace [W1] on branch [feat/x] with one session and one execution of
    that session, whose status and [completedAt] are given. *)

Definition exampleWorkspace : Workspace :=
  {| ws_ownerUserId := "user_1";
     ws_organizationId := None;
     ws_projectId := None;
     ws_name := "W1";
     ws_branch := "feat/x";
     ws_status := StIdle;
     ws_archived := false;
     ws_pinned := false;
     ws_activeSessionId := Some 0%nat;
     ws_activeWorkspaceRepoId := Some 0%nat;
     ws_createdAt := 1;
     ws_updatedAt := 1 |}.

Definition exampleRepo : WorkspaceRepo :=
  {| wr_workspaceId := 0%nat;
     wr_repoId := "repo_app";
     wr_repoName := "app";
     wr_targetBranch := "main";
     wr_enabled := true;
     wr_sortOrder := 0;
     wr_createdAt := 1;
     wr_updatedAt := 1 |}.

Definition exampleSession (title : string) : Session :=
  {| se_workspaceId := 0%nat;
     se_title := Some title;
     se_status := StIdle;
     se_lastUsedAt := 1;
     se_createdAt := 1;
     se_updatedAt := 1 |}.

Definition exampleExecution (status : ExecutionStatus)
    (completedAt : option Time) : ExecutionProcess :=
  {| ep_workspaceId := 0%nat;
     ep_sessionId := 0%nat;
     ep_runReason := RrCodingAgent;
     ep_status := status;
     ep_executor := None;
     ep_queuedFollowUpConsumed := false;
     ep_startedAt := 2;
     ep_completedAt := completedAt;
     ep_errorMessage := None;
     ep_createdAt := 2;
     ep_updatedAt := 2 |}.

Definition exampleDb (status : ExecutionStatus) (completedAt : option Time)
  : Db :=
  {| workspaces := [exampleWorkspace];
     workspaceRepos := [exampleRepo];
     sessions := [exampleSession "first"; exampleSession "second"];
     executionProcesses := [exampleExecution status completedAt];
     executionProcessRepoStates := [];
     queuedMessages := [] |}.

Definition exampleQueuedMessage (sessionId : Id) (message : string)
    (state : QueueState) : QueuedMessage :=
  {| qm_sessionId := sessionId;
     qm_message := message;
     qm_executor := None;
     qm_variant := None;
     qm_state := state;
     qm_enqueueingProcessId := Some 0%nat;
     qm_queuedAt := 3;
     qm_consumedAt := None;
     qm_discardedAt := None;
     qm_createdAt := 3;
     qm_updatedAt := 3 |}.

(** Session 0 has consumed its follow-up; session 1 has one queued. *)
Definition exampleQueueDb : Db :=
  setRows queuedMessagesT
    [exampleQueuedMessage 0 "also update README" QConsumed;
     exampleQueuedMessage 1 "run the tests" QQueued]
    (exampleDb ExRunning None).

Definition exampleRepoState : ExecutionProcessRepoState :=
  {| rs_executionProcessId := 0;
     rs_workspaceRepoId := 0;
     rs_beforeHeadCommit := Some "abc123";
     rs_afterHeadCommit := None;
     rs_repoState := None;
     rs_createdAt := 4;
     rs_updatedAt := 4 |}.

(** The running execution has recorded the head of the repository. *)
Definition exampleSnapshotDb : Db :=
  setRows executionProcessRepoStatesT [exampleRepoState]
    (exampleDb ExRunning None).

(** ** Sequences of mutations on executions *)

Inductive ExecutionOp : Type :=
  | OpStart (now : Time) (args : StartExecutionArgs)
  | OpSetStatus (now : Time) (args : SetExecutionStatusArgs)
  | OpMarkConsumed (now : Time) (executionProcessId : Id).

Definition applyExecutionOp (db : Db) (op : ExecutionOp) : Db :=
  match op with
  | OpStart now args => fst (runMutation (startExecution now args) db)
  | OpSetStatus now args =>
    fst (runMutation (setExecutionStatus now args) db)
  | OpMarkConsumed now executionProcessId =>
    fst (runMutation (markQueuedFollowUpConsumed now executionProcessId) db)
  end.

Definition applyExecutionOps (ops : list ExecutionOp) (db : Db) : Db :=
  foldl applyExecutionOp db ops.

(** ** Workspaces in a listing *)

(** [a] may stand before [b] in the listing of [listWorkspacesByOwner]:
    pinned before not pinned, and among equally pinned the later update
    first. *)
Definition pinnedFirst (a b : Id * Workspace) : Prop :=
  (ws_pinned (snd a) = ws_pinned (snd b)
   /\ ws_updatedAt (snd b) <= ws_updatedAt (snd a))
  \/ (ws_pinned (snd a) = true /\ ws_pinned (snd b) = false).

(** The workspace that [updateWorkspace] leaves in place of [workspace]. *)
Definition updatedWorkspace (now : Time) (args : UpdateWorkspaceArgs)
    (workspace : Workspace) : Workspace :=
  {| ws_ownerUserId := ws_ownerUserId workspace;
     ws_organizationId := ws_organizationId workspace;
     ws_projectId := ws_projectId workspace;
     ws_name := default (ws_name workspace) (uw_name args);
     ws_branch := ws_branch workspace;
     ws_status := default (ws_status workspace) (uw_status args);
     ws_archived := default (ws_archived workspace) (uw_archived args);
     ws_pinned := default (ws_pinned workspace) (uw_pinned args);
     ws_activeSessionId :=
       uw_activeSessionId args ?? ws_activeSessionId workspace;
     ws_activeWorkspaceRepoId :=
       uw_activeWorkspaceRepoId args ?? ws_activeWorkspaceRepoId workspace;
     ws_createdAt := ws_createdAt workspace;
     ws_updatedAt := now |}.

(** ** Documents that the store functions write *)

(** The repository that [updateWorkspaceRepo] leaves in place of
    [workspaceRepo]. *)
Definition updatedWorkspaceRepo (now : Time) (args : UpdateWorkspaceRepoArgs)
    (workspaceRepo : WorkspaceRepo) : WorkspaceRepo :=
  {| wr_workspaceId := wr_workspaceId workspaceRepo;
     wr_repoId := wr_repoId workspaceRepo;
     wr_repoName := wr_repoName workspaceRepo;
     wr_targetBranch :=
       default (wr_targetBranch workspaceRepo) (ur_targetBranch args);
     wr_enabled := default (wr_enabled workspaceRepo) (ur_enabled args);
     wr_sortOrder := default (wr_sortOrder workspaceRepo) (ur_sortOrder args);
     wr_createdAt := wr_createdAt workspaceRepo;
     wr_updatedAt := now |}.

(** The workspace that [setActiveWorkspaceRepo] leaves in place of [w]. *)
Definition workspaceWithActiveRepo (now : Time) (workspaceRepoId : Id)
    (w : Workspace) : Workspace :=
  {| ws_ownerUserId := ws_ownerUserId w;
     ws_organizationId := ws_organizationId w;
     ws_projectId := ws_projectId w;
     ws_name := ws_name w;
     ws_branch := ws_branch w;
     ws_status := ws_status w;
     ws_archived := ws_archived w;
     ws_pinned := ws_pinned w;
     ws_activeSessionId := ws_activeSessionId w;
     ws_activeWorkspaceRepoId := Some workspaceRepoId;
     ws_createdAt := ws_createdAt w;
     ws_updatedAt := now |}.

(** The approval that [requestApproval] inserts. *)
Definition requestedApproval (now : Time) (args : RequestApprovalArgs)
  : Approval :=
  {| ap_workspaceId := ra_workspaceId args;
     ap_sessionId := ra_sessionId args;
     ap_executionProcessId := ra_executionProcessId args;
     ap_kind := ra_kind args;
     ap_prompt := ra_prompt args;
     ap_status := ApPending;
     ap_requestedAt := now;
     ap_respondedAt := None;
     ap_respondedBy := None;
     ap_expiresAt := ra_expiresAt args;
     ap_createdAt := now;
     ap_updatedAt := now |}.

(** The approval that [respondApproval] leaves in place of [a]. *)
Definition respondedApproval (now : Time) (args : RespondApprovalArgs)
    (a : Approval) : Approval :=
  {| ap_workspaceId := ap_workspaceId a;
     ap_sessionId := ap_sessionId a;
     ap_executionProcessId := ap_executionProcessId a;
     ap_kind := ap_kind a;
     ap_prompt := ap_prompt a;
     ap_status := responseStatus (rp_status args);
     ap_requestedAt := ap_requestedAt a;
     ap_respondedAt := Some now;
     ap_respondedBy := Some (rp_respondedBy args);
     ap_expiresAt := ap_expiresAt a;
     ap_createdAt := ap_createdAt a;
     ap_updatedAt := now |}.

(** The two mutations of approvals, with the clock they read. *)
Inductive ApprovalOp : Type :=
  | OpRequest (now : Time) (args : RequestApprovalArgs)
  | OpRespond (now : Time) (args : RespondApprovalArgs).

Definition applyApprovalOp (st : Store) (op : ApprovalOp) : Store :=
  match op with
  | OpRequest now args => fst (runStoreMutation (requestApproval now args) st)
  | OpRespond now args => fst (runStoreMutation (respondApproval now args) st)
  end.

Definition applyApprovalOps (ops : list ApprovalOp) (st : Store) : Store :=
  foldl applyApprovalOp st ops.

(** The example database with one pending approval of session 0. *)
Definition exampleStore : Store :=
  {| st_db := exampleDb ExRunning None;
     approvals :=
       [requestedApproval 6
          (mkRequestApprovalArgs 0 0 0 "dangerous_write" "overwrite main?"
             None)] |}.

(** The session that a queue mutation works on. *)
Definition queueOpSession (op : QueueOp) : Id :=
  match op with
  | OpEnqueue _ args => ef_sessionId args
  | OpConsume _ sessionId => sessionId
  | OpDiscard _ sessionId => sessionId
  end.

(** * Properties *)

(** ** Status projection of [setExecutionStatus] *)

Lemma mapExecutionToSessionStatus_table :
  mapExecutionToSessionStatus ExPending = StRunning
  /\ mapExecutionToSessionStatus ExRunning = StRunning
  /\ mapExecutionToSessionStatus ExFailed = StNeedsAttention
  /\ mapExecutionToSessionStatus ExKilled = StNeedsAttention
  /\ mapExecutionToSessionStatus ExCompleted = StIdle
  /\ mapExecutionToSessionStatus ExDropped = StIdle.
Proof. repeat split. Qed.


Lemma setExecutionStatus_runs now args db process session workspace :
  executionProcesses db !! ses_executionProcessId args = Some process ->
  sessions db !! ep_sessionId process = Some session ->
  workspaces db !! ep_workspaceId process = Some workspace ->
  setExecutionStatus now args db
  = inr ({| sesr_executionProcessId := ses_executionProcessId args;
            sesr_status := ses_status args;
            sesr_sessionStatus :=
              mapExecutionToSessionStatus (ses_status args);
            sesr_updatedAt := now |},
         setExecutionStatus_db now args process session workspace db).
Proof.
  intros Hp Hs Hw.
  unfold setExecutionStatus, bind, db_get, db_patch, ret. cbn.
  rewrite Hp. cbn. rewrite Hp. cbn. rewrite Hs. cbn. rewrite Hw. cbn.
  reflexivity.
Qed.

(** C1. On an existing execution whose session and workspace documents
    exist, [setExecutionStatus] succeeds and sets the status of the owning
    session and of the owning workspace to the image of the given status:
    pending and running give running, failed and killed give
    needs_attention, completed and dropped give idle. *)
Theorem setExecutionStatus_projects_status now args db process :
  executionProcesses db !! ses_executionProcessId args = Some process ->
  is_Some (sessions db !! ep_sessionId process) ->
  is_Some (workspaces db !! ep_workspaceId process) ->
  let image :=
    match ses_status args with
    | ExPending | ExRunning => StRunning
    | ExFailed | ExKilled => StNeedsAttention
    | ExCompleted | ExDropped => StIdle
    end in
  exists r db',
    setExecutionStatus now args db = inr (r, db')
    /\ se_status <$> sessions db' !! ep_sessionId process = Some image
    /\ ws_status <$> workspaces db' !! ep_workspaceId process = Some image
    /\ sesr_sessionStatus r = image.
Proof.
  intros Hp [session Hs] [workspace Hw] image.
  eexists _, _. split; [exact (setExecutionStatus_runs _ _ _ _ _ _ Hp Hs Hw)|].
  cbn. rewrite !list_lookup_insert_eq by eauto using lookup_lt_Some.
  subst image. destruct (ses_status args); repeat split.
Qed.

Lemma setExecutionStatus_projects_status_witness :
  exists r db',
    setExecutionStatus 10
      (mkSetExecutionStatusArgs 0 ExKilled (Some "cancelled by user"))
      (exampleDb ExRunning None) = inr (r, db')
    /\ se_status <$> sessions db' !! 0%nat = Some StNeedsAttention
    /\ ws_status <$> workspaces db' !! 0%nat = Some StNeedsAttention
    /\ sesr_sessionStatus r = StNeedsAttention.
Proof.
  apply (setExecutionStatus_projects_status 10
           (mkSetExecutionStatusArgs 0 ExKilled (Some "cancelled by user"))
           (exampleDb ExRunning None) (exampleExecution ExRunning None)).
  - reflexivity.
  - eexists; reflexivity.
  - eexists; reflexivity.
Defined.

(** A successful call found the execution, its session and its workspace. *)
Lemma setExecutionStatus_inv now args db r db' :
  setExecutionStatus now args db = inr (r, db') ->
  exists process session workspace,
    executionProcesses db !! ses_executionProcessId args = Some process
    /\ sessions db !! ep_sessionId process = Some session
    /\ workspaces db !! ep_workspaceId process = Some workspace
    /\ db' = setExecutionStatus_db now args process session workspace db.
Proof.
  intros Hrun.
  destruct (executionProcesses db !! ses_executionProcessId args)
    as [process|] eqn:Hp.
  2:{ unfold setExecutionStatus, bind, db_get, throw in Hrun. cbn in Hrun.
      rewrite Hp in Hrun. discriminate. }
  destruct (sessions db !! ep_sessionId process) as [session|] eqn:Hs.
  2:{ unfold setExecutionStatus, bind, db_get, db_patch in Hrun.
      cbn in Hrun. rewrite Hp in Hrun. cbn in Hrun. rewrite Hp in Hrun.
      cbn in Hrun. rewrite Hs in Hrun. discriminate. }
  destruct (workspaces db !! ep_workspaceId process) as [workspace|] eqn:Hw.
  2:{ unfold setExecutionStatus, bind, db_get, db_patch in Hrun.
      cbn in Hrun. rewrite Hp in Hrun. cbn in Hrun. rewrite Hp in Hrun.
      cbn in Hrun. rewrite Hs in Hrun. cbn in Hrun. rewrite Hw in Hrun.
      discriminate. }
  rewrite (setExecutionStatus_runs _ _ _ _ _ _ Hp Hs Hw) in Hrun.
  exists process, session, workspace. repeat split; congruence.
Qed.




(** C3, as the code has it.  Two calls in succession with the same
    execution and status leave the database as one call made at the time of
    the second call, with the second call's error message.  The status of
    the execution, of the session and of the workspace are as after the
    first call.  [updatedAt] of the execution, of the session and of the
    workspace, [lastUsedAt] of the session and, for a terminal status,
    [completedAt] carry the time of the first call after the first call and
    the time of the second call after the second; for a non-terminal
    status [completedAt] is what it was before both calls.  The error
    message is the one of the last call.  The second call changes nothing
    exactly when both calls read the same clock and pass the same
    message. *)
Theorem setExecutionStatus_twice now1 now2 id status e1 e2 db r1 db1 :
  setExecutionStatus now1 (mkSetExecutionStatusArgs id status e1) db
  = inr (r1, db1) ->
  setExecutionStatus now2 (mkSetExecutionStatusArgs id status e2) db1
  = setExecutionStatus now2 (mkSetExecutionStatusArgs id status e2) db
  /\ exists r2 db2 process,
      setExecutionStatus now2 (mkSetExecutionStatusArgs id status e2) db1
      = inr (r2, db2)
      /\ executionProcesses db !! id = Some process
      /\ ep_status <$> executionProcesses db2 !! id = Some status
      /\ ep_status <$> executionProcesses db1 !! id = Some status
      /\ se_status <$> sessions db2 !! ep_sessionId process
         = se_status <$> sessions db1 !! ep_sessionId process
      /\ ws_status <$> workspaces db2 !! ep_workspaceId process
         = ws_status <$> workspaces db1 !! ep_workspaceId process
      /\ ep_completedAt <$> executionProcesses db1 !! id
         = Some (if terminal status then Some now1
                 else ep_completedAt process)
      /\ ep_completedAt <$> executionProcesses db2 !! id
         = Some (if terminal status then Some now2
                 else ep_completedAt process)
      /\ ep_updatedAt <$> executionProcesses db1 !! id = Some now1
      /\ ep_updatedAt <$> executionProcesses db2 !! id = Some now2
      /\ ep_errorMessage <$> executionProcesses db1 !! id = Some e1
      /\ ep_errorMessage <$> executionProcesses db2 !! id = Some e2
      /\ se_lastUsedAt <$> sessions db1 !! ep_sessionId process = Some now1
      /\ se_lastUsedAt <$> sessions db2 !! ep_sessionId process = Some now2
      /\ se_updatedAt <$> sessions db1 !! ep_sessionId process = Some now1
      /\ se_updatedAt <$> sessions db2 !! ep_sessionId process = Some now2
      /\ ws_updatedAt <$> workspaces db1 !! ep_workspaceId process
         = Some now1
      /\ ws_updatedAt <$> workspaces db2 !! ep_workspaceId process
         = Some now2
      /\ (db2 = db1 <-> now2 = now1 /\ e2 = e1).
Proof.
  intros Hrun.
  destruct (setExecutionStatus_inv _ _ _ _ _ Hrun)
    as (process & session & workspace & Hp & Hs & Hw & ->).
  cbn in Hp, Hs, Hw.
  pose proof (lookup_lt_Some _ _ _ Hp) as Lp.
  pose proof (lookup_lt_Some _ _ _ Hs) as Ls.
  pose proof (lookup_lt_Some _ _ _ Hw) as Lw.
  set (a2 := mkSetExecutionStatusArgs id status e2).
  set (db1 := setExecutionStatus_db now1 _ process session workspace db).
  assert (Hsame : setExecutionStatus now2 a2 db1
                  = setExecutionStatus now2 a2 db).
  { rewrite (setExecutionStatus_runs now2 a2 db _ _ _ Hp Hs Hw).
    unfold setExecutionStatus, bind, db_get, db_patch, ret. subst db1. cbn.
    repeat (rewrite list_lookup_insert_eq by done; cbn).
    rewrite !list_insert_insert_eq. unfold setExecutionStatus_db. cbn.
    destruct (terminal status); reflexivity. }
  split; [exact Hsame|].
  rewrite Hsame, (setExecutionStatus_runs now2 a2 db _ _ _ Hp Hs Hw).
  eexists _, _, process. split; [reflexivity|]. split; [exact Hp|].
  subst db1. cbn. rewrite !list_lookup_insert_eq by done. cbn.
  do 16 (split; [reflexivity|]).
  split.
  - intros Heq.
    apply (f_equal (fun d => executionProcesses d !! id)) in Heq.
    cbn in Heq. rewrite !list_lookup_insert_eq in Heq by done.
    by injection Heq as _ -> ->.
  - intros [-> ->]. reflexivity.
Qed.

Lemma setExecutionStatus_twice_witness :
  let db := exampleDb ExRunning None in
  let args := mkSetExecutionStatusArgs 0 ExCompleted None in
  exists r1 db1,
    setExecutionStatus 10 args db = inr (r1, db1)
    /\ setExecutionStatus 20 args db1 = setExecutionStatus 20 args db.
Proof.
  cbn zeta. eexists _, _. split; [cbv; reflexivity|].
  refine (proj1 (setExecutionStatus_twice 10 20 0 ExCompleted None None
                   (exampleDb ExRunning None) _ _ _)).
  cbv; reflexivity.
Defined.

(** C3 fails on the code: the second of two identical calls moves
    [completedAt] from the time of the first call to its own. *)
Lemma setExecutionStatus_restamps_completedAt :
  let db := exampleDb ExRunning None in
  let args := mkSetExecutionStatusArgs 0 ExCompleted None in
  exists r1 db1 r2 db2,
    setExecutionStatus 10 args db = inr (r1, db1)
    /\ setExecutionStatus 20 args db1 = inr (r2, db2)
    /\ ep_completedAt <$> executionProcesses db1 !! 0%nat = Some (Some 10)
    /\ ep_completedAt <$> executionProcesses db2 !! 0%nat = Some (Some 20)
    /\ db2 <> db1.
Proof.
  cbn zeta. eexists _, _, _, _.
  split; [cbv; reflexivity|]. split; [cbv; reflexivity|].
  split; [reflexivity|]. split; [reflexivity|]. discriminate.
Qed.

(** ** [startExecution] *)

Lemma startExecution_cases now args db :
  startExecution now args db
  = match workspaces db !! sx_workspaceId args with
    | None => inl (WorkspaceNotFound (sx_workspaceId args))
    | Some workspace =>
      match sessions db !! sx_sessionId args with
      | None => inl (SessionNotFound (sx_sessionId args))
      | Some session =>
        inr ({| sxr_executionProcessId := length (executionProcesses db);
                sxr_startedAt := now |},
             startExecution_db now args session workspace db)
      end
    end.
Proof.
  unfold startExecution, bind, db_get, db_insert, db_patch, throw, ret. cbn.
  destruct (workspaces db !! sx_workspaceId args) as [workspace|] eqn:Hw;
    [|reflexivity].
  destruct (sessions db !! sx_sessionId args) as [session|] eqn:Hs;
    [|reflexivity].
  cbn. rewrite Hs. cbn. rewrite Hw. reflexivity.
Qed.

(** The execution that [startExecution] creates refers to documents that
    exist; no function of the store deletes a document. *)
Lemma startExecution_references_exist now args db r db' :
  startExecution now args db = inr (r, db') ->
  exists process,
    executionProcesses db' !! sxr_executionProcessId r = Some process
    /\ is_Some (sessions db' !! ep_sessionId process)
    /\ is_Some (workspaces db' !! ep_workspaceId process).
Proof.
  rewrite startExecution_cases.
  destruct (workspaces db !! sx_workspaceId args) as [workspace|] eqn:Hw;
    [|discriminate].
  destruct (sessions db !! sx_sessionId args) as [session|] eqn:Hs;
    [|discriminate].
  intros [= <- <-]. cbn.
  rewrite lookup_app_r, Nat.sub_diag by done. eexists. split; [reflexivity|].
  cbn. rewrite !list_lookup_insert_eq by eauto using lookup_lt_Some. eauto.
Qed.

(** C7. On an existing workspace and session [startExecution] succeeds: it
    appends one execution document, whose id it returns, with status
    running, [queuedFollowUpConsumed] false and [startedAt] the current
    time, and it sets the status of the session and of the workspace to
    running.  When the workspace or the session does not exist the call
    throws and the mutation commits nothing, so no execution is created. *)
Theorem startExecution_creates_running now args db :
  (is_Some (workspaces db !! sx_workspaceId args) ->
   is_Some (sessions db !! sx_sessionId args) ->
   exists r db' process,
     startExecution now args db = inr (r, db')
     /\ sxr_executionProcessId r = length (executionProcesses db)
     /\ sxr_startedAt r = now
     /\ executionProcesses db' = executionProcesses db ++ [process]
     /\ ep_status process = ExRunning
     /\ ep_queuedFollowUpConsumed process = false
     /\ ep_startedAt process = now
     /\ ep_workspaceId process = sx_workspaceId args
     /\ ep_sessionId process = sx_sessionId args
     /\ se_status <$> sessions db' !! sx_sessionId args = Some StRunning
     /\ ws_status <$> workspaces db' !! sx_workspaceId args = Some StRunning)
  /\ (workspaces db !! sx_workspaceId args = None
      \/ sessions db !! sx_sessionId args = None ->
      exists e,
        startExecution now args db = inl e
        /\ runMutation (startExecution now args) db = (db, inl e)).
Proof.
  split.
  - intros [workspace Hw] [session Hs].
    eexists _, _, _. rewrite startExecution_cases, Hw, Hs.
    split; [reflexivity|]. cbn.
    rewrite !list_lookup_insert_eq by eauto using lookup_lt_Some.
    repeat split.
  - intros Hmissing. unfold runMutation.
    rewrite startExecution_cases.
    destruct (workspaces db !! sx_workspaceId args); [|by eauto].
    destruct Hmissing as [|Hs]; [done|]. rewrite Hs. by eauto.
Qed.

Lemma startExecution_creates_running_witness :
  (exists r db' process,
     startExecution 10 (mkStartExecutionArgs 0 1 RrSetup None)
       (exampleDb ExCompleted (Some 5)) = inr (r, db')
     /\ sxr_executionProcessId r = 1%nat
     /\ sxr_startedAt r = 10
     /\ executionProcesses db'
        = [exampleExecution ExCompleted (Some 5); process]
     /\ ep_status process = ExRunning
     /\ ep_queuedFollowUpConsumed process = false
     /\ ep_startedAt process = 10
     /\ ep_workspaceId process = 0%nat
     /\ ep_sessionId process = 1%nat
     /\ se_status <$> sessions db' !! 1%nat = Some StRunning
     /\ ws_status <$> workspaces db' !! 0%nat = Some StRunning)
  /\ (exists e,
        startExecution 10 (mkStartExecutionArgs 0 7 RrSetup None)
          (exampleDb ExCompleted (Some 5)) = inl e
        /\ runMutation
             (startExecution 10 (mkStartExecutionArgs 0 7 RrSetup None))
             (exampleDb ExCompleted (Some 5))
           = (exampleDb ExCompleted (Some 5), inl e)).
Proof.
  split.
  - apply (proj1 (startExecution_creates_running 10
                    (mkStartExecutionArgs 0 1 RrSetup None)
                    (exampleDb ExCompleted (Some 5)))).
    + eexists; reflexivity.
    + eexists; reflexivity.
  - apply (proj2 (startExecution_creates_running 10
                    (mkStartExecutionArgs 0 7 RrSetup None)
                    (exampleDb ExCompleted (Some 5)))).
    right. reflexivity.
Defined.

(** C9. Every successful [startExecution] makes the session it was started
    in the active session of the workspace, whichever session was active
    before. *)
Theorem startExecution_sets_active_session now args db r db' :
  startExecution now args db = inr (r, db') ->
  ws_activeSessionId <$> workspaces db' !! sx_workspaceId args
  = Some (Some (sx_sessionId args)).
Proof.
  rewrite startExecution_cases.
  destruct (workspaces db !! sx_workspaceId args) as [workspace|] eqn:Hw;
    [|discriminate].
  destruct (sessions db !! sx_sessionId args) as [session|]; [|discriminate].
  intros [= _ <-]. cbn.
  by rewrite list_lookup_insert_eq by eauto using lookup_lt_Some.
Qed.

Lemma startExecution_sets_active_session_witness :
  let db := exampleDb ExCompleted (Some 5) in
  ws_activeSessionId <$> workspaces db !! 0%nat = Some (Some 0%nat)
  /\ exists r db',
      startExecution 10 (mkStartExecutionArgs 0 1 RrCodingAgent None) db
      = inr (r, db')
      /\ ws_activeSessionId <$> workspaces db' !! 0%nat = Some (Some 1%nat).
Proof.
  cbn zeta. split; [reflexivity|].
  eexists _, _. split; [cbv; reflexivity|].
  apply (startExecution_sets_active_session 10
           (mkStartExecutionArgs 0 1 RrCodingAgent None)
           (exampleDb ExCompleted (Some 5))
           (mkStartExecutionResult 1 10)).
  reflexivity.
Defined.

(** ** Index queries over a table *)

Section index_queries.
Context {A : Type} (P : A -> Prop) `{!forall a, Decision (P a)}.

Implicit Types (l : list A) (matches : list (Id * A)).

Lemma greatest_None key matches :
  greatest key matches = None <-> matches = [].
Proof.
  destruct matches as [|d later]; cbn; [done|].
  destruct (greatest key later) as [d'|]; [|done].
  by destruct (key d'.2 <? key d.2).
Qed.

Lemma greatest_elem key matches d :
  greatest key matches = Some d -> d ∈ matches.
Proof.
  revert d. induction matches as [|d0 later IH]; intros d; cbn; [done|].
  destruct (greatest key later) as [d'|].
  - destruct (key d'.2 <? key d0.2); intros [= <-].
    + apply list_elem_of_here.
    + apply list_elem_of_further. by apply IH.
  - intros [= <-]. apply list_elem_of_here.
Qed.

(** The matches of an index range are the documents that satisfy it, each
    with its position. *)
Lemma matches_elem l i a :
  (i, a) ∈ filter (fun d => P d.2) (imap pair l) <-> l !! i = Some a /\ P a.
Proof.
  rewrite list_elem_of_filter, elem_of_lookup_imap. cbn. split.
  - intros (HP & j & b & [= -> ->] & Hl). done.
  - intros [Hl HP]. split; [done|]. by exists i, a.
Qed.

Lemma matches_nil l :
  filter (fun d => P d.2) (imap pair l) = [] <-> forall a, a ∈ l -> ~ P a.
Proof.
  split.
  - intros Hnil a Ha HP.
    apply list_elem_of_lookup in Ha as [i Hi].
    assert (Hin : (i, a) ∈ filter (fun d => P d.2) (imap pair l))
      by by apply matches_elem.
    rewrite Hnil in Hin. by apply not_elem_of_nil in Hin.
  - intros Hno.
    destruct (filter (fun d => P d.2) (imap pair l)) as [|[i a] rest] eqn:E;
      [done|].
    assert (Hin : (i, a) ∈ filter (fun d => P d.2) (imap pair l))
      by (rewrite E; apply list_elem_of_here).
    apply matches_elem in Hin as [Hl HP].
    exfalso. eapply Hno; [|exact HP]. by eapply list_elem_of_lookup_2.
Qed.

Lemma matches_length_gen (g : nat -> Id) l :
  length (filter (fun d => P d.2) (imap (fun i a => (g i, a)) l))
  = length (filter P l).
Proof.
  revert g. induction l as [|a l IH]; intros g; [done|].
  rewrite imap_cons, !filter_cons. cbn.
  specialize (IH (g ∘ S)). cbn in IH.
  destruct (decide (P a)); cbn; by rewrite <- IH.
Qed.

Lemma matches_length l :
  length (filter (fun d => P d.2) (imap pair l)) = length (filter P l).
Proof. apply (matches_length_gen id). Qed.

Lemma count_zero l :
  length (filter P l) = 0%nat <-> forall a, a ∈ l -> ~ P a.
Proof.
  rewrite <- matches_length, length_zero_iff_nil. apply matches_nil.
Qed.

Lemma count_snoc l b :
  length (filter P (l ++ [b]))
  = (length (filter P l) + (if decide (P b) then 1 else 0))%nat.
Proof.
  rewrite filter_app, length_app, filter_cons, filter_nil.
  by destruct (decide (P b)).
Qed.

Lemma count_insert l i a b :
  l !! i = Some a ->
  (length (filter P (<[i:=b]> l)) + (if decide (P a) then 1 else 0)
   = length (filter P l) + (if decide (P b) then 1 else 0))%nat.
Proof.
  intros Hl.
  rewrite insert_take_drop by eauto using lookup_lt_Some.
  rewrite <- (take_drop_middle l i a Hl) at 3.
  rewrite !filter_app, !length_app, !filter_cons.
  destruct (decide (P a)), (decide (P b)); cbn; lia.
Qed.

(** With at most one match, a match is the match. *)
Lemma count_le1_unique l i j a b :
  (length (filter P l) <= 1)%nat ->
  l !! i = Some a -> P a -> l !! j = Some b -> P b -> i = j.
Proof.
  revert i j. induction l as [|c l IH]; intros i j Hle Hi Ha Hj Hb; [done|].
  rewrite filter_cons in Hle.
  destruct i as [|i], j as [|j]; cbn in Hi, Hj; [done| | |].
  - injection Hi as ->. rewrite decide_True in Hle by done. cbn in Hle.
    assert (Hz : length (filter P l) = 0%nat) by lia.
    exfalso. eapply count_zero; [exact Hz| |exact Hb].
    by eapply list_elem_of_lookup_2.
  - injection Hj as ->. rewrite decide_True in Hle by done. cbn in Hle.
    assert (Hz : length (filter P l) = 0%nat) by lia.
    exfalso. eapply count_zero; [exact Hz| |exact Ha].
    by eapply list_elem_of_lookup_2.
  - f_equal. apply IH; try done.
    destruct (decide (P c)); cbn in Hle; lia.
Qed.
End index_queries.

(** ** The follow-up queue *)

Lemma firstQueued_row sessionId db :
  firstQueued sessionId db
  = inr (firstQueuedRow sessionId (queuedMessages db), db).
Proof. reflexivity. Qed.

Lemma firstQueuedRow_None sessionId l :
  firstQueuedRow sessionId l = None
  <-> forall m, m ∈ l -> ~ queuedOf sessionId m.
Proof.
  unfold firstQueuedRow. rewrite greatest_None.
  apply (matches_nil (queuedOf sessionId)).
Qed.

Lemma firstQueuedRow_Some sessionId l i m :
  firstQueuedRow sessionId l = Some (i, m) ->
  l !! i = Some m /\ queuedOf sessionId m.
Proof.
  intros Hg. apply greatest_elem in Hg.
  by apply (matches_elem (queuedOf sessionId)) in Hg.
Qed.

(** With at most one queued row, the query finds that row. *)
Lemma firstQueuedRow_the sessionId l i m :
  (length (filter (queuedOf sessionId) l) <= 1)%nat ->
  l !! i = Some m -> queuedOf sessionId m ->
  firstQueuedRow sessionId l = Some (i, m).
Proof.
  intros Hle Hl Hq.
  destruct (firstQueuedRow sessionId l) as [[j m']|] eqn:E.
  - apply firstQueuedRow_Some in E as [Hl' Hq'].
    assert (j = i) as -> by by eapply (count_le1_unique (queuedOf sessionId)).
    congruence.
  - exfalso. eapply firstQueuedRow_None; [exact E| |exact Hq].
    by eapply list_elem_of_lookup_2.
Qed.

Lemma enqueueFollowUp_cases now args db :
  enqueueFollowUp now args db
  = match firstQueuedRow (ef_sessionId args) (queuedMessages db) with
    | Some (i, m) =>
      inr ({| efr_queuedMessageId := i;
              efr_queuedAt := now;
              efr_state := QQueued |},
           setRows queuedMessagesT
             (<[i := overwriteQueued now args m]> (queuedMessages db)) db)
    | None =>
      inr ({| efr_queuedMessageId := length (queuedMessages db);
              efr_queuedAt := now;
              efr_state := QQueued |},
           setRows queuedMessagesT
             (queuedMessages db ++ [newQueued now args]) db)
    end.
Proof.
  unfold enqueueFollowUp, bind. rewrite firstQueued_row.
  destruct (firstQueuedRow _ _) as [[i m]|] eqn:E; [|reflexivity].
  apply firstQueuedRow_Some in E as [Hl _].
  unfold db_patch, ret. cbn. by rewrite Hl.
Qed.

Lemma consumeQueuedMessage_cases now sessionId db :
  consumeQueuedMessage now sessionId db
  = match firstQueuedRow sessionId (queuedMessages db) with
    | Some (i, m) =>
      inr (StatusConsumed (payloadOf i m),
           setRows queuedMessagesT
             (<[i := markConsumed now m]> (queuedMessages db)) db)
    | None => inr (StatusEmpty, db)
    end.
Proof.
  unfold consumeQueuedMessage, bind. rewrite firstQueued_row.
  destruct (firstQueuedRow _ _) as [[i m]|] eqn:E; [|reflexivity].
  apply firstQueuedRow_Some in E as [Hl _].
  unfold db_patch, ret. cbn. by rewrite Hl.
Qed.

Lemma discardQueuedMessage_cases now sessionId db :
  discardQueuedMessage now sessionId db
  = match firstQueuedRow sessionId (queuedMessages db) with
    | Some (i, m) =>
      inr (StatusEmpty,
           setRows queuedMessagesT
             (<[i := markDiscarded now m]> (queuedMessages db)) db)
    | None => inr (StatusEmpty, db)
    end.
Proof.
  unfold discardQueuedMessage, bind. rewrite firstQueued_row.
  destruct (firstQueuedRow _ _) as [[i m]|] eqn:E; [|reflexivity].
  apply firstQueuedRow_Some in E as [Hl _].
  unfold db_patch, ret. cbn. by rewrite Hl.
Qed.

Lemma getQueueStatus_cases sessionId db :
  getQueueStatus sessionId db
  = match firstQueuedRow sessionId (queuedMessages db) with
    | Some (i, m) => inr (StatusQueued (payloadOf i m), db)
    | None => inr (StatusEmpty, db)
    end.
Proof.
  unfold getQueueStatus, bind. rewrite firstQueued_row.
  by destruct (firstQueuedRow _ _) as [[i m]|].
Qed.

Lemma overwriteQueued_queuedOf sessionId now args m :
  queuedOf sessionId (overwriteQueued now args m) <-> queuedOf sessionId m.
Proof. reflexivity. Qed.

(** One queue mutation keeps a session at no more than one queued row. *)
Lemma applyQueueOp_at_most_one sessionId db op :
  (queuedCount sessionId db <= 1)%nat ->
  (queuedCount sessionId (applyQueueOp db op) <= 1)%nat.
Proof.
  unfold queuedCount. intros Hle.
  destruct op as [now args|now sid|now sid]; unfold applyQueueOp, runMutation.
  - rewrite enqueueFollowUp_cases.
    destruct (firstQueuedRow _ _) as [[i m]|] eqn:E; cbn.
    + apply firstQueuedRow_Some in E as [Hl _].
      pose proof (count_insert (queuedOf sessionId) _ _ _
                    (overwriteQueued now args m) Hl) as Hc.
      rewrite (decide_ext _ _ _ _ (overwriteQueued_queuedOf _ now args m))
        in Hc. lia.
    + rewrite (count_snoc (queuedOf sessionId)).
      destruct (decide (queuedOf sessionId (newQueued now args)))
        as [[Hsid _]|]; [|lia].
      cbn in Hsid. subst sessionId.
      pose proof (proj1 (firstQueuedRow_None _ _) E) as Hno.
      pose proof (proj2 (count_zero (queuedOf _) _) Hno) as Hz. lia.
  - rewrite consumeQueuedMessage_cases.
    destruct (firstQueuedRow _ _) as [[i m]|] eqn:E; cbn; [|done].
    apply firstQueuedRow_Some in E as [Hl _].
    pose proof (count_insert (queuedOf sessionId) _ _ _
                  (markConsumed now m) Hl) as Hc.
    destruct (decide (queuedOf sessionId (markConsumed now m)))
      as [[_ Hst]|]; [discriminate|].
    destruct (decide (queuedOf sessionId m)); lia.
  - rewrite discardQueuedMessage_cases.
    destruct (firstQueuedRow _ _) as [[i m]|] eqn:E; cbn; [|done].
    apply firstQueuedRow_Some in E as [Hl _].
    pose proof (count_insert (queuedOf sessionId) _ _ _
                  (markDiscarded now m) Hl) as Hc.
    destruct (decide (queuedOf sessionId (markDiscarded now m)))
      as [[_ Hst]|]; [discriminate|].
    destruct (decide (queuedOf sessionId m)); lia.
Qed.

Lemma applyQueueOps_at_most_one sessionId ops db :
  (queuedCount sessionId db <= 1)%nat ->
  (queuedCount sessionId (applyQueueOps ops db) <= 1)%nat.
Proof.
  unfold applyQueueOps. revert db.
  induction ops as [|op ops IH]; intros db Hle; [done|].
  cbn. by apply IH, applyQueueOp_at_most_one.
Qed.

(** C4. From a database without any queued-message row of a session, after
    any sequence of [enqueueFollowUp], [consumeQueuedMessage] and
    [discardQueuedMessage] mutations, on this and on other sessions and at
    any clock readings, the session has at most one row in state queued. *)
Theorem at_most_one_queued_per_session sessionId db ops :
  (forall m, m ∈ queuedMessages db -> qm_sessionId m <> sessionId) ->
  (queuedCount sessionId (applyQueueOps ops db) <= 1)%nat.
Proof.
  intros Hnone. apply applyQueueOps_at_most_one.
  assert (Hz : queuedCount sessionId db = 0%nat); [|lia].
  apply (count_zero (queuedOf sessionId)).
  intros m Hm [Hsid _]. by apply (Hnone m).
Qed.

Lemma at_most_one_queued_per_session_witness :
  (queuedCount 0
     (applyQueueOps
        [OpEnqueue 10 (mkEnqueueFollowUpArgs 0 "also update README" None
                         None None);
         OpEnqueue 11 (mkEnqueueFollowUpArgs 1 "other session" None None
                         None);
         OpEnqueue 12 (mkEnqueueFollowUpArgs 0 "and bump version" None None
                         None);
         OpConsume 13 0;
         OpDiscard 14 0;
         OpEnqueue 15 (mkEnqueueFollowUpArgs 0 "again" None None None)]
        emptyDb) <= 1)%nat.
Proof.
  apply (at_most_one_queued_per_session 0 emptyDb).
  intros m Hm. inversion Hm.
Defined.

(** What [enqueueFollowUp] does on a session with at most one queued row. *)
Lemma enqueueFollowUp_post now args db :
  (queuedCount (ef_sessionId args) db <= 1)%nat ->
  exists i m' db',
    enqueueFollowUp now args db
    = inr ({| efr_queuedMessageId := i; efr_queuedAt := now;
              efr_state := QQueued |}, db')
    /\ queuedMessages db' !! i = Some m'
    /\ queuedOf (ef_sessionId args) m'
    /\ qm_message m' = ef_message args
    /\ qm_executor m' = ef_executor args
    /\ qm_variant m' = ef_variant args
    /\ qm_enqueueingProcessId m' = ef_enqueueingProcessId args
    /\ qm_queuedAt m' = now
    /\ queuedCount (ef_sessionId args) db' = 1%nat
    /\ (forall j, j <> i -> queuedMessages db' !! j = queuedMessages db !! j)
    /\ (forall i0 m0,
          queuedMessages db !! i0 = Some m0 ->
          queuedOf (ef_sessionId args) m0 ->
          i = i0
          /\ length (queuedMessages db') = length (queuedMessages db)
          /\ m' = overwriteQueued now args m0)
    /\ ((forall m, m ∈ queuedMessages db -> ~ queuedOf (ef_sessionId args) m)
        -> i = length (queuedMessages db)
           /\ queuedMessages db' = queuedMessages db ++ [newQueued now args]).
Proof.
  intros Hle.
  pose proof (applyQueueOp_at_most_one _ db (OpEnqueue now args) Hle) as Hle'.
  unfold applyQueueOp, runMutation in Hle'.
  rewrite enqueueFollowUp_cases in *.
  assert (Hone : forall db' i m',
             (queuedCount (ef_sessionId args) db' <= 1)%nat ->
             queuedMessages db' !! i = Some m' ->
             queuedOf (ef_sessionId args) m' ->
             queuedCount (ef_sessionId args) db' = 1%nat).
  { intros db' i m' Hc Hl Hq.
    destruct (decide (queuedCount (ef_sessionId args) db' = 0%nat)) as [Hz|];
      [|lia].
    exfalso. eapply (count_zero (queuedOf (ef_sessionId args))); [exact Hz| |exact Hq].
    by eapply list_elem_of_lookup_2. }
  destruct (firstQueuedRow _ _) as [[i m]|] eqn:E.
  - destruct (firstQueuedRow_Some _ _ _ _ E) as [Hl Hq].
    pose proof (lookup_lt_Some _ _ _ Hl) as Hlt.
    exists i, (overwriteQueued now args m),
      (setRows queuedMessagesT
         (<[i:=overwriteQueued now args m]> (queuedMessages db)) db).
    split; [reflexivity|]. cbn [queuedMessages setRows queuedMessagesT] in *.
    rewrite list_lookup_insert_eq by done.
    split; [reflexivity|]. split; [exact Hq|]. do 5 (split; [reflexivity|]).
    split; [|split; [|split]].
    + eapply (Hone (setRows queuedMessagesT _ db) i
                (overwriteQueued now args m)); [exact Hle'| |exact Hq].
      cbn. by rewrite list_lookup_insert_eq.
    + intros j Hj. by rewrite list_lookup_insert_ne.
    + intros i0 m0 Hl0 Hq0.
      assert (i = i0) as <-
          by (eapply (count_le1_unique (queuedOf (ef_sessionId args))
                        (queuedMessages db));
              [exact Hle|exact Hl|exact Hq|exact Hl0|exact Hq0]).
      rewrite length_insert. split; [done|]. split; [done|]. congruence.
    + intros Hno. exfalso. eapply Hno; [|exact Hq].
      by eapply list_elem_of_lookup_2.
  - pose proof (proj1 (firstQueuedRow_None _ _) E) as Hno.
    exists (length (queuedMessages db)), (newQueued now args),
      (setRows queuedMessagesT (queuedMessages db ++ [newQueued now args]) db).
    split; [reflexivity|]. cbn [queuedMessages setRows queuedMessagesT] in *.
    rewrite lookup_app_r, Nat.sub_diag by done. cbn [lookup list_lookup].
    split; [reflexivity|]. split; [done|]. do 5 (split; [reflexivity|]).
    split; [|split; [|split]].
    + eapply (Hone (setRows queuedMessagesT _ db)
                (length (queuedMessages db)) (newQueued now args));
        [exact Hle'| |split; reflexivity].
      cbn. by rewrite lookup_app_r, Nat.sub_diag.
    + intros j Hj. destruct (decide (j < length (queuedMessages db))%nat).
      * by rewrite lookup_app_l.
      * rewrite !lookup_ge_None_2; [done|lia|].
        rewrite length_app. cbn. lia.
    + intros i0 m0 Hl0 Hq0. exfalso. eapply Hno; [|exact Hq0].
      by eapply list_elem_of_lookup_2.
    + done.
Qed.

(** C5. On a session with at most one queued row: when a row is queued,
    [enqueueFollowUp] overwrites the message, executor, variant and
    enqueueing process of that row, sets its [queuedAt] to the current time,
    returns its id and inserts nothing; when none is queued it appends a new
    row in state queued.  Hence after two calls for the same session
    [getQueueStatus] reports a queued message with the text of the second
    call, in the row that the first call returned, and the session has
    exactly one queued row. *)
Theorem enqueueFollowUp_overwrites now args db :
  (queuedCount (ef_sessionId args) db <= 1)%nat ->
  (forall i m,
     queuedMessages db !! i = Some m -> queuedOf (ef_sessionId args) m ->
     exists db' m',
       enqueueFollowUp now args db
       = inr ({| efr_queuedMessageId := i; efr_queuedAt := now;
                 efr_state := QQueued |}, db')
       /\ length (queuedMessages db') = length (queuedMessages db)
       /\ queuedMessages db' !! i = Some m'
       /\ qm_message m' = ef_message args
       /\ qm_executor m' = ef_executor args
       /\ qm_variant m' = ef_variant args
       /\ qm_enqueueingProcessId m' = ef_enqueueingProcessId args
       /\ qm_queuedAt m' = now
       /\ qm_state m' = QQueued
       /\ qm_sessionId m' = ef_sessionId args
       /\ (forall j, j <> i ->
                     queuedMessages db' !! j = queuedMessages db !! j))
  /\ ((forall m, m ∈ queuedMessages db -> ~ queuedOf (ef_sessionId args) m) ->
      exists db' m',
        enqueueFollowUp now args db
        = inr ({| efr_queuedMessageId := length (queuedMessages db);
                  efr_queuedAt := now; efr_state := QQueued |}, db')
        /\ queuedMessages db' = queuedMessages db ++ [m']
        /\ qm_state m' = QQueued
        /\ qm_sessionId m' = ef_sessionId args
        /\ qm_message m' = ef_message args
        /\ qm_queuedAt m' = now)
  /\ (forall now2 args2,
        ef_sessionId args2 = ef_sessionId args ->
        exists r1 db1 r2 db2 p,
          enqueueFollowUp now args db = inr (r1, db1)
          /\ enqueueFollowUp now2 args2 db1 = inr (r2, db2)
          /\ efr_queuedMessageId r2 = efr_queuedMessageId r1
          /\ getQueueStatus (ef_sessionId args) db2
             = inr (StatusQueued p, db2)
          /\ qp_queuedMessageId p = efr_queuedMessageId r1
          /\ qp_message p = ef_message args2
          /\ queuedCount (ef_sessionId args) db2 = 1%nat).
Proof.
  intros Hle.
  destruct (enqueueFollowUp_post now args db Hle)
    as (i1 & m1 & db1 & Hrun1 & Hl1 & Hq1 & Hmsg1 & Hex1 & Hvar1 & Hproc1
        & Hat1 & Hc1 & Hframe1 & Hsome1 & Hnone1).
  split; [|split].
  - intros i m Hl Hq.
    destruct (Hsome1 i m Hl Hq) as (-> & Hlen & _).
    exists db1, m1. destruct Hq1 as [Hsid Hst]. repeat split; done.
  - intros Hno. destruct (Hnone1 Hno) as [-> Hrows].
    exists db1, (newQueued now args). repeat split; done.
  - intros now2 args2 Hsid.
    assert (Hle1 : (queuedCount (ef_sessionId args2) db1 <= 1)%nat)
      by (rewrite Hsid; lia).
    destruct (enqueueFollowUp_post now2 args2 db1 Hle1)
      as (i2 & m2 & db2 & Hrun2 & Hl2 & Hq2 & Hmsg2 & _ & _ & _
          & _ & Hc2 & _ & Hsome2 & _).
    rewrite Hsid in *.
    destruct (Hsome2 i1 m1 Hl1 Hq1) as (-> & _ & _).
    eexists _, db1, _, db2, (payloadOf i1 m2).
    split; [exact Hrun1|]. split; [exact Hrun2|]. split; [reflexivity|].
    split; [|by repeat split].
    rewrite getQueueStatus_cases.
    rewrite (firstQueuedRow_the _ _ i1 m2); [done| |done|done].
    unfold queuedCount in Hc2. lia.
Qed.

Lemma enqueueFollowUp_overwrites_witness :
  let a1 := mkEnqueueFollowUpArgs 0 "also update README" None None None in
  let a2 := mkEnqueueFollowUpArgs 0 "and bump version" None None None in
  exists r1 db1 r2 db2 p,
    enqueueFollowUp 10 a1 exampleQueueDb = inr (r1, db1)
    /\ enqueueFollowUp 12 a2 db1 = inr (r2, db2)
    /\ efr_queuedMessageId r2 = efr_queuedMessageId r1
    /\ getQueueStatus 0 db2 = inr (StatusQueued p, db2)
    /\ qp_queuedMessageId p = efr_queuedMessageId r1
    /\ qp_message p = "and bump version"
    /\ queuedCount 0 db2 = 1%nat.
Proof.
  cbn zeta.
  refine (proj2 (proj2 (enqueueFollowUp_overwrites 10
            (mkEnqueueFollowUpArgs 0 "also update README" None None None)
            exampleQueueDb _)) 12
            (mkEnqueueFollowUpArgs 0 "and bump version" None None None) _).
  - vm_compute. lia.
  - reflexivity.
Defined.

(** C10. On a session without a row in state queued, both
    [consumeQueuedMessage] and [discardQueuedMessage] return the status
    empty, do not throw, and leave the database as it is. *)
Theorem consume_and_discard_on_empty now sessionId db :
  (forall m, m ∈ queuedMessages db -> ~ queuedOf sessionId m) ->
  consumeQueuedMessage now sessionId db = inr (StatusEmpty, db)
  /\ discardQueuedMessage now sessionId db = inr (StatusEmpty, db)
  /\ runMutation (consumeQueuedMessage now sessionId) db
     = (db, inr StatusEmpty)
  /\ runMutation (discardQueuedMessage now sessionId) db
     = (db, inr StatusEmpty).
Proof.
  intros Hno. apply firstQueuedRow_None in Hno. unfold runMutation.
  by rewrite consumeQueuedMessage_cases, discardQueuedMessage_cases, Hno.
Qed.

Lemma consume_and_discard_on_empty_witness :
  consumeQueuedMessage 20 0 exampleQueueDb = inr (StatusEmpty, exampleQueueDb)
  /\ discardQueuedMessage 20 0 exampleQueueDb
     = inr (StatusEmpty, exampleQueueDb)
  /\ runMutation (consumeQueuedMessage 20 0) exampleQueueDb
     = (exampleQueueDb, inr StatusEmpty)
  /\ runMutation (discardQueuedMessage 20 0) exampleQueueDb
     = (exampleQueueDb, inr StatusEmpty).
Proof.
  apply (consume_and_discard_on_empty 20 0 exampleQueueDb).
  intros m Hm [Hsid Hst]. cbn in Hm.
  rewrite !elem_of_cons in Hm.
  destruct Hm as [->|[->|Hm]]; [discriminate Hst|discriminate Hsid|].
  inversion Hm.
Defined.

(** ** [createWorkspace] *)

Lemma insertWorkspaceRepos_runs now workspaceId repos :
  forall index workspaceRepoIds db,
    insertWorkspaceRepos now workspaceId index repos workspaceRepoIds db
    = inr (workspaceRepoIds
             ++ seq (length (workspaceRepos db)) (length repos),
           setRows workspaceReposT
             (workspaceRepos db
                ++ imap (fun k => workspaceRepoDoc now workspaceId (index + k))
                     repos) db).
Proof.
  induction repos as [|repo rest IH]; intros index ids db.
  - cbn. unfold ret. rewrite !app_nil_r. by destruct db.
  - cbn [insertWorkspaceRepos]. unfold bind, db_insert.
    cbn [rows setRows workspaceReposT]. rewrite IH.
    cbn [workspaceRepos setRows workspaceReposT workspaces sessions
           executionProcesses executionProcessRepoStates queuedMessages].
    rewrite length_app, <- !app_assoc. cbn [length app seq].
    rewrite Nat.add_1_r, imap_cons, Nat.add_0_r. do 5 f_equal.
    apply imap_ext. intros k repo' _. cbn. f_equal. lia.
Qed.

Lemma createWorkspace_runs now args db :
  cw_repos args <> [] ->
  let workspaceId := length (workspaces db) in
  let sessionId := length (sessions db) in
  let workspaceRepoIds :=
    seq (length (workspaceRepos db)) (length (cw_repos args)) in
  createWorkspace now args db
  = inr ({| cwr_workspaceId := workspaceId;
            cwr_sessionId := sessionId;
            cwr_workspaceRepoIds := workspaceRepoIds |},
         {| workspaces :=
              workspaces db
                ++ [createdWorkspace now args sessionId workspaceRepoIds];
            workspaceRepos :=
              workspaceRepos db
                ++ imap (workspaceRepoDoc now workspaceId) (cw_repos args);
            sessions := sessions db ++ [createdSession now args workspaceId];
            executionProcesses := executionProcesses db;
            executionProcessRepoStates := executionProcessRepoStates db;
            queuedMessages := queuedMessages db |}).
Proof.
  intros Hrepos. cbn zeta. unfold createWorkspace.
  rewrite bool_decide_eq_false_2
    by (destruct (cw_repos args); [done|discriminate]).
  unfold bind at 1. unfold db_insert at 1. cbn [rows setRows workspacesT].
  unfold bind at 1. rewrite insertWorkspaceRepos_runs.
  unfold bind, db_insert, db_patch, ret.
  cbn [rows setRows workspacesT workspaceReposT sessionsT workspaces sessions
         workspaceRepos executionProcesses executionProcessRepoStates
         queuedMessages app].
  rewrite lookup_app_r, Nat.sub_diag by done. cbn [lookup list_lookup].
  rewrite insert_app_r_alt, Nat.sub_diag by done. reflexivity.
Qed.

(** C6. With a list of N repositories, N not zero, [createWorkspace]
    succeeds and appends exactly one workspace, N workspace-repos and one
    session, and touches nothing else; the new workspace points to the new
    session as its active session and to the first of the new repositories
    as its active repository.  With an empty list the handler throws and
    the mutation commits nothing. *)
Theorem createWorkspace_inserts now args db :
  (cw_repos args <> [] ->
   exists r db' workspace session repos,
     createWorkspace now args db = inr (r, db')
     /\ workspaces db' = workspaces db ++ [workspace]
     /\ workspaceRepos db' = workspaceRepos db ++ repos
     /\ length repos = length (cw_repos args)
     /\ sessions db' = sessions db ++ [session]
     /\ executionProcesses db' = executionProcesses db
     /\ executionProcessRepoStates db' = executionProcessRepoStates db
     /\ queuedMessages db' = queuedMessages db
     /\ cwr_workspaceId r = length (workspaces db)
     /\ cwr_sessionId r = length (sessions db)
     /\ cwr_workspaceRepoIds r
        = seq (length (workspaceRepos db)) (length (cw_repos args))
     /\ ws_activeSessionId workspace = Some (cwr_sessionId r)
     /\ ws_activeWorkspaceRepoId workspace
        = Some (length (workspaceRepos db))
     /\ length (workspaceRepos db) ∈ cwr_workspaceRepoIds r
     /\ se_workspaceId session = cwr_workspaceId r
     /\ Forall (fun repo => wr_workspaceId repo = cwr_workspaceId r) repos)
  /\ (cw_repos args = [] ->
      createWorkspace now args db = inl WorkspaceWithoutRepository
      /\ runMutation (createWorkspace now args) db
         = (db, inl WorkspaceWithoutRepository)).
Proof.
  split.
  - intros Hrepos. eexists _, _, _, _, _.
    split; [exact (createWorkspace_runs now args db Hrepos)|].
    cbn. split; [reflexivity|]. split; [reflexivity|].
    split; [by rewrite length_imap|]. do 8 (split; [reflexivity|]).
    destruct (cw_repos args) as [|repo rest]; [done|]. cbn [length seq].
    split; [reflexivity|]. split; [apply list_elem_of_here|].
    split; [reflexivity|].
    apply Forall_forall. intros doc Hdoc.
    apply elem_of_lookup_imap in Hdoc as (k & repo' & -> & _). reflexivity.
  - intros Hrepos. unfold runMutation, createWorkspace. by rewrite Hrepos.
Qed.

Lemma createWorkspace_inserts_witness :
  let repos :=
    [mkWorkspaceInput "repo_app" "app" "main" None None;
     mkWorkspaceInput "repo_docs" "docs" "main" (Some false) (Some 7)] in
  let args repos :=
    mkCreateWorkspaceArgs "user_1" None None "W2" "feat/y" repos None in
  let db := exampleDb ExRunning None in
  (exists r db',
     createWorkspace 10 (args repos) db = inr (r, db')
     /\ length (workspaces db') = 2%nat
     /\ length (workspaceRepos db') = 3%nat
     /\ length (sessions db') = 3%nat
     /\ ws_activeSessionId <$> workspaces db' !! 1%nat = Some (Some 2%nat)
     /\ ws_activeWorkspaceRepoId <$> workspaces db' !! 1%nat
        = Some (Some 1%nat))
  /\ runMutation (createWorkspace 10 (args [])) db
     = (db, inl WorkspaceWithoutRepository).
Proof.
  cbn zeta. split.
  - destruct (proj1 (createWorkspace_inserts 10
                (mkCreateWorkspaceArgs "user_1" None None "W2" "feat/y"
                   [mkWorkspaceInput "repo_app" "app" "main" None None;
                    mkWorkspaceInput "repo_docs" "docs" "main" (Some false)
                      (Some 7)] None)
                (exampleDb ExRunning None)) ltac:(discriminate))
      as (r & db' & workspace & session & repos & Hrun & Hws & Hrepos & Hlen
          & Hse & _ & _ & _ & _ & Hsid & _ & Hactive & Hrepo & _).
    exists r, db'. split; [exact Hrun|].
    rewrite Hws, Hrepos, Hse, !length_app, Hlen, Hsid in *.
    repeat split. all: cbn; by rewrite ?Hactive, ?Hrepo.
  - apply (proj2 (createWorkspace_inserts 10
                    (mkCreateWorkspaceArgs "user_1" None None "W2" "feat/y"
                       [] None)
                    (exampleDb ExRunning None))).
    reflexivity.
Defined.

(** ** [upsertExecutionRepoState] *)

Lemma nullish_nullish {A} (a b : option A) : a ?? (a ?? b) = a ?? b.
Proof. by destruct a. Qed.

Lemma nullish_same {A} (a : option A) : a ?? a = a.
Proof. by destruct a. Qed.

Lemma upsertExecutionRepoState_cases now args db :
  upsertExecutionRepoState now args db
  = match filter (fun d => repoStateOf (ux_executionProcessId args)
                             (ux_workspaceRepoId args) d.2)
            (imap pair (executionProcessRepoStates db)) with
    | [] =>
      inr ({| uxr_executionProcessRepoStateId :=
                length (executionProcessRepoStates db);
              uxr_updatedAt := now |},
           setRows executionProcessRepoStatesT
             (executionProcessRepoStates db ++ [insertedRepoState now args])
             db)
    | [(i, existing)] =>
      inr ({| uxr_executionProcessRepoStateId := i; uxr_updatedAt := now |},
           setRows executionProcessRepoStatesT
             (<[i := patchedRepoState now args existing]>
                (executionProcessRepoStates db)) db)
    | _ => inl UniqueFoundSeveral
    end.
Proof.
  unfold upsertExecutionRepoState, bind at 1, db_query.
  cbn [rows executionProcessRepoStatesT].
  destruct (filter _ _) as [|[i existing] [|d rest]] eqn:E; try reflexivity.
  assert (Hin : (i, existing)
                ∈ filter (fun d => repoStateOf (ux_executionProcessId args)
                                     (ux_workspaceRepoId args) d.2)
                    (imap pair (executionProcessRepoStates db)))
    by (rewrite E; apply list_elem_of_here).
  apply (matches_elem (repoStateOf _ _)) in Hin as [Hl [He Hw]].
  unfold bind, unique, ret, db_patch.
  change (rows executionProcessRepoStatesT db)
    with (executionProcessRepoStates db).
  rewrite Hl. reflexivity.
Qed.

(** What [upsertExecutionRepoState] does on a pair with at most one row. *)
Lemma upsertExecutionRepoState_post now args db :
  let e := ux_executionProcessId args in
  let w := ux_workspaceRepoId args in
  (repoStateCount e w db <= 1)%nat ->
  exists i row' db',
    upsertExecutionRepoState now args db
    = inr ({| uxr_executionProcessRepoStateId := i; uxr_updatedAt := now |},
           db')
    /\ executionProcessRepoStates db' !! i = Some row'
    /\ repoStateOf e w row'
    /\ repoStateCount e w db' = 1%nat
    /\ (forall e' w',
          (repoStateCount e' w' db <= 1)%nat ->
          (repoStateCount e' w' db' <= 1)%nat)
    /\ (forall j, j <> i ->
          executionProcessRepoStates db' !! j
          = executionProcessRepoStates db !! j)
    /\ (forall i0 old,
          executionProcessRepoStates db !! i0 = Some old ->
          repoStateOf e w old ->
          i = i0
          /\ length (executionProcessRepoStates db')
             = length (executionProcessRepoStates db)
          /\ row' = patchedRepoState now args old)
    /\ ((forall old, old ∈ executionProcessRepoStates db ->
                     ~ repoStateOf e w old) ->
        i = length (executionProcessRepoStates db)
        /\ executionProcessRepoStates db'
           = executionProcessRepoStates db ++ [row']
        /\ row' = insertedRepoState now args)
    /\ ((exists old, row' = patchedRepoState now args old)
        \/ row' = insertedRepoState now args).
Proof.
  intros e w Hle. rewrite upsertExecutionRepoState_cases. fold e w.
  set (l := executionProcessRepoStates db) in *.
  pose proof (matches_length (repoStateOf e w) l) as Hlen.
  destruct (filter (fun d => repoStateOf e w d.2) (imap pair l))
    as [|[i old] [|d rest]] eqn:E.
  - pose proof (proj1 (matches_nil (repoStateOf e w) l) E) as Hno.
    pose proof (proj2 (count_zero (repoStateOf e w) l) Hno) as Hz.
    exists (length l), (insertedRepoState now args),
      (setRows executionProcessRepoStatesT
         (l ++ [insertedRepoState now args]) db).
    split; [reflexivity|].
    unfold repoStateCount. cbn [executionProcessRepoStates setRows
                                  executionProcessRepoStatesT]. fold l.
    split; [by rewrite lookup_app_r, Nat.sub_diag|].
    split; [by split|].
    split; [rewrite (count_snoc (repoStateOf e w)), decide_True by (by split);
            lia|].
    split; [|split; [|split]].
    + intros e' w' Hle'. rewrite (count_snoc (repoStateOf e' w')).
      destruct (decide (repoStateOf e' w' (insertedRepoState now args)))
        as [[He' Hw']|]; [|lia].
      cbn in He', Hw'. subst e' w'. fold e w. lia.
    + intros j Hj. destruct (decide (j < length l)%nat).
      * by rewrite lookup_app_l.
      * rewrite !lookup_ge_None_2; [done|lia|].
        rewrite length_app. cbn. lia.
    + intros i0 old Hl Hq. exfalso. eapply Hno; [|exact Hq].
      by eapply list_elem_of_lookup_2.
    + split; [done|]. by right.
  - assert (Hin : (i, old) ∈ filter (fun d => repoStateOf e w d.2)
                                (imap pair l))
      by (rewrite E; apply list_elem_of_here).
    apply (matches_elem (repoStateOf e w)) in Hin as [Hl Hq].
    pose proof (lookup_lt_Some _ _ _ Hl) as Hlt.
    assert (Hcount : forall e' w',
               length (filter (repoStateOf e' w')
                         (<[i:=patchedRepoState now args old]> l))
               = length (filter (repoStateOf e' w') l)).
    { intros e' w'.
      pose proof (count_insert (repoStateOf e' w') l i old
                    (patchedRepoState now args old) Hl) as Hc.
      destruct (decide (repoStateOf e' w' old)) as [H1|H1],
          (decide (repoStateOf e' w' (patchedRepoState now args old)))
            as [H2|H2]; try lia; exfalso.
      - apply H2. exact H1.
      - apply H1. exact H2. }
    exists i, (patchedRepoState now args old),
      (setRows executionProcessRepoStatesT
         (<[i:=patchedRepoState now args old]> l) db).
    split; [reflexivity|].
    unfold repoStateCount. cbn [executionProcessRepoStates setRows
                                  executionProcessRepoStatesT]. fold l.
    split; [by rewrite list_lookup_insert_eq|].
    split; [exact Hq|].
    split; [rewrite Hcount; cbn in Hlen; unfold repoStateCount in Hle; lia|].
    split; [|split; [|split]].
    + intros e' w' Hle'. by rewrite Hcount.
    + intros j Hj. by rewrite list_lookup_insert_ne.
    + intros i0 old0 Hl0 Hq0.
      assert (i = i0) as <-
          by (eapply (count_le1_unique (repoStateOf e w) l);
              [exact Hle|exact Hl|exact Hq|exact Hl0|exact Hq0]).
      rewrite length_insert. split; [done|]. split; [done|]. congruence.
    + split; [|left; by eexists].
      intros Hno. exfalso. eapply Hno; [|exact Hq].
      by eapply list_elem_of_lookup_2.
  - exfalso. unfold repoStateCount in Hle. fold l in Hle. cbn in Hlen. lia.
Qed.

(** C8. On an (execution, workspace-repo) pair with at most one row,
    [upsertExecutionRepoState] succeeds and leaves exactly one row for the
    pair, and no pair that had at most one row gets a second.  A field
    among [beforeHeadCommit], [afterHeadCommit] and [repoState] that the
    call omits keeps the value stored before, and a field that it passes
    takes the passed value.  A second call with the same arguments returns
    the same row and leaves these three fields as the first call left
    them. *)
Theorem upsertExecutionRepoState_keeps_prior now args db :
  let e := ux_executionProcessId args in
  let w := ux_workspaceRepoId args in
  (repoStateCount e w db <= 1)%nat ->
  exists r db' row',
    upsertExecutionRepoState now args db = inr (r, db')
    /\ executionProcessRepoStates db' !! uxr_executionProcessRepoStateId r
       = Some row'
    /\ repoStateOf e w row'
    /\ repoStateCount e w db' = 1%nat
    /\ (forall e' w',
          (repoStateCount e' w' db <= 1)%nat ->
          (repoStateCount e' w' db' <= 1)%nat)
    /\ (forall i old,
          executionProcessRepoStates db !! i = Some old ->
          repoStateOf e w old ->
          i = uxr_executionProcessRepoStateId r
          /\ length (executionProcessRepoStates db')
             = length (executionProcessRepoStates db)
          /\ (ux_beforeHeadCommit args = None ->
              rs_beforeHeadCommit row' = rs_beforeHeadCommit old)
          /\ (ux_afterHeadCommit args = None ->
              rs_afterHeadCommit row' = rs_afterHeadCommit old)
          /\ (ux_repoState args = None ->
              rs_repoState row' = rs_repoState old)
          /\ (forall c, ux_beforeHeadCommit args = Some c ->
                        rs_beforeHeadCommit row' = Some c)
          /\ (forall c, ux_afterHeadCommit args = Some c ->
                        rs_afterHeadCommit row' = Some c)
          /\ (forall s, ux_repoState args = Some s ->
                        rs_repoState row' = Some s))
    /\ (forall now2,
          exists r2 db2 row2,
            upsertExecutionRepoState now2 args db' = inr (r2, db2)
            /\ uxr_executionProcessRepoStateId r2
               = uxr_executionProcessRepoStateId r
            /\ length (executionProcessRepoStates db2)
               = length (executionProcessRepoStates db')
            /\ executionProcessRepoStates db2
                 !! uxr_executionProcessRepoStateId r = Some row2
            /\ rs_beforeHeadCommit row2 = rs_beforeHeadCommit row'
            /\ rs_afterHeadCommit row2 = rs_afterHeadCommit row'
            /\ rs_repoState row2 = rs_repoState row').
Proof.
  intros e w Hle.
  destruct (upsertExecutionRepoState_post now args db Hle)
    as (i & row' & db' & Hrun & Hl' & Hq' & Hone & Hpres & _ & Hsome & _
        & Hrow').
  fold e w in Hq', Hone, Hsome.
  exists {| uxr_executionProcessRepoStateId := i; uxr_updatedAt := now |},
    db', row'.
  cbn [uxr_executionProcessRepoStateId].
  split; [exact Hrun|]. split; [exact Hl'|]. split; [exact Hq'|].
  split; [exact Hone|]. split; [exact Hpres|]. split.
  - intros i0 old Hl Hq. destruct (Hsome i0 old Hl Hq) as (-> & Hlen & ->).
    split; [done|]. split; [done|]. cbn.
    repeat split; intros; match goal with H : _ = _ |- _ => by rewrite H end.
  - intros now2.
    assert (Hle' : (repoStateCount e w db' <= 1)%nat) by lia.
    destruct (upsertExecutionRepoState_post now2 args db' Hle')
      as (i2 & row2 & db2 & Hrun2 & Hl2 & _ & _ & _ & _ & Hsome2 & _).
    destruct (Hsome2 i row' Hl' Hq') as (-> & Hlen2 & ->).
    eexists _, db2, _. split; [exact Hrun2|].
    split; [reflexivity|]. split; [exact Hlen2|]. split; [exact Hl2|].
    cbn. destruct Hrow' as [[old ->]| ->]; cbn.
    + by rewrite !nullish_nullish.
    + by rewrite !nullish_same.
Qed.

Lemma upsertExecutionRepoState_keeps_prior_witness :
  let args :=
    mkUpsertExecutionRepoStateArgs 0 0 None (Some "def456") None in
  exists r db' row',
    upsertExecutionRepoState 10 args exampleSnapshotDb = inr (r, db')
    /\ executionProcessRepoStates db' !! uxr_executionProcessRepoStateId r
       = Some row'
    /\ repoStateCount 0 0 db' = 1%nat
    /\ uxr_executionProcessRepoStateId r = 0%nat
    /\ rs_beforeHeadCommit row' = Some "abc123"
    /\ rs_afterHeadCommit row' = Some "def456".
Proof.
  cbn zeta.
  destruct (upsertExecutionRepoState_keeps_prior 10
              (mkUpsertExecutionRepoStateArgs 0 0 None (Some "def456") None)
              exampleSnapshotDb ltac:(vm_compute; lia))
    as (r & db' & row' & Hrun & Hrow & _ & Hone & _ & Hold & _).
  destruct (Hold 0%nat exampleRepoState eq_refl (conj eq_refl eq_refl))
    as (Hid & _ & Hbefore & _ & _ & _ & Hafter & _).
  exists r, db', row'. split; [exact Hrun|]. split; [exact Hrow|].
  split; [exact Hone|]. split; [by rewrite <- Hid|].
  split; [exact (Hbefore eq_refl)|exact (Hafter _ eq_refl)].
Defined.

(** * Further properties of the store *)

(** ** The order of an index *)

Lemma StronglySorted_weaken {A} (R1 R2 : relation A) (l : list A) :
  (forall a b, R1 a b -> R2 a b) ->
  StronglySorted R1 l -> StronglySorted R2 l.
Proof.
  intros Himpl. induction 1 as [|a l _ IH Hall]; constructor; [done|].
  eapply Forall_impl; [exact Hall|]. intros b. apply Himpl.
Qed.

Section index_order.
Context {A : Type} (key : A -> Z).

Implicit Types (d : Id * A) (matches : list (Id * A)).

#[local] Instance indexBefore_total : Total (indexBefore key).
Proof. intros d1 d2. unfold indexBefore. lia. Qed.

#[local] Instance indexBefore_trans : Transitive (indexBefore key).
Proof. intros d1 d2 d3. unfold indexBefore. lia. Qed.

#[local] Instance indexAfter_total : Total (flip (indexBefore key)).
Proof. intros d1 d2. unfold flip, indexBefore. lia. Qed.

#[local] Instance indexAfter_trans : Transitive (flip (indexBefore key)).
Proof. intros d1 d2 d3. unfold flip, indexBefore. lia. Qed.

Lemma indexBefore_antisym d1 d2 :
  indexBefore key d1 d2 -> indexBefore key d2 d1 -> d1.1 = d2.1.
Proof. unfold indexBefore. lia. Qed.

Lemma orderDesc_elem matches d : d ∈ orderDesc key matches <-> d ∈ matches.
Proof. unfold orderDesc. by rewrite merge_sort_Permutation. Qed.

Lemma orderAsc_elem matches d : d ∈ orderAsc key matches <-> d ∈ matches.
Proof. unfold orderAsc. by rewrite merge_sort_Permutation. Qed.

Lemma orderDesc_length matches :
  length (orderDesc key matches) = length matches.
Proof. unfold orderDesc. by rewrite merge_sort_Permutation. Qed.

Lemma orderAsc_length matches :
  length (orderAsc key matches) = length matches.
Proof. unfold orderAsc. by rewrite merge_sort_Permutation. Qed.

Lemma orderDesc_sorted matches :
  StronglySorted (flip (indexBefore key)) (orderDesc key matches).
Proof. apply (StronglySorted_merge_sort _). Qed.

Lemma orderAsc_sorted matches :
  StronglySorted (indexBefore key) (orderAsc key matches).
Proof. apply (StronglySorted_merge_sort _). Qed.

(** Descending in the index is descending in the key. *)
Lemma orderDesc_keys matches :
  StronglySorted (fun d1 d2 => key d2.2 <= key d1.2) (orderDesc key matches).
Proof.
  eapply StronglySorted_weaken; [|apply orderDesc_sorted].
  intros d1 d2. unfold flip, indexBefore. lia.
Qed.

Lemma orderAsc_keys matches :
  StronglySorted (fun d1 d2 => key d1.2 <= key d2.2) (orderAsc key matches).
Proof.
  eapply StronglySorted_weaken; [|apply orderAsc_sorted].
  intros d1 d2. unfold indexBefore. lia.
Qed.

(** The document that the index puts after all others is listed first. *)
Lemma orderDesc_head matches d :
  idsDetermine matches ->
  d ∈ matches ->
  (forall d', d' ∈ matches -> indexBefore key d' d) ->
  exists rest, orderDesc key matches = d :: rest.
Proof.
  intros Hids Hd Hmax.
  pose proof (orderDesc_sorted matches) as Hsorted.
  destruct (orderDesc key matches) as [|h rest] eqn:E.
  { apply orderDesc_elem in Hd. rewrite E in Hd. by apply not_elem_of_nil in Hd. }
  assert (Hh : h ∈ matches) by (apply orderDesc_elem; rewrite E; left).
  assert (Hdh : flip (indexBefore key) h d).
  { apply orderDesc_elem in Hd. rewrite E in Hd.
    apply elem_of_cons in Hd as [->|Hd].
    - unfold flip, indexBefore. lia.
    - apply StronglySorted_inv in Hsorted as [_ Hall].
      by eapply Forall_forall in Hall. }
  exists rest. f_equal. apply Hids; [done..|].
  apply indexBefore_antisym; [by apply Hmax|exact Hdh].
Qed.

(** Matches that are in index order already are returned as they are. *)
Lemma orderAsc_sorted_id matches :
  idsDetermine matches ->
  Sorted (indexBefore key) matches ->
  orderAsc key matches = matches.
Proof.
  intros Hids Hsorted.
  apply (Sorted_unique_strong (indexBefore key)).
  - intros d1 d2 H1 H2 H12 H21. apply Hids; [|done|].
    + by apply orderAsc_elem.
    + by apply indexBefore_antisym.
  - apply Sorted_merge_sort. apply _.
  - done.
  - apply merge_sort_Permutation.
Qed.
End index_order.

Section table_matches.
Context {A : Type} (P : A -> Prop) `{!forall a, Decision (P a)}.

Lemma matches_idsDetermine (l : list A) :
  idsDetermine (filter (fun d => P d.2) (imap pair l)).
Proof.
  intros [i a] [j b] Hi Hj. cbn. intros ->.
  apply (matches_elem P) in Hi as [Hi _].
  apply (matches_elem P) in Hj as [Hj _]. congruence.
Qed.

Lemma matches_NoDup (l : list A) :
  NoDup (filter (fun d => P d.2) (imap pair l)).
Proof.
  apply NoDup_filter. apply NoDup_alt. intros i j [k a] Hi Hj.
  rewrite list_lookup_imap in Hi, Hj.
  destruct (l !! i) eqn:Ei; [|done]. destruct (l !! j) eqn:Ej; [|done].
  cbn in Hi, Hj. congruence.
Qed.
End table_matches.

(** ** Executions *)

(** X1.  [setExecutionStatus] throws when the execution, its session or its
    workspace is missing, in the last two cases after it has patched the
    execution; whatever it throws, the mutation commits nothing. *)
Theorem setExecutionStatus_failures now args db :
  (executionProcesses db !! ses_executionProcessId args = None ->
   setExecutionStatus now args db
   = inl (ExecutionProcessNotFound (ses_executionProcessId args)))
  /\ (forall process,
        executionProcesses db !! ses_executionProcessId args = Some process ->
        sessions db !! ep_sessionId process = None ->
        setExecutionStatus now args db
        = inl (PatchOfMissingDocument (ep_sessionId process)))
  /\ (forall process,
        executionProcesses db !! ses_executionProcessId args = Some process ->
        is_Some (sessions db !! ep_sessionId process) ->
        workspaces db !! ep_workspaceId process = None ->
        setExecutionStatus now args db
        = inl (PatchOfMissingDocument (ep_workspaceId process)))
  /\ (forall e,
        setExecutionStatus now args db = inl e ->
        runMutation (setExecutionStatus now args) db = (db, inl e)).
Proof.
  repeat split.
  - intros Hp. unfold setExecutionStatus, bind, db_get, throw. cbn.
    by rewrite Hp.
  - intros process Hp Hs.
    unfold setExecutionStatus, bind, db_get, db_patch. cbn.
    rewrite Hp. cbn. rewrite Hp. cbn. by rewrite Hs.
  - intros process Hp [session Hs] Hw.
    unfold setExecutionStatus, bind, db_get, db_patch. cbn.
    rewrite Hp. cbn. rewrite Hp. cbn. rewrite Hs. cbn. by rewrite Hw.
  - intros e He. unfold runMutation. by rewrite He.
Qed.

Lemma setExecutionStatus_failures_witness :
  let db := exampleDb ExRunning None in
  setExecutionStatus 10 (mkSetExecutionStatusArgs 3 ExCompleted None) db
  = inl (ExecutionProcessNotFound 3)
  /\ runMutation
       (setExecutionStatus 10 (mkSetExecutionStatusArgs 3 ExCompleted None))
       db
     = (db, inl (ExecutionProcessNotFound 3)).
Proof.
  cbn zeta.
  pose proof (setExecutionStatus_failures 10
                (mkSetExecutionStatusArgs 3 ExCompleted None)
                (exampleDb ExRunning None)) as (Hmissing & _ & _ & Hcommit).
  split; [apply Hmissing; reflexivity|].
  apply Hcommit, Hmissing. reflexivity.
Defined.

Lemma markQueuedFollowUpConsumed_cases now id db :
  markQueuedFollowUpConsumed now id db
  = match executionProcesses db !! id with
    | None => inl (ExecutionProcessNotFound id)
    | Some p =>
      inr ({| mqr_executionProcessId := id;
              mqr_queuedFollowUpConsumed := true;
              mqr_updatedAt := now |},
           setRows executionProcessesT
             (<[id := {| ep_workspaceId := ep_workspaceId p;
                         ep_sessionId := ep_sessionId p;
                         ep_runReason := ep_runReason p;
                         ep_status := ep_status p;
                         ep_executor := ep_executor p;
                         ep_queuedFollowUpConsumed := true;
                         ep_startedAt := ep_startedAt p;
                         ep_completedAt := ep_completedAt p;
                         ep_errorMessage := ep_errorMessage p;
                         ep_createdAt := ep_createdAt p;
                         ep_updatedAt := now |}]> (executionProcesses db))
             db)
    end.
Proof.
  unfold markQueuedFollowUpConsumed, bind, db_get, db_patch, throw, ret. cbn.
  destruct (executionProcesses db !! id) as [p|] eqn:Hp; [|reflexivity].
  cbn. by rewrite Hp.
Qed.

(** X2.  [markQueuedFollowUpConsumed] sets the flag of an existing execution and
    nothing else but its [updatedAt]: status, [completedAt], error message,
    the other executions and the other tables stay as they are.  On a
    missing execution it throws and commits nothing. *)
Theorem markQueuedFollowUpConsumed_marks now id db :
  (forall process,
     executionProcesses db !! id = Some process ->
     exists db' process',
       markQueuedFollowUpConsumed now id db
       = inr ({| mqr_executionProcessId := id;
                 mqr_queuedFollowUpConsumed := true;
                 mqr_updatedAt := now |}, db')
       /\ executionProcesses db' !! id = Some process'
       /\ ep_queuedFollowUpConsumed process' = true
       /\ ep_status process' = ep_status process
       /\ ep_completedAt process' = ep_completedAt process
       /\ ep_errorMessage process' = ep_errorMessage process
       /\ ep_sessionId process' = ep_sessionId process
       /\ ep_workspaceId process' = ep_workspaceId process
       /\ (forall j, j <> id ->
             executionProcesses db' !! j = executionProcesses db !! j)
       /\ sessions db' = sessions db
       /\ workspaces db' = workspaces db
       /\ queuedMessages db' = queuedMessages db)
  /\ (executionProcesses db !! id = None ->
      runMutation (markQueuedFollowUpConsumed now id) db
      = (db, inl (ExecutionProcessNotFound id))).
Proof.
  split.
  - intros process Hp. eexists _, _.
    rewrite markQueuedFollowUpConsumed_cases, Hp. split; [reflexivity|].
    cbn. rewrite list_lookup_insert_eq by eauto using lookup_lt_Some.
    split; [reflexivity|]. cbn. repeat split.
    intros j Hj. by rewrite list_lookup_insert_ne.
  - intros Hp. unfold runMutation.
    by rewrite markQueuedFollowUpConsumed_cases, Hp.
Qed.

Lemma markQueuedFollowUpConsumed_marks_witness :
  let db := exampleDb ExCompleted (Some 5) in
  (exists db' process',
     markQueuedFollowUpConsumed 10 0 db
     = inr (mkMarkQueuedFollowUpConsumedResult 0 true 10, db')
     /\ executionProcesses db' !! 0%nat = Some process'
     /\ ep_queuedFollowUpConsumed process' = true
     /\ ep_status process' = ExCompleted)
  /\ runMutation (markQueuedFollowUpConsumed 10 4) db
     = (db, inl (ExecutionProcessNotFound 4)).
Proof.
  cbn zeta.
  pose proof (markQueuedFollowUpConsumed_marks 10 0
                (exampleDb ExCompleted (Some 5))) as [Hmark _].
  pose proof (markQueuedFollowUpConsumed_marks 10 4
                (exampleDb ExCompleted (Some 5))) as [_ Hmissing].
  split; [|apply Hmissing; reflexivity].
  destruct (Hmark (exampleExecution ExCompleted (Some 5)) eq_refl)
    as (db' & process' & Hrun & Hl & Hflag & Hstatus & _).
  exists db', process'. repeat split; assumption.
Defined.

(** What one mutation never changes in an execution, and the flag, which
    is never taken back. *)
Lemma applyExecutionOp_keeps db op id process :
  executionProcesses db !! id = Some process ->
  exists process',
    executionProcesses (applyExecutionOp db op) !! id = Some process'
    /\ ep_workspaceId process' = ep_workspaceId process
    /\ ep_sessionId process' = ep_sessionId process
    /\ ep_runReason process' = ep_runReason process
    /\ ep_executor process' = ep_executor process
    /\ ep_startedAt process' = ep_startedAt process
    /\ ep_createdAt process' = ep_createdAt process
    /\ (ep_queuedFollowUpConsumed process = true ->
        ep_queuedFollowUpConsumed process' = true).
Proof.
  intros Hp. pose proof (lookup_lt_Some _ _ _ Hp) as Hlt.
  destruct op as [now args|now args|now id'];
    unfold applyExecutionOp, runMutation.
  - rewrite startExecution_cases.
    destruct (workspaces db !! sx_workspaceId args); [|by eauto 10].
    destruct (sessions db !! sx_sessionId args); [|by eauto 10].
    cbn. rewrite lookup_app_l by done. by eauto 10.
  - destruct (setExecutionStatus now args db) as [e|[r db']] eqn:Hrun;
      [by eauto 10|].
    apply setExecutionStatus_inv in Hrun
        as (p & session & workspace & Hp' & _ & _ & ->). cbn.
    destruct (decide (ses_executionProcessId args = id)) as [Heq|Hne].
    + rewrite Heq in *. rewrite list_lookup_insert_eq by done.
      assert (p = process) as -> by congruence. by eauto 10.
    + rewrite list_lookup_insert_ne by done. by eauto 10.
  - rewrite markQueuedFollowUpConsumed_cases.
    destruct (executionProcesses db !! id') as [p|] eqn:Hp'; [|by eauto 10].
    cbn. destruct (decide (id' = id)) as [->|Hne].
    + rewrite list_lookup_insert_eq by done.
      assert (p = process) as -> by congruence. by eauto 10.
    + rewrite list_lookup_insert_ne by done. by eauto 10.
Qed.

(** X3.  Over any sequence of [startExecution], [setExecutionStatus] and
    [markQueuedFollowUpConsumed] mutations an execution keeps its id, its
    workspace, session, run reason, executor and start time, and once its
    follow-up is marked consumed it stays marked. *)
Theorem execution_identity_is_kept ops db id process :
  executionProcesses db !! id = Some process ->
  exists process',
    executionProcesses (applyExecutionOps ops db) !! id = Some process'
    /\ ep_workspaceId process' = ep_workspaceId process
    /\ ep_sessionId process' = ep_sessionId process
    /\ ep_runReason process' = ep_runReason process
    /\ ep_executor process' = ep_executor process
    /\ ep_startedAt process' = ep_startedAt process
    /\ ep_createdAt process' = ep_createdAt process
    /\ (ep_queuedFollowUpConsumed process = true ->
        ep_queuedFollowUpConsumed process' = true).
Proof.
  unfold applyExecutionOps. revert db process.
  induction ops as [|op ops IH]; intros db process Hp; [by eauto 10|].
  cbn. destruct (applyExecutionOp_keeps db op id process Hp)
    as (p1 & Hp1 & Hw1 & Hs1 & Hr1 & He1 & Ht1 & Hc1 & Hf1).
  destruct (IH _ _ Hp1) as (p2 & Hp2 & Hw2 & Hs2 & Hr2 & He2 & Ht2 & Hc2 & Hf2).
  exists p2. split; [done|]. repeat split; try congruence. auto.
Qed.

Lemma execution_identity_is_kept_witness :
  exists process',
    executionProcesses
      (applyExecutionOps
         [OpMarkConsumed 10 0;
          OpSetStatus 11 (mkSetExecutionStatusArgs 0 ExFailed (Some "exit 1"));
          OpStart 12 (mkStartExecutionArgs 0 1 RrCleanup None);
          OpSetStatus 13 (mkSetExecutionStatusArgs 0 ExDropped None)]
         (exampleDb ExRunning None)) !! 0%nat = Some process'
    /\ ep_sessionId process' = 0%nat
    /\ ep_startedAt process' = 2.
Proof.
  destruct (execution_identity_is_kept
              [OpMarkConsumed 10 0;
               OpSetStatus 11
                 (mkSetExecutionStatusArgs 0 ExFailed (Some "exit 1"));
               OpStart 12 (mkStartExecutionArgs 0 1 RrCleanup None);
               OpSetStatus 13 (mkSetExecutionStatusArgs 0 ExDropped None)]
              (exampleDb ExRunning None) 0%nat
              (exampleExecution ExRunning None) eq_refl)
    as (process' & Hp & _ & Hs & _ & _ & Ht & _).
  exists process'. repeat split; assumption.
Defined.

(** [.take] with a count. *)
Lemma db_take_count {A} (n : Number) (k : nat) (rows : list A) db :
  isCount n k -> db_take n rows db = inr (take k rows, db).
Proof.
  intros (q & -> & Hq). unfold QArith_base.Qeq in Hq. cbn in Hq.
  assert (Hnum : QArith_base.Qnum q
                 = Z.of_nat k * Z.pos (QArith_base.Qden q)) by lia.
  unfold db_take, isInteger, isNegative, toCount, qret. rewrite Hnum.
  rewrite Z.mod_mul, Z.div_mul by lia. cbn [Z.eqb negb orb].
  destruct (Z.ltb_spec (Z.of_nat k * Z.pos (QArith_base.Qden q)) 0);
    [nia|]. cbn. by rewrite Nat2Z.id.
Qed.

(** [.take] with any other number. *)
Lemma db_take_no_count {A} (n : Number) (rows : list A) db :
  (forall k, ~ isCount n k) -> db_take n rows db = inl (TakeCountInvalid n).
Proof.
  intros Hno. unfold db_take.
  destruct (negb (isInteger n) || isNegative n) eqn:Hcheck; [reflexivity|].
  exfalso. apply orb_false_elim in Hcheck as [Hint Hneg].
  apply negb_false_iff in Hint.
  destruct n as [q| |]; [|discriminate|discriminate].
  cbn in Hint, Hneg. apply Z.eqb_eq in Hint. apply Z.ltb_ge in Hneg.
  apply Z.div_exact in Hint; [|lia].
  apply (Hno (Z.to_nat (QArith_base.Qnum q / Z.pos (QArith_base.Qden q)))).
  exists q. split; [reflexivity|].
  unfold QArith_base.Qeq. cbn.
  rewrite Z2Nat.id by (apply Z.div_pos; lia). lia.
Qed.

Lemma isCount_unique n k1 k2 : isCount n k1 -> isCount n k2 -> k1 = k2.
Proof.
  intros (q1 & -> & H1) (q2 & [= <-] & H2).
  unfold QArith_base.Qeq in H1, H2. cbn in H1, H2. nia.
Qed.

Lemma listExecutionProcessesBySession_cases sessionId limit db :
  listExecutionProcessesBySession sessionId limit db
  = let all :=
      orderDesc ep_startedAt
        (filter (fun d => executionOf sessionId d.2)
           (imap pair (executionProcesses db))) in
    match limit with
    | None => inr (all, db)
    | Some n => db_take n all db
    end.
Proof.
  unfold listExecutionProcessesBySession, qbind, inQuery, db_query, ret, qret.
  cbn. by destruct limit.
Qed.

(** Ordered for an index, limited by [take]: still ordered. *)
Lemma StronglySorted_take {A} (R : relation A) (n : nat) (l : list A) :
  StronglySorted R l -> StronglySorted R (take n l).
Proof.
  intros Hs. rewrite <- (take_drop n l) in Hs.
  by apply StronglySorted_app_1_l in Hs.
Qed.

(** X4.  [listExecutionProcessesBySession] does not write.  Without a limit it
    returns every stored execution of the session, each once, the latest
    start first.  With a limit that is a non-negative integer [k] it
    returns the first [k] of those, all of them when there are no more than
    [k]: executions of the session only, each at most once, the latest
    start first.  With a limit that is any other number, a negative one, a
    fraction, an infinity or NaN, it throws. *)
Theorem listExecutionProcessesBySession_lists sessionId limit db :
  exists all,
    listExecutionProcessesBySession sessionId None db = inr (all, db)
    /\ (forall i p,
          (i, p) ∈ all
          <-> executionProcesses db !! i = Some p /\ ep_sessionId p = sessionId)
    /\ NoDup all
    /\ StronglySorted
         (fun d1 d2 => ep_startedAt d2.2 <= ep_startedAt d1.2) all
    /\ (forall n k,
          limit = Some n -> isCount n k ->
          exists rows,
            listExecutionProcessesBySession sessionId limit db
            = inr (rows, db)
            /\ rows = take k all
            /\ length rows
               = (k `min` length (filter (executionOf sessionId)
                                    (executionProcesses db)))%nat
            /\ (forall i p,
                  (i, p) ∈ rows ->
                  executionProcesses db !! i = Some p
                  /\ ep_sessionId p = sessionId)
            /\ NoDup rows
            /\ StronglySorted
                 (fun d1 d2 => ep_startedAt d2.2 <= ep_startedAt d1.2) rows)
    /\ (forall n,
          limit = Some n -> (forall k, ~ isCount n k) ->
          listExecutionProcessesBySession sessionId limit db
          = inl (TakeCountInvalid n)).
Proof.
  rewrite !listExecutionProcessesBySession_cases. cbn zeta.
  set (matches := filter (fun d => executionOf sessionId d.2)
                    (imap pair (executionProcesses db))).
  set (all := orderDesc ep_startedAt matches).
  assert (Hin : forall i p, (i, p) ∈ all <->
                  executionProcesses db !! i = Some p
                  /\ ep_sessionId p = sessionId).
  { intros i p. unfold all. rewrite orderDesc_elem.
    apply (matches_elem (executionOf sessionId)). }
  assert (Hnodup : NoDup all).
  { unfold all, orderDesc. rewrite merge_sort_Permutation.
    apply (matches_NoDup (executionOf sessionId)). }
  pose proof (orderDesc_keys ep_startedAt matches) as Hsorted.
  fold all in Hsorted.
  exists all. split; [reflexivity|]. split; [exact Hin|].
  split; [exact Hnodup|]. split; [exact Hsorted|]. split.
  - intros n k -> Hk. exists (take k all).
    split; [by apply db_take_count|]. split; [reflexivity|].
    split; [|split; [|split]].
    + rewrite length_take. unfold all, matches.
      by rewrite orderDesc_length, (matches_length (executionOf sessionId)).
    + intros i p Hd. apply Hin. by eapply subseteq_take.
    + eapply sublist_NoDup; [exact Hnodup|apply sublist_take].
    + by apply StronglySorted_take.
  - intros n -> Hno. by apply db_take_no_count.
Qed.

(** X5.  An execution started no earlier than the executions that its session
    has is the one that [listExecutionProcessesBySession] with limit 1
    returns afterwards. *)
Theorem startExecution_is_listed_first now args db r db' :
  startExecution now args db = inr (r, db') ->
  (forall p, p ∈ executionProcesses db ->
             ep_sessionId p = sx_sessionId args -> ep_startedAt p <= now) ->
  exists process,
    listExecutionProcessesBySession (sx_sessionId args)
      (Some (Finite (QArith_base.Qmake 1 1))) db'
    = inr ([(sxr_executionProcessId r, process)], db')
    /\ executionProcesses db' !! sxr_executionProcessId r = Some process
    /\ ep_status process = ExRunning
    /\ ep_startedAt process = now.
Proof.
  rewrite startExecution_cases.
  destruct (workspaces db !! sx_workspaceId args) as [workspace|];
    [|discriminate].
  destruct (sessions db !! sx_sessionId args) as [session|]; [|discriminate].
  intros [= <- <-] Hlatest. cbn [sxr_executionProcessId].
  set (db' := startExecution_db now args session workspace db).
  set (new := (length (executionProcesses db),
               {| ep_workspaceId := sx_workspaceId args;
                  ep_sessionId := sx_sessionId args;
                  ep_runReason := sx_runReason args;
                  ep_status := ExRunning;
                  ep_executor := sx_executor args;
                  ep_queuedFollowUpConsumed := false;
                  ep_startedAt := now;
                  ep_completedAt := None;
                  ep_errorMessage := None;
                  ep_createdAt := now;
                  ep_updatedAt := now |})).
  assert (Hnew : executionProcesses db' !! new.1 = Some new.2)
    by (cbn; by rewrite lookup_app_r, Nat.sub_diag).
  exists new.2. rewrite listExecutionProcessesBySession_cases. cbn zeta.
  split; [|by repeat split].
  rewrite (db_take_count _ 1) by (eexists; split; reflexivity).
  destruct (orderDesc_head ep_startedAt
              (filter (fun d => executionOf (sx_sessionId args) d.2)
                 (imap pair (executionProcesses db'))) new) as [rest ->].
  - apply (matches_idsDetermine (executionOf (sx_sessionId args))).
  - by apply (matches_elem (executionOf (sx_sessionId args))).
  - intros [i p] Hd.
    apply (matches_elem (executionOf (sx_sessionId args))) in Hd as [Hl Hs].
    cbn in Hl. unfold indexBefore. cbn.
    apply lookup_app_Some in Hl as [Hl|[Hge Hl]].
    + pose proof (lookup_lt_Some _ _ _ Hl).
      assert (ep_startedAt p <= now)
        by (apply Hlatest; [by eapply list_elem_of_lookup_2|done]).
      lia.
    + apply list_lookup_singleton_Some in Hl as [Hi <-]. cbn. lia.
  - reflexivity.
Qed.

Lemma startExecution_is_listed_first_witness :
  exists r db' process,
    startExecution 10 (mkStartExecutionArgs 0 0 RrCleanup None)
      (exampleDb ExCompleted (Some 5)) = inr (r, db')
    /\ listExecutionProcessesBySession 0
         (Some (Finite (QArith_base.Qmake 1 1))) db'
       = inr ([(1%nat, process)], db')
    /\ ep_status process = ExRunning.
Proof.
  eexists (mkStartExecutionResult 1 10), _.
  destruct (startExecution_is_listed_first 10
              (mkStartExecutionArgs 0 0 RrCleanup None)
              (exampleDb ExCompleted (Some 5))
              (mkStartExecutionResult 1 10) _ eq_refl)
    as (process & Hlist & _ & Hstatus & _).
  - intros p Hp _. cbn in Hp. apply list_elem_of_singleton in Hp as ->.
    cbn. lia.
  - exists process. split; [reflexivity|]. split; [exact Hlist|exact Hstatus].
Defined.

(** ** The follow-up queue, continued *)

(** Taking the one queued row of a session out of the queued state leaves
    the session without a queued row. *)
Lemma dequeue_leaves_none sessionId (l : list QueuedMessage) i m m' :
  (length (filter (queuedOf sessionId) l) <= 1)%nat ->
  l !! i = Some m -> queuedOf sessionId m -> ~ queuedOf sessionId m' ->
  firstQueuedRow sessionId (<[i:=m']> l) = None.
Proof.
  intros Hle Hl Hq Hq'.
  apply firstQueuedRow_None, (count_zero (queuedOf sessionId)).
  pose proof (count_insert (queuedOf sessionId) l i m m' Hl) as Hc.
  rewrite decide_True in Hc by done. rewrite decide_False in Hc by done.
  lia.
Qed.

(** X6.  A follow-up that was enqueued is what [consumeQueuedMessage] returns:
    the same row, with the message, executor, variant and enqueueing process
    of the call and its time as [queuedAt].  The row is then consumed, and
    the session has nothing queued: [getQueueStatus] and a second
    [consumeQueuedMessage] report empty. *)
Theorem enqueue_then_consume now args now2 db :
  (queuedCount (ef_sessionId args) db <= 1)%nat ->
  exists r db1 p db2 m,
    enqueueFollowUp now args db = inr (r, db1)
    /\ consumeQueuedMessage now2 (ef_sessionId args) db1
       = inr (StatusConsumed p, db2)
    /\ qp_queuedMessageId p = efr_queuedMessageId r
    /\ qp_message p = ef_message args
    /\ qp_executor p = ef_executor args
    /\ qp_variant p = ef_variant args
    /\ qp_enqueueingProcessId p = ef_enqueueingProcessId args
    /\ qp_queuedAt p = now
    /\ queuedMessages db2 !! efr_queuedMessageId r = Some m
    /\ qm_state m = QConsumed
    /\ qm_consumedAt m = Some now2
    /\ qm_message m = ef_message args
    /\ getQueueStatus (ef_sessionId args) db2 = inr (StatusEmpty, db2)
    /\ (forall now3,
          consumeQueuedMessage now3 (ef_sessionId args) db2
          = inr (StatusEmpty, db2)).
Proof.
  intros Hle.
  destruct (enqueueFollowUp_post now args db Hle)
    as (i & m1 & db1 & Hrun & Hl1 & Hq1 & Hmsg & Hex & Hvar & Hproc & Hat
        & Hc1 & _).
  assert (Hfirst : firstQueuedRow (ef_sessionId args) (queuedMessages db1)
                   = Some (i, m1)).
  { apply firstQueuedRow_the; [|done..]. unfold queuedCount in Hc1. lia. }
  eexists _, db1, (payloadOf i m1), _, (markConsumed now2 m1).
  split; [exact Hrun|].
  rewrite consumeQueuedMessage_cases, Hfirst. split; [reflexivity|].
  cbn [efr_queuedMessageId queuedMessages setRows queuedMessagesT qm_state
         qm_consumedAt qm_message markConsumed payloadOf qp_queuedMessageId
         qp_message qp_executor qp_variant qp_enqueueingProcessId qp_queuedAt].
  do 6 (split; [done|]).
  split; [by rewrite list_lookup_insert_eq by eauto using lookup_lt_Some|].
  do 3 (split; [done|]).
  assert (Hnone : firstQueuedRow (ef_sessionId args)
                    (<[i:=markConsumed now2 m1]> (queuedMessages db1)) = None).
  { eapply dequeue_leaves_none; [|exact Hl1|exact Hq1|].
    - unfold queuedCount in Hc1. lia.
    - intros [_ Hst]. discriminate Hst. }
  split.
  - rewrite getQueueStatus_cases.
    cbn [queuedMessages setRows queuedMessagesT]. by rewrite Hnone.
  - intros now3. rewrite consumeQueuedMessage_cases.
    cbn [queuedMessages setRows queuedMessagesT]. by rewrite Hnone.
Qed.

Lemma enqueue_then_consume_witness :
  exists r db1 p db2,
    enqueueFollowUp 10
      (mkEnqueueFollowUpArgs 1 "and bump version" None None None)
      exampleQueueDb = inr (r, db1)
    /\ consumeQueuedMessage 20 1 db1 = inr (StatusConsumed p, db2)
    /\ qp_queuedMessageId p = 1%nat
    /\ qp_message p = "and bump version"
    /\ getQueueStatus 1 db2 = inr (StatusEmpty, db2).
Proof.
  destruct (enqueue_then_consume 10
              (mkEnqueueFollowUpArgs 1 "and bump version" None None None)
              20 exampleQueueDb ltac:(vm_compute; lia))
    as (r & db1 & p & db2 & m & Hrun & Hconsume & Hid & Hmsg & _ & _ & _ & _
        & _ & _ & _ & _ & Hget & _).
  exists r, db1, p, db2. split; [exact Hrun|]. split; [exact Hconsume|].
  split; [|split; [exact Hmsg|exact Hget]].
  rewrite Hid. cbv in Hrun. by injection Hrun as <- _.
Defined.

(** X7.  A follow-up that was enqueued and then discarded is never handed out:
    [discardQueuedMessage] reports empty, the row is discarded with the
    time of the call, and [getQueueStatus] and [consumeQueuedMessage]
    report empty afterwards. *)
Theorem enqueue_then_discard now args now2 db :
  (queuedCount (ef_sessionId args) db <= 1)%nat ->
  exists r db1 db2 m,
    enqueueFollowUp now args db = inr (r, db1)
    /\ discardQueuedMessage now2 (ef_sessionId args) db1
       = inr (StatusEmpty, db2)
    /\ queuedMessages db2 !! efr_queuedMessageId r = Some m
    /\ qm_state m = QDiscarded
    /\ qm_discardedAt m = Some now2
    /\ qm_message m = ef_message args
    /\ getQueueStatus (ef_sessionId args) db2 = inr (StatusEmpty, db2)
    /\ (forall now3,
          consumeQueuedMessage now3 (ef_sessionId args) db2
          = inr (StatusEmpty, db2)).
Proof.
  intros Hle.
  destruct (enqueueFollowUp_post now args db Hle)
    as (i & m1 & db1 & Hrun & Hl1 & Hq1 & Hmsg & _ & _ & _ & _ & Hc1 & _).
  assert (Hfirst : firstQueuedRow (ef_sessionId args) (queuedMessages db1)
                   = Some (i, m1)).
  { apply firstQueuedRow_the; [|done..]. unfold queuedCount in Hc1. lia. }
  eexists _, db1, _, (markDiscarded now2 m1).
  split; [exact Hrun|].
  rewrite discardQueuedMessage_cases, Hfirst. split; [reflexivity|].
  cbn [efr_queuedMessageId queuedMessages setRows queuedMessagesT qm_state
         qm_discardedAt qm_message markDiscarded].
  split; [by rewrite list_lookup_insert_eq by eauto using lookup_lt_Some|].
  do 3 (split; [done|]).
  assert (Hnone : firstQueuedRow (ef_sessionId args)
                    (<[i:=markDiscarded now2 m1]> (queuedMessages db1))
                  = None).
  { eapply dequeue_leaves_none; [|exact Hl1|exact Hq1|].
    - unfold queuedCount in Hc1. lia.
    - intros [_ Hst]. discriminate Hst. }
  split.
  - rewrite getQueueStatus_cases.
    cbn [queuedMessages setRows queuedMessagesT]. by rewrite Hnone.
  - intros now3. rewrite consumeQueuedMessage_cases.
    cbn [queuedMessages setRows queuedMessagesT]. by rewrite Hnone.
Qed.

Lemma enqueue_then_discard_witness :
  exists r db1 db2,
    enqueueFollowUp 10
      (mkEnqueueFollowUpArgs 0 "and bump version" None None None)
      exampleQueueDb = inr (r, db1)
    /\ discardQueuedMessage 20 0 db1 = inr (StatusEmpty, db2)
    /\ consumeQueuedMessage 30 0 db2 = inr (StatusEmpty, db2).
Proof.
  destruct (enqueue_then_discard 10
              (mkEnqueueFollowUpArgs 0 "and bump version" None None None)
              20 exampleQueueDb ltac:(vm_compute; lia))
    as (r & db1 & db2 & m & Hrun & Hdiscard & _ & _ & _ & _ & _ & Hconsume).
  exists r, db1, db2. split; [exact Hrun|]. split; [exact Hdiscard|].
  apply Hconsume.
Defined.

(** One queue mutation writes to no row that has left the queued state. *)
Lemma applyQueueOp_keeps_settled db op i m :
  queuedMessages db !! i = Some m -> qm_state m <> QQueued ->
  queuedMessages (applyQueueOp db op) !! i = Some m.
Proof.
  intros Hl Hst. pose proof (lookup_lt_Some _ _ _ Hl) as Hlt.
  assert (Hother : forall sid j m',
             firstQueuedRow sid (queuedMessages db) = Some (j, m') -> j <> i).
  { intros sid j m' E ->. apply firstQueuedRow_Some in E as [Hl' [_ Hq]].
    congruence. }
  destruct op as [now args|now sid|now sid]; unfold applyQueueOp, runMutation.
  - rewrite enqueueFollowUp_cases.
    destruct (firstQueuedRow _ _) as [[j m']|] eqn:E; cbn.
    + rewrite list_lookup_insert_ne; [done|]. by eapply Hother.
    + by rewrite lookup_app_l.
  - rewrite consumeQueuedMessage_cases.
    destruct (firstQueuedRow _ _) as [[j m']|] eqn:E; cbn; [|done].
    rewrite list_lookup_insert_ne; [done|]. by eapply Hother.
  - rewrite discardQueuedMessage_cases.
    destruct (firstQueuedRow _ _) as [[j m']|] eqn:E; cbn; [|done].
    rewrite list_lookup_insert_ne; [done|]. by eapply Hother.
Qed.

(** X8.  Consumed and discarded rows are history: no sequence of
    [enqueueFollowUp], [consumeQueuedMessage] and [discardQueuedMessage]
    mutations changes one. *)
Theorem settled_messages_are_kept ops db i m :
  queuedMessages db !! i = Some m -> qm_state m <> QQueued ->
  queuedMessages (applyQueueOps ops db) !! i = Some m.
Proof.
  unfold applyQueueOps. revert db.
  induction ops as [|op ops IH]; intros db Hl Hst; [done|].
  cbn. apply IH; [|done]. by apply applyQueueOp_keeps_settled.
Qed.

Lemma settled_messages_are_kept_witness :
  queuedMessages
    (applyQueueOps
       [OpEnqueue 10 (mkEnqueueFollowUpArgs 0 "again" None None None);
        OpConsume 11 0;
        OpDiscard 12 1]
       exampleQueueDb) !! 0%nat
  = Some (exampleQueuedMessage 0 "also update README" QConsumed).
Proof.
  apply (settled_messages_are_kept
           [OpEnqueue 10 (mkEnqueueFollowUpArgs 0 "again" None None None);
            OpConsume 11 0;
            OpDiscard 12 1]
           exampleQueueDb 0%nat
           (exampleQueuedMessage 0 "also update README" QConsumed)).
  - reflexivity.
  - discriminate.
Defined.

(** ** [Array.prototype.sort] *)

Section array_sort.
Context {A : Type} (compare : A -> A -> Z).

(** The comparator puts any two rows in some order. *)
Hypothesis compare_total :
  forall a b, compare a b <= 0 \/ compare b a <= 0.

Lemma insertSorted_Permutation a (l : list A) :
  insertSorted compare a l ≡ₚ a :: l.
Proof.
  induction l as [|b l IH]; cbn; [done|].
  destruct (compare a b <=? 0); [done|].
  rewrite IH. apply Permutation_swap.
Qed.

Lemma arraySort_Permutation (l : list A) : arraySort compare l ≡ₚ l.
Proof.
  induction l as [|a l IH]; cbn; [done|].
  by rewrite insertSorted_Permutation, IH.
Qed.

Lemma insertSorted_HdRel a b (l : list A) :
  compare b a <= 0 ->
  HdRel (fun x y => compare x y <= 0) b l ->
  HdRel (fun x y => compare x y <= 0) b (insertSorted compare a l).
Proof.
  intros Hba Hhd. destruct l as [|c l]; cbn; [by constructor|].
  destruct (compare a c <=? 0); constructor; [done|].
  by inversion Hhd.
Qed.

Lemma insertSorted_Sorted a (l : list A) :
  Sorted (fun x y => compare x y <= 0) l ->
  Sorted (fun x y => compare x y <= 0) (insertSorted compare a l).
Proof.
  induction 1 as [|b l Hsorted IH Hhd]; cbn.
  - by repeat constructor.
  - destruct (compare a b <=? 0) eqn:E.
    + apply Z.leb_le in E. by repeat constructor.
    + apply Z.leb_gt in E. constructor; [exact IH|].
      apply insertSorted_HdRel; [|done].
      destruct (compare_total a b); lia.
Qed.

Lemma arraySort_Sorted (l : list A) :
  Sorted (fun x y => compare x y <= 0) (arraySort compare l).
Proof.
  induction l as [|a l IH]; cbn; [constructor|].
  by apply insertSorted_Sorted.
Qed.
End array_sort.

(** ** Workspaces *)

Lemma compareWorkspaces_pinnedFirst a b :
  compareWorkspaces a b <= 0 <-> pinnedFirst a b.
Proof.
  unfold compareWorkspaces, pinnedFirst. case_bool_decide as Heq.
  - split.
    + intros Hle. left. split; [done|lia].
    + intros [[_ Hle]|[Ha Hb]]; [lia|congruence].
  - destruct (ws_pinned a.2) eqn:Ea.
    + split; [|lia]. intros _. right. split; [done|].
      destruct (ws_pinned b.2); [done|reflexivity].
    + split; [lia|]. intros [[Hab _]|[Ha _]]; congruence.
Qed.

Lemma compareWorkspaces_total a b :
  compareWorkspaces a b <= 0 \/ compareWorkspaces b a <= 0.
Proof.
  rewrite !compareWorkspaces_pinnedFirst. unfold pinnedFirst.
  destruct (Z.le_gt_cases (ws_updatedAt b.2) (ws_updatedAt a.2)).
  - destruct (ws_pinned a.2), (ws_pinned b.2);
      [left; left|left; right|right; right|left; left]; done.
  - destruct (ws_pinned a.2), (ws_pinned b.2);
      [right; left|left; right|right; right|right; left];
      (split; [done|]); done || lia.
Qed.

Lemma compareWorkspaces_trans :
  Transitive (fun a b => compareWorkspaces a b <= 0).
Proof.
  intros a b c. rewrite !compareWorkspaces_pinnedFirst. unfold pinnedFirst.
  intros [[Hab Hab']|[Ha Hb]] [[Hbc Hbc']|[Hb' Hc]].
  - left. split; [congruence|lia].
  - right. split; congruence.
  - right. split; congruence.
  - congruence.
Qed.

Lemma listWorkspacesByOwner_cases ownerUserId archived db :
  listWorkspacesByOwner ownerUserId archived db
  = inr (arraySort compareWorkspaces
           (orderDesc ws_updatedAt
              (filter (fun d => ownedBy ownerUserId (default false archived)
                                  d.2)
                 (imap pair (workspaces db)))), db).
Proof. reflexivity. Qed.

Lemma listWorkspacesByOwner_elem ownerUserId archived db rows i w :
  listWorkspacesByOwner ownerUserId archived db = inr (rows, db) ->
  (i, w) ∈ rows
  <-> workspaces db !! i = Some w
      /\ ws_ownerUserId w = ownerUserId
      /\ ws_archived w = default false archived.
Proof.
  rewrite listWorkspacesByOwner_cases. intros [= <-].
  rewrite (arraySort_Permutation compareWorkspaces), orderDesc_elem.
  apply (matches_elem (ownedBy ownerUserId (default false archived))).
Qed.

Lemma listWorkspacesByOwner_sorted ownerUserId archived db rows :
  listWorkspacesByOwner ownerUserId archived db = inr (rows, db) ->
  StronglySorted
    (fun a b =>
       (ws_pinned a.2 = false -> ws_pinned b.2 = false)
       /\ (ws_pinned a.2 = ws_pinned b.2 ->
           ws_updatedAt b.2 <= ws_updatedAt a.2)) rows.
Proof.
  rewrite listWorkspacesByOwner_cases. intros [= <-].
  apply (StronglySorted_weaken (fun a b => compareWorkspaces a b <= 0)).
  { intros a b Hab. apply compareWorkspaces_pinnedFirst in Hab.
    destruct Hab as [[Heq Hle]|[Ha Hb]]; split; congruence || done. }
  apply Sorted_StronglySorted; [apply compareWorkspaces_trans|].
  apply arraySort_Sorted, compareWorkspaces_total.
Qed.

Lemma StronglySorted_lookup {A} (R : relation A) (l : list A) i j a b :
  StronglySorted R l -> (i < j)%nat ->
  l !! i = Some a -> l !! j = Some b -> R a b.
Proof.
  intros Hs. revert i j.
  induction Hs as [|x l _ IH Hall]; intros i j Hij Hi Hj; [done|].
  destruct j as [|j]; [lia|]. cbn in Hj. destruct i as [|i]; cbn in Hi.
  - injection Hi as ->. eapply Forall_forall in Hall; [exact Hall|].
    by eapply list_elem_of_lookup_2.
  - apply (IH i j); [lia|done..].
Qed.

(** X9.  [listWorkspacesByOwner] never throws and does not write.  It returns
    the stored workspaces of the owner with the requested archived flag,
    not archived when the flag is omitted, each once; every pinned
    workspace stands before every workspace that is not pinned, and among
    equally pinned ones the later [updatedAt] stands first. *)
Theorem listWorkspacesByOwner_lists ownerUserId archived db :
  exists rows,
    listWorkspacesByOwner ownerUserId archived db = inr (rows, db)
    /\ (forall i w,
          (i, w) ∈ rows
          <-> workspaces db !! i = Some w
              /\ ws_ownerUserId w = ownerUserId
              /\ ws_archived w = default false archived)
    /\ NoDup rows
    /\ StronglySorted
         (fun a b =>
            (ws_pinned a.2 = false -> ws_pinned b.2 = false)
            /\ (ws_pinned a.2 = ws_pinned b.2 ->
                ws_updatedAt b.2 <= ws_updatedAt a.2)) rows.
Proof.
  eexists. split; [apply listWorkspacesByOwner_cases|].
  split; [|split].
  - intros i w. by apply listWorkspacesByOwner_elem.
  - rewrite (arraySort_Permutation compareWorkspaces).
    unfold orderDesc. rewrite merge_sort_Permutation.
    apply (matches_NoDup (ownedBy ownerUserId (default false archived))).
  - eapply listWorkspacesByOwner_sorted, listWorkspacesByOwner_cases.
Qed.

Lemma updateWorkspace_cases now args db :
  updateWorkspace now args db
  = match workspaces db !! uw_workspaceId args with
    | None => inl (WorkspaceNotFound (uw_workspaceId args))
    | Some workspace =>
      inr ({| uwr_workspaceId := uw_workspaceId args; uwr_updatedAt := now |},
           setRows workspacesT
             (<[uw_workspaceId args := updatedWorkspace now args workspace]>
                (workspaces db)) db)
    end.
Proof.
  unfold updateWorkspace, bind, db_get, db_patch, throw, ret. cbn.
  destruct (workspaces db !! uw_workspaceId args) as [w|] eqn:Hw;
    [|reflexivity].
  cbn. by rewrite Hw.
Qed.

(** X10.  [updateWorkspace] stores every field that the call passes, [false]
    included, and keeps every field that it omits; so it cannot clear the
    pointers to the active session and the active repository.  Owner,
    organization, project, branch and [createdAt] are never changed, nor is
    any other document.  On a missing workspace it throws and commits
    nothing. *)
Theorem updateWorkspace_updates now args db :
  (forall workspace,
     workspaces db !! uw_workspaceId args = Some workspace ->
     exists db' workspace',
       updateWorkspace now args db
       = inr ({| uwr_workspaceId := uw_workspaceId args;
                 uwr_updatedAt := now |}, db')
       /\ workspaces db' !! uw_workspaceId args = Some workspace'
       /\ ws_name workspace' = default (ws_name workspace) (uw_name args)
       /\ ws_archived workspace'
          = default (ws_archived workspace) (uw_archived args)
       /\ ws_pinned workspace'
          = default (ws_pinned workspace) (uw_pinned args)
       /\ ws_status workspace'
          = default (ws_status workspace) (uw_status args)
       /\ ws_activeSessionId workspace'
          = uw_activeSessionId args ?? ws_activeSessionId workspace
       /\ ws_activeWorkspaceRepoId workspace'
          = uw_activeWorkspaceRepoId args
            ?? ws_activeWorkspaceRepoId workspace
       /\ (is_Some (ws_activeSessionId workspace) ->
           is_Some (ws_activeSessionId workspace'))
       /\ (is_Some (ws_activeWorkspaceRepoId workspace) ->
           is_Some (ws_activeWorkspaceRepoId workspace'))
       /\ ws_ownerUserId workspace' = ws_ownerUserId workspace
       /\ ws_organizationId workspace' = ws_organizationId workspace
       /\ ws_projectId workspace' = ws_projectId workspace
       /\ ws_branch workspace' = ws_branch workspace
       /\ ws_createdAt workspace' = ws_createdAt workspace
       /\ ws_updatedAt workspace' = now
       /\ (forall j, j <> uw_workspaceId args ->
             workspaces db' !! j = workspaces db !! j)
       /\ sessions db' = sessions db
       /\ workspaceRepos db' = workspaceRepos db
       /\ executionProcesses db' = executionProcesses db)
  /\ (workspaces db !! uw_workspaceId args = None ->
      runMutation (updateWorkspace now args) db
      = (db, inl (WorkspaceNotFound (uw_workspaceId args)))).
Proof.
  split.
  - intros workspace Hw. eexists _, _.
    rewrite updateWorkspace_cases, Hw. split; [reflexivity|]. cbn.
    rewrite list_lookup_insert_eq by eauto using lookup_lt_Some.
    split; [reflexivity|]. cbn. do 6 (split; [reflexivity|]).
    split; [|split].
    + intros [s Hs]. rewrite Hs. by destruct (uw_activeSessionId args).
    + intros [r Hr]. rewrite Hr. by destruct (uw_activeWorkspaceRepoId args).
    + repeat split. intros j Hj. by rewrite list_lookup_insert_ne.
  - intros Hw. unfold runMutation. by rewrite updateWorkspace_cases, Hw.
Qed.

Lemma updateWorkspace_updates_witness :
  let db := exampleDb ExRunning None in
  (exists db' workspace',
     updateWorkspace 10
       (mkUpdateWorkspaceArgs 0 (Some "renamed") None (Some false) None None
          None) db
     = inr (mkUpdateWorkspaceResult 0 10, db')
     /\ workspaces db' !! 0%nat = Some workspace'
     /\ ws_name workspace' = "renamed"
     /\ ws_pinned workspace' = false
     /\ ws_activeSessionId workspace' = Some 0%nat)
  /\ runMutation
       (updateWorkspace 10
          (mkUpdateWorkspaceArgs 5 None None None None None None)) db
     = (db, inl (WorkspaceNotFound 5)).
Proof.
  cbn zeta. split.
  - destruct (proj1 (updateWorkspace_updates 10
                (mkUpdateWorkspaceArgs 0 (Some "renamed") None (Some false)
                   None None None)
                (exampleDb ExRunning None)) exampleWorkspace eq_refl)
      as (db' & workspace' & Hrun & Hl & Hname & _ & Hpinned & _ & Hsession
          & _).
    exists db', workspace'. repeat split; assumption.
  - apply (proj2 (updateWorkspace_updates 10
                    (mkUpdateWorkspaceArgs 5 None None None None None None)
                    (exampleDb ExRunning None))).
    reflexivity.
Defined.

(** X11.  A workspace that [updateWorkspace] archives leaves the default listing
    of its owner and enters the listing of the archived workspaces. *)
Theorem archived_workspace_changes_listing now args db workspace :
  workspaces db !! uw_workspaceId args = Some workspace ->
  uw_archived args = Some true ->
  exists r db' rows archivedRows workspace',
    updateWorkspace now args db = inr (r, db')
    /\ listWorkspacesByOwner (ws_ownerUserId workspace) None db'
       = inr (rows, db')
    /\ (forall w, (uw_workspaceId args, w) ∉ rows)
    /\ listWorkspacesByOwner (ws_ownerUserId workspace) (Some true) db'
       = inr (archivedRows, db')
    /\ (uw_workspaceId args, workspace') ∈ archivedRows
    /\ workspaces db' !! uw_workspaceId args = Some workspace'.
Proof.
  intros Hw Harchived. rewrite updateWorkspace_cases, Hw.
  eexists _, _, _, _, (updatedWorkspace now args workspace).
  split; [reflexivity|]. split; [apply listWorkspacesByOwner_cases|].
  assert (Hl : workspaces
                 (setRows workspacesT
                    (<[uw_workspaceId args :=
                         updatedWorkspace now args workspace]>
                       (workspaces db)) db) !! uw_workspaceId args
               = Some (updatedWorkspace now args workspace)).
  { cbn. by rewrite list_lookup_insert_eq by eauto using lookup_lt_Some. }
  split; [|split; [apply listWorkspacesByOwner_cases|split; [|exact Hl]]].
  - intros w Hin.
    eapply listWorkspacesByOwner_elem in Hin as (Hl' & _ & Hnot);
      [|apply listWorkspacesByOwner_cases].
    rewrite Hl in Hl'. injection Hl' as <-.
    cbn in Hnot. rewrite Harchived in Hnot. discriminate.
  - eapply listWorkspacesByOwner_elem; [apply listWorkspacesByOwner_cases|].
    split; [exact Hl|]. cbn. by rewrite Harchived.
Qed.

Lemma archived_workspace_changes_listing_witness :
  exists r db' rows archivedRows,
    updateWorkspace 10
      (mkUpdateWorkspaceArgs 0 None (Some true) None None None None)
      (exampleDb ExRunning None) = inr (r, db')
    /\ listWorkspacesByOwner "user_1" None db' = inr (rows, db')
    /\ (forall w, (0%nat, w) ∉ rows)
    /\ listWorkspacesByOwner "user_1" (Some true) db'
       = inr (archivedRows, db').
Proof.
  destruct (archived_workspace_changes_listing 10
              (mkUpdateWorkspaceArgs 0 None (Some true) None None None None)
              (exampleDb ExRunning None) exampleWorkspace eq_refl eq_refl)
    as (r & db' & rows & archivedRows & workspace' & Hrun & Hrows & Hnot
        & Harchived & _).
  exists r, db', rows, archivedRows. repeat split; assumption.
Defined.

(** X12.  [getWorkspace] returns the workspace that [createWorkspace] has just
    created: idle, not archived, not pinned, with the name, branch and
    owner of the call, and pointing to the session and to the first
    repository that [createWorkspace] returned.  For an id that is not
    stored it returns [null]. *)
Theorem getWorkspace_after_createWorkspace now args db :
  (cw_repos args <> [] ->
   exists r db' workspace first,
     createWorkspace now args db = inr (r, db')
     /\ getWorkspace (cwr_workspaceId r) db'
        = inr (Some (cwr_workspaceId r, workspace), db')
     /\ ws_ownerUserId workspace = cw_ownerUserId args
     /\ ws_name workspace = cw_name args
     /\ ws_branch workspace = cw_branch args
     /\ ws_status workspace = StIdle
     /\ ws_archived workspace = false
     /\ ws_pinned workspace = false
     /\ ws_activeSessionId workspace = Some (cwr_sessionId r)
     /\ cwr_workspaceRepoIds r !! 0%nat = Some first
     /\ ws_activeWorkspaceRepoId workspace = Some first)
  /\ (forall workspaceId,
        workspaces db !! workspaceId = None ->
        getWorkspace workspaceId db = inr (None, db)).
Proof.
  split.
  - intros Hrepos. eexists _, _, _, (length (workspaceRepos db)).
    split; [exact (createWorkspace_runs now args db Hrepos)|].
    unfold getWorkspace, bind, db_get, ret. cbn.
    rewrite lookup_app_r, Nat.sub_diag by done. cbn.
    split; [reflexivity|]. do 7 (split; [reflexivity|]).
    destruct (cw_repos args); [done|]. by split.
  - intros workspaceId Hw. unfold getWorkspace, bind, db_get, ret. cbn.
    by rewrite Hw.
Qed.

Lemma getWorkspace_after_createWorkspace_witness :
  let args :=
    mkCreateWorkspaceArgs "user_1" None None "W2" "feat/y"
      [mkWorkspaceInput "repo_app" "app" "main" None None] None in
  (exists r db' workspace,
     createWorkspace 10 args (exampleDb ExRunning None) = inr (r, db')
     /\ getWorkspace (cwr_workspaceId r) db'
        = inr (Some (cwr_workspaceId r, workspace), db')
     /\ ws_name workspace = "W2"
     /\ ws_status workspace = StIdle)
  /\ getWorkspace 9 (exampleDb ExRunning None)
     = inr (None, exampleDb ExRunning None).
Proof.
  cbn zeta. split.
  - destruct (proj1 (getWorkspace_after_createWorkspace 10
                (mkCreateWorkspaceArgs "user_1" None None "W2" "feat/y"
                   [mkWorkspaceInput "repo_app" "app" "main" None None] None)
                (exampleDb ExRunning None)) ltac:(discriminate))
      as (r & db' & workspace & first & Hrun & Hget & _ & Hname & _ & Hstatus
          & _).
    exists r, db', workspace. repeat split; assumption.
  - apply (proj2 (getWorkspace_after_createWorkspace 10
                    (mkCreateWorkspaceArgs "user_1" None None "W2" "feat/y"
                       [] None)
                    (exampleDb ExRunning None))).
    reflexivity.
Defined.

(** X13.  A workspace that [updateWorkspace] pins stands, in the listing of its
    owner, before every workspace that is not pinned. *)
Theorem pinned_workspace_is_listed_first now args db workspace :
  workspaces db !! uw_workspaceId args = Some workspace ->
  uw_pinned args = Some true ->
  exists r db' rows k workspace',
    updateWorkspace now args db = inr (r, db')
    /\ listWorkspacesByOwner (ws_ownerUserId workspace)
         (Some (default (ws_archived workspace) (uw_archived args))) db'
       = inr (rows, db')
    /\ rows !! k = Some (uw_workspaceId args, workspace')
    /\ ws_pinned workspace' = true
    /\ (forall k' j w,
          rows !! k' = Some (j, w) -> ws_pinned w = false -> (k < k')%nat).
Proof.
  intros Hw Hpinned. rewrite updateWorkspace_cases, Hw.
  set (db' := setRows workspacesT _ db).
  set (archived := default (ws_archived workspace) (uw_archived args)).
  destruct (listWorkspacesByOwner (ws_ownerUserId workspace) (Some archived)
              db') as [e|[rows db'']] eqn:Hlist; [done|].
  assert (Hdb : db'' = db') by (by injection Hlist). subst db''.
  assert (Hin : (uw_workspaceId args, updatedWorkspace now args workspace)
                ∈ rows).
  { eapply listWorkspacesByOwner_elem; [exact Hlist|].
    split; [|done]. cbn.
    by rewrite list_lookup_insert_eq by eauto using lookup_lt_Some. }
  apply list_elem_of_lookup in Hin as [k Hk].
  exists (mkUpdateWorkspaceResult (uw_workspaceId args) now), db', rows, k,
    (updatedWorkspace now args workspace).
  split; [reflexivity|]. split; [exact Hlist|]. split; [exact Hk|].
  assert (Htrue : ws_pinned (updatedWorkspace now args workspace) = true)
    by (cbn; by rewrite Hpinned).
  split; [exact Htrue|].
  intros k' j w Hk' Hfalse.
  pose proof (listWorkspacesByOwner_sorted _ _ _ _ Hlist) as Hsorted.
  destruct (Nat.lt_trichotomy k' k) as [Hlt|[Heq|Hgt]]; [| |done].
  2:{ subst k'. rewrite Hk in Hk'. injection Hk' as _ <-.
      rewrite Htrue in Hfalse. discriminate. }
  destruct (StronglySorted_lookup _ _ _ _ _ _ Hsorted Hlt Hk' Hk)
    as [Hpin _]. cbn [snd] in Hpin. specialize (Hpin Hfalse).
  rewrite Htrue in Hpin. discriminate.
Qed.

Lemma pinned_workspace_is_listed_first_witness :
  exists r db' rows k workspace',
    updateWorkspace 10
      (mkUpdateWorkspaceArgs 0 None None (Some true) None None None)
      (exampleDb ExRunning None) = inr (r, db')
    /\ listWorkspacesByOwner "user_1" (Some false) db' = inr (rows, db')
    /\ rows !! k = Some (0%nat, workspace')
    /\ ws_pinned workspace' = true.
Proof.
  destruct (pinned_workspace_is_listed_first 10
              (mkUpdateWorkspaceArgs 0 None None (Some true) None None None)
              (exampleDb ExRunning None) exampleWorkspace eq_refl eq_refl)
    as (r & db' & rows & k & workspace' & Hrun & Hrows & Hk & Hpinned & _).
  exists r, db', rows, k, workspace'. repeat split; assumption.
Defined.

(** ** Sessions *)

Lemma createSession_cases now workspaceId title db :
  createSession now workspaceId title db
  = match workspaces db !! workspaceId with
    | None => inl (WorkspaceNotFound workspaceId)
    | Some w =>
      inr ({| csr_sessionId := length (sessions db);
              csr_workspaceId := workspaceId;
              csr_lastUsedAt := now |},
           {| workspaces :=
                <[workspaceId :=
                    {| ws_ownerUserId := ws_ownerUserId w;
                       ws_organizationId := ws_organizationId w;
                       ws_projectId := ws_projectId w;
                       ws_name := ws_name w;
                       ws_branch := ws_branch w;
                       ws_status := ws_status w;
                       ws_archived := ws_archived w;
                       ws_pinned := ws_pinned w;
                       ws_activeSessionId := Some (length (sessions db));
                       ws_activeWorkspaceRepoId := ws_activeWorkspaceRepoId w;
                       ws_createdAt := ws_createdAt w;
                       ws_updatedAt := now |}]> (workspaces db);
              workspaceRepos := workspaceRepos db;
              sessions :=
                sessions db
                  ++ [{| se_workspaceId := workspaceId;
                         se_title := title;
                         se_status := StIdle;
                         se_lastUsedAt := now;
                         se_createdAt := now;
                         se_updatedAt := now |}];
              executionProcesses := executionProcesses db;
              executionProcessRepoStates := executionProcessRepoStates db;
              queuedMessages := queuedMessages db |})
    end.
Proof.
  unfold createSession, bind, db_get, db_insert, db_patch, throw, ret. cbn.
  destruct (workspaces db !! workspaceId) as [w|] eqn:Hw; [|reflexivity].
  cbn. by rewrite Hw.
Qed.

(** X14.  On an existing workspace [createSession] appends one idle session of
    that workspace, last used at the time of the call, returns its id and
    makes it the active session of the workspace; it leaves the status and
    the active repository of the workspace and every other session as they
    are.  On a missing workspace it throws and commits nothing. *)
Theorem createSession_creates now workspaceId title db :
  (forall workspace,
     workspaces db !! workspaceId = Some workspace ->
     exists r db' session workspace',
       createSession now workspaceId title db = inr (r, db')
       /\ csr_sessionId r = length (sessions db)
       /\ csr_lastUsedAt r = now
       /\ sessions db' = sessions db ++ [session]
       /\ se_workspaceId session = workspaceId
       /\ se_title session = title
       /\ se_status session = StIdle
       /\ se_lastUsedAt session = now
       /\ workspaces db' !! workspaceId = Some workspace'
       /\ ws_activeSessionId workspace' = Some (csr_sessionId r)
       /\ ws_status workspace' = ws_status workspace
       /\ ws_activeWorkspaceRepoId workspace'
          = ws_activeWorkspaceRepoId workspace
       /\ (forall j, j <> workspaceId ->
             workspaces db' !! j = workspaces db !! j)
       /\ executionProcesses db' = executionProcesses db)
  /\ (workspaces db !! workspaceId = None ->
      runMutation (createSession now workspaceId title) db
      = (db, inl (WorkspaceNotFound workspaceId))).
Proof.
  split.
  - intros workspace Hw. eexists _, _, _, _.
    rewrite createSession_cases, Hw. split; [reflexivity|]. cbn.
    rewrite list_lookup_insert_eq by eauto using lookup_lt_Some.
    repeat split. intros j Hj. by rewrite list_lookup_insert_ne.
  - intros Hw. unfold runMutation. by rewrite createSession_cases, Hw.
Qed.

Lemma createSession_creates_witness :
  let db := exampleDb ExRunning None in
  (exists r db' session,
     createSession 10 0 (Some "third") db = inr (r, db')
     /\ csr_sessionId r = 2%nat
     /\ sessions db' = sessions db ++ [session]
     /\ se_status session = StIdle)
  /\ runMutation (createSession 10 6 None) db
     = (db, inl (WorkspaceNotFound 6)).
Proof.
  cbn zeta. split.
  - destruct (proj1 (createSession_creates 10 0 (Some "third")
                       (exampleDb ExRunning None)) exampleWorkspace eq_refl)
      as (r & db' & session & workspace' & Hrun & Hid & _ & Hsessions & _
          & _ & Hstatus & _).
    exists r, db', session. repeat split; assumption.
  - apply (proj2 (createSession_creates 10 6 None
                    (exampleDb ExRunning None))).
    reflexivity.
Defined.

Lemma listSessionsByWorkspace_cases workspaceId db :
  listSessionsByWorkspace workspaceId db
  = inr (orderDesc se_lastUsedAt
           (filter (fun d => sessionOf workspaceId d.2)
              (imap pair (sessions db))), db).
Proof. reflexivity. Qed.

(** X15.  [listSessionsByWorkspace] never throws and does not write.  It returns
    the stored sessions of the workspace, each once, the one used last
    first. *)
Theorem listSessionsByWorkspace_lists workspaceId db :
  exists rows,
    listSessionsByWorkspace workspaceId db = inr (rows, db)
    /\ (forall i s,
          (i, s) ∈ rows
          <-> sessions db !! i = Some s /\ se_workspaceId s = workspaceId)
    /\ NoDup rows
    /\ StronglySorted
         (fun d1 d2 => se_lastUsedAt d2.2 <= se_lastUsedAt d1.2) rows.
Proof.
  eexists. split; [apply listSessionsByWorkspace_cases|].
  split; [|split].
  - intros i s. rewrite orderDesc_elem.
    apply (matches_elem (sessionOf workspaceId)).
  - unfold orderDesc. rewrite merge_sort_Permutation.
    apply (matches_NoDup (sessionOf workspaceId)).
  - apply orderDesc_keys.
Qed.

Lemma touchSession_cases now sessionId db :
  touchSession now sessionId db
  = match sessions db !! sessionId with
    | None => inl (SessionNotFound sessionId)
    | Some s =>
      inr ((sessionId, now),
           setRows sessionsT
             (<[sessionId :=
                  {| se_workspaceId := se_workspaceId s;
                     se_title := se_title s;
                     se_status := se_status s;
                     se_lastUsedAt := now;
                     se_createdAt := se_createdAt s;
                     se_updatedAt := now |}]> (sessions db)) db)
    end.
Proof.
  unfold touchSession, bind, db_get, db_patch, throw, ret. cbn.
  destruct (sessions db !! sessionId) as [s|] eqn:Hs; [|reflexivity].
  cbn. by rewrite Hs.
Qed.

(** X16.  On an existing session [touchSession] succeeds: it sets
    [lastUsedAt] to the time of the call and keeps the status, the title and
    the workspace of the session, every other session and the workspaces.
    When the time of the call is later than the last use of every other
    session of the workspace, [listSessionsByWorkspace] lists the touched
    session first.  On a missing session it throws and commits nothing. *)
Theorem touchSession_moves_to_front now sessionId db :
  (forall session,
     sessions db !! sessionId = Some session ->
     exists db' session',
       touchSession now sessionId db = inr ((sessionId, now), db')
       /\ sessions db' !! sessionId = Some session'
       /\ se_status session' = se_status session
       /\ se_title session' = se_title session
       /\ se_workspaceId session' = se_workspaceId session
       /\ se_lastUsedAt session' = now
       /\ (forall j, j <> sessionId ->
             sessions db' !! j = sessions db !! j)
       /\ workspaces db' = workspaces db
       /\ ((forall j s, j <> sessionId -> sessions db !! j = Some s ->
                        se_workspaceId s = se_workspaceId session ->
                        se_lastUsedAt s < now) ->
           exists rest,
             listSessionsByWorkspace (se_workspaceId session) db'
             = inr ((sessionId, session') :: rest, db')))
  /\ (sessions db !! sessionId = None ->
      runMutation (touchSession now sessionId) db
      = (db, inl (SessionNotFound sessionId))).
Proof.
  split.
  - intros session Hs.
    pose proof (lookup_lt_Some _ _ _ Hs) as Hlt.
    rewrite touchSession_cases, Hs.
    set (session' := {| se_workspaceId := se_workspaceId session;
                        se_title := se_title session;
                        se_status := se_status session;
                        se_lastUsedAt := now;
                        se_createdAt := se_createdAt session;
                        se_updatedAt := now |}).
    set (db' := setRows sessionsT (<[sessionId:=session']> (sessions db)) db).
    exists db', session'. split; [reflexivity|].
    split; [cbn; by rewrite list_lookup_insert_eq|].
    do 4 (split; [reflexivity|]).
    split; [intros j Hj; cbn; by rewrite list_lookup_insert_ne|].
    split; [reflexivity|].
    intros Hlater. rewrite listSessionsByWorkspace_cases.
    destruct (orderDesc_head se_lastUsedAt
                (filter (fun d => sessionOf (se_workspaceId session) d.2)
                   (imap pair (sessions db'))) (sessionId, session'))
      as [rest ->]; [| | |by exists rest].
    + apply (matches_idsDetermine (sessionOf (se_workspaceId session))).
    + apply (matches_elem (sessionOf (se_workspaceId session))).
      split; [|done]. cbn. by rewrite list_lookup_insert_eq.
    + intros [j s] Hd.
      apply (matches_elem (sessionOf (se_workspaceId session))) in Hd
          as [Hl Hws].
      cbn in Hl. unfold indexBefore. cbn.
      destruct (decide (j = sessionId)) as [->|Hne].
      * rewrite list_lookup_insert_eq in Hl by done. injection Hl as <-.
        cbn. lia.
      * rewrite list_lookup_insert_ne in Hl by done.
        pose proof (Hlater j s Hne Hl Hws). lia.
  - intros Hs. unfold runMutation. by rewrite touchSession_cases, Hs.
Qed.

Lemma touchSession_moves_to_front_witness :
  let db := exampleDb ExRunning None in
  (exists db' session' rest,
     touchSession 10 1 db = inr ((1%nat, 10), db')
     /\ se_status session' = StIdle
     /\ se_lastUsedAt session' = 10
     /\ workspaces db' = workspaces db
     /\ listSessionsByWorkspace 0 db' = inr ((1%nat, session') :: rest, db'))
  /\ runMutation (touchSession 10 8) db = (db, inl (SessionNotFound 8)).
Proof.
  cbn zeta. split.
  - destruct (proj1 (touchSession_moves_to_front 10 1
                       (exampleDb ExRunning None))
                (exampleSession "second") eq_refl)
      as (db' & session' & Hrun & _ & Hstatus & _ & _ & Hused & _ & Hws
          & Hlist).
    destruct Hlist as [rest Hlist].
    + intros j s Hne Hl _. destruct j as [|[|j]]; [|done|done].
      injection Hl as <-. cbn. lia.
    + exists db', session', rest. repeat split; assumption.
  - apply (proj2 (touchSession_moves_to_front 10 8
                    (exampleDb ExRunning None))).
    reflexivity.
Defined.

Lemma setSessionStatus_cases now sessionId status db :
  setSessionStatus now sessionId status db
  = match sessions db !! sessionId with
    | None => inl (SessionNotFound sessionId)
    | Some s =>
      inr ((sessionId, status, now),
           setRows sessionsT
             (<[sessionId :=
                  {| se_workspaceId := se_workspaceId s;
                     se_title := se_title s;
                     se_status := status;
                     se_lastUsedAt := now;
                     se_createdAt := se_createdAt s;
                     se_updatedAt := now |}]> (sessions db)) db)
    end.
Proof.
  unfold setSessionStatus, bind, db_get, db_patch, throw, ret. cbn.
  destruct (sessions db !! sessionId) as [s|] eqn:Hs; [|reflexivity].
  cbn. by rewrite Hs.
Qed.

(** X17.  [setSessionStatus] sets the status of one session and, unlike
    [setExecutionStatus], leaves the workspace as it is: the status of the
    workspace, every other session and every execution are unchanged.  It
    counts as a use of the session: when the time of the call is later than
    the last use of every other session of the workspace,
    [listSessionsByWorkspace] lists the session first.  On a missing session
    it throws and commits nothing. *)
Theorem setSessionStatus_sets_session_only now sessionId status db :
  (forall session,
     sessions db !! sessionId = Some session ->
     exists db' session',
       setSessionStatus now sessionId status db
       = inr ((sessionId, status, now), db')
       /\ sessions db' !! sessionId = Some session'
       /\ se_status session' = status
       /\ se_lastUsedAt session' = now
       /\ se_workspaceId session' = se_workspaceId session
       /\ se_title session' = se_title session
       /\ (forall j, j <> sessionId ->
             sessions db' !! j = sessions db !! j)
       /\ workspaces db' = workspaces db
       /\ executionProcesses db' = executionProcesses db
       /\ ((forall j s, j <> sessionId -> sessions db !! j = Some s ->
                        se_workspaceId s = se_workspaceId session ->
                        se_lastUsedAt s < now) ->
           exists rest,
             listSessionsByWorkspace (se_workspaceId session) db'
             = inr ((sessionId, session') :: rest, db')))
  /\ (sessions db !! sessionId = None ->
      runMutation (setSessionStatus now sessionId status) db
      = (db, inl (SessionNotFound sessionId))).
Proof.
  split.
  - intros session Hs. pose proof (lookup_lt_Some _ _ _ Hs) as Hlt.
    rewrite setSessionStatus_cases, Hs.
    set (session' := {| se_workspaceId := se_workspaceId session;
                        se_title := se_title session;
                        se_status := status;
                        se_lastUsedAt := now;
                        se_createdAt := se_createdAt session;
                        se_updatedAt := now |}).
    set (db' := setRows sessionsT (<[sessionId:=session']> (sessions db)) db).
    exists db', session'. split; [reflexivity|].
    split; [cbn; by rewrite list_lookup_insert_eq|].
    do 4 (split; [reflexivity|]).
    split; [intros j Hj; cbn; by rewrite list_lookup_insert_ne|].
    do 2 (split; [reflexivity|]).
    intros Hlater. rewrite listSessionsByWorkspace_cases.
    destruct (orderDesc_head se_lastUsedAt
                (filter (fun d => sessionOf (se_workspaceId session) d.2)
                   (imap pair (sessions db'))) (sessionId, session'))
      as [rest ->]; [| | |by exists rest].
    + apply (matches_idsDetermine (sessionOf (se_workspaceId session))).
    + apply (matches_elem (sessionOf (se_workspaceId session))).
      split; [|done]. cbn. by rewrite list_lookup_insert_eq.
    + intros [j s] Hd.
      apply (matches_elem (sessionOf (se_workspaceId session))) in Hd
          as [Hl Hws].
      cbn in Hl. unfold indexBefore. cbn.
      destruct (decide (j = sessionId)) as [->|Hne].
      * rewrite list_lookup_insert_eq in Hl by done. injection Hl as <-.
        cbn. lia.
      * rewrite list_lookup_insert_ne in Hl by done.
        pose proof (Hlater j s Hne Hl Hws). lia.
  - intros Hs. unfold runMutation. by rewrite setSessionStatus_cases, Hs.
Qed.

Lemma setSessionStatus_sets_session_only_witness :
  let db := exampleDb ExRunning None in
  (exists db' session',
     setSessionStatus 10 0 StError db = inr ((0%nat, StError, 10), db')
     /\ sessions db' !! 0%nat = Some session'
     /\ se_status session' = StError
     /\ workspaces db' = workspaces db)
  /\ runMutation (setSessionStatus 10 8 StError) db
     = (db, inl (SessionNotFound 8)).
Proof.
  cbn zeta. split.
  - destruct (proj1 (setSessionStatus_sets_session_only 10 0 StError
                       (exampleDb ExRunning None))
                (exampleSession "first") eq_refl)
      as (db' & session' & Hrun & Hl & Hstatus & _ & _ & _ & _ & Hws & _).
    exists db', session'. repeat split; assumption.
  - apply (proj2 (setSessionStatus_sets_session_only 10 8 StError
                    (exampleDb ExRunning None))).
    reflexivity.
Defined.

(** ** Workspace repositories *)

Lemma filter_all {A} (P : A -> Prop) `{!forall a, Decision (P a)}
    (l : list A) :
  (forall a, a ∈ l -> P a) -> filter P l = l.
Proof.
  induction l as [|a l IH]; intros Hall; [done|].
  rewrite filter_cons_True by (apply Hall; left).
  f_equal. apply IH. intros b Hb. apply Hall. by right.
Qed.

Lemma filter_none {A} (P : A -> Prop) `{!forall a, Decision (P a)}
    (l : list A) :
  (forall a, a ∈ l -> ~ P a) -> filter P l = [].
Proof.
  induction l as [|a l IH]; intros Hnone; [done|].
  rewrite filter_cons_False by (apply Hnone; left).
  apply IH. intros b Hb. apply Hnone. by right.
Qed.

Lemma imap_imap {A B C} (f : nat -> B -> C) (g : nat -> A -> B)
    (l : list A) :
  imap f (imap g l) = imap (fun i a => f i (g i a)) l.
Proof.
  revert f g. induction l as [|a l IH]; intros f g; [done|].
  cbn. f_equal. apply IH.
Qed.

(** Ordered at any two positions is ordered. *)
Lemma StronglySorted_from_lookup {A} (R : relation A) (l : list A) :
  (forall i j a b, (i < j)%nat -> l !! i = Some a -> l !! j = Some b ->
                   R a b) ->
  StronglySorted R l.
Proof.
  induction l as [|x l IH]; intros Hord; constructor.
  - apply IH. intros i j a b Hij Hi Hj. apply (Hord (S i) (S j)); [lia|done..].
  - apply Forall_forall. intros b Hb.
    apply list_elem_of_lookup in Hb as [j Hj].
    apply (Hord 0%nat (S j)); [lia|done..].
Qed.

Lemma listWorkspaceRepos_cases workspaceId enabledOnly db :
  listWorkspaceRepos workspaceId enabledOnly db
  = inr (orderAsc wr_sortOrder
           (if bool_decide (enabledOnly = Some true)
            then filter (fun d => enabledRepoOf workspaceId d.2)
                   (imap pair (workspaceRepos db))
            else filter (fun d => repoOf workspaceId d.2)
                   (imap pair (workspaceRepos db))), db).
Proof. unfold listWorkspaceRepos. by case_bool_decide. Qed.

Lemma listWorkspaceRepos_elem workspaceId enabledOnly db rows i repo :
  listWorkspaceRepos workspaceId enabledOnly db = inr (rows, db) ->
  (i, repo) ∈ rows
  <-> workspaceRepos db !! i = Some repo
      /\ wr_workspaceId repo = workspaceId
      /\ (enabledOnly = Some true -> wr_enabled repo = true).
Proof.
  rewrite listWorkspaceRepos_cases. intros [= <-]. rewrite orderAsc_elem.
  case_bool_decide as Honly.
  - rewrite (matches_elem (enabledRepoOf workspaceId)).
    unfold enabledRepoOf. split.
    + intros (Hl & Hw & He). done.
    + intros (Hl & Hw & He). split; [done|]. split; [done|]. by apply He.
  - rewrite (matches_elem (repoOf workspaceId)).
    unfold repoOf. split.
    + intros [Hl Hw]. done.
    + intros (Hl & Hw & _). done.
Qed.

(** X18.  [listWorkspaceRepos] never throws and does not write.  It returns the
    stored repositories of the workspace, only the enabled ones when
    [enabledOnly] is [true], each once, in ascending [sortOrder]. *)
Theorem listWorkspaceRepos_lists workspaceId enabledOnly db :
  exists rows,
    listWorkspaceRepos workspaceId enabledOnly db = inr (rows, db)
    /\ (forall i repo,
          (i, repo) ∈ rows
          <-> workspaceRepos db !! i = Some repo
              /\ wr_workspaceId repo = workspaceId
              /\ (enabledOnly = Some true -> wr_enabled repo = true))
    /\ NoDup rows
    /\ StronglySorted
         (fun d1 d2 => wr_sortOrder d1.2 <= wr_sortOrder d2.2) rows.
Proof.
  eexists. split; [apply listWorkspaceRepos_cases|]. split; [|split].
  - intros i repo.
    by eapply listWorkspaceRepos_elem, listWorkspaceRepos_cases.
  - unfold orderAsc. rewrite merge_sort_Permutation. case_bool_decide.
    + apply (matches_NoDup (enabledRepoOf workspaceId)).
    + apply (matches_NoDup (repoOf workspaceId)).
  - apply orderAsc_keys.
Qed.

(** X19.  When no repository of the call carries a [sortOrder] and no stored
    repository refers to a workspace that does not exist yet,
    [listWorkspaceRepos] on the workspace that [createWorkspace] has just
    created returns the new repositories in the order of the call, under
    the ids that [createWorkspace] returned. *)
Theorem createWorkspace_repos_are_listed_in_order now args db :
  cw_repos args <> [] ->
  (forall repo, repo ∈ cw_repos args -> wi_sortOrder repo = None) ->
  (forall r, r ∈ workspaceRepos db ->
             (wr_workspaceId r < length (workspaces db))%nat) ->
  exists r db' rows,
    createWorkspace now args db = inr (r, db')
    /\ listWorkspaceRepos (cwr_workspaceId r) None db' = inr (rows, db')
    /\ rows
       = imap (fun k repo =>
                 ((length (workspaceRepos db) + k)%nat,
                  workspaceRepoDoc now (cwr_workspaceId r) k repo))
           (cw_repos args)
    /\ fst <$> rows = cwr_workspaceRepoIds r
    /\ (fun d => wr_repoId d.2) <$> rows = wi_repoId <$> cw_repos args.
Proof.
  intros Hrepos Hnone Hrefs.
  eexists _, _, _. split; [exact (createWorkspace_runs now args db Hrepos)|].
  cbn [cwr_workspaceId cwr_workspaceRepoIds].
  set (wid := length (workspaces db)).
  set (len := length (workspaceRepos db)).
  set (rows := imap (fun k repo => ((len + k)%nat,
                                    workspaceRepoDoc now wid k repo))
                 (cw_repos args)).
  assert (Hlist : forall db0,
             workspaceRepos db0
             = workspaceRepos db
                 ++ imap (workspaceRepoDoc now wid) (cw_repos args) ->
             listWorkspaceRepos wid None db0 = inr (rows, db0)).
  { intros db0 Hdb0. rewrite listWorkspaceRepos_cases.
    rewrite bool_decide_eq_false_2 by done. rewrite Hdb0.
    rewrite imap_app, filter_app.
    rewrite (filter_none (fun d => repoOf wid d.2)).
    2:{ intros [i repo] Hd Hq.
        apply elem_of_lookup_imap in Hd as (j & repo' & [= -> ->] & Hl).
        assert (wr_workspaceId repo' < wid)%nat
          by (apply Hrefs; by eapply list_elem_of_lookup_2).
        unfold repoOf in Hq. cbn in Hq. lia. }
    rewrite (filter_all (fun d => repoOf wid d.2)).
    2:{ intros [i repo] Hd.
        apply elem_of_lookup_imap in Hd as (j & repo' & [= -> ->] & Hl).
        rewrite list_lookup_imap in Hl.
        destruct (cw_repos args !! j) as [input|]; [|done].
        by injection Hl as <-. }
    cbn [app]. rewrite imap_imap. fold len.
    f_equal. f_equal. apply orderAsc_sorted_id.
    - intros [i a] [j b] Hi Hj. cbn. intros ->.
      apply elem_of_lookup_imap in Hi as (k1 & r1 & [= Hk1 ->] & Hl1).
      apply elem_of_lookup_imap in Hj as (k2 & r2 & [= Hk2 ->] & Hl2).
      assert (k1 = k2) as -> by lia. congruence.
    - apply StronglySorted_Sorted, StronglySorted_from_lookup.
      intros i j a b Hij Hi Hj. unfold rows in Hi, Hj.
      rewrite list_lookup_imap in Hi, Hj.
      destruct (cw_repos args !! i) as [ri|] eqn:Ei; [|done].
      destruct (cw_repos args !! j) as [rj|] eqn:Ej; [|done].
      injection Hi as <-. injection Hj as <-.
      unfold indexBefore. cbn.
      rewrite (Hnone ri), (Hnone rj) by (by eapply list_elem_of_lookup_2).
      cbn. lia. }
  split; [by apply Hlist|]. split; [reflexivity|]. split.
  - unfold rows. rewrite fmap_imap.
    rewrite (imap_ext _ (fun k _ => id (len + k)%nat)) by done.
    by rewrite imap_seq, list_fmap_id.
  - unfold rows. rewrite fmap_imap.
    rewrite (imap_ext _ (const wi_repoId)) by done.
    by rewrite imap_const.
Qed.

Lemma createWorkspace_repos_are_listed_in_order_witness :
  let args :=
    mkCreateWorkspaceArgs "user_1" None None "W2" "feat/y"
      [mkWorkspaceInput "repo_web" "web" "main" None None;
       mkWorkspaceInput "repo_api" "api" "main" (Some false) None] None in
  exists r db' rows,
    createWorkspace 10 args (exampleDb ExRunning None) = inr (r, db')
    /\ listWorkspaceRepos (cwr_workspaceId r) None db' = inr (rows, db')
    /\ (fun d => wr_repoId d.2) <$> rows = ["repo_web"; "repo_api"].
Proof.
  cbn zeta.
  destruct (createWorkspace_repos_are_listed_in_order 10
              (mkCreateWorkspaceArgs "user_1" None None "W2" "feat/y"
                 [mkWorkspaceInput "repo_web" "web" "main" None None;
                  mkWorkspaceInput "repo_api" "api" "main" (Some false) None]
                 None)
              (exampleDb ExRunning None))
    as (r & db' & rows & Hrun & Hlist & _ & _ & Hids).
  - discriminate.
  - intros repo Hrepo. cbn in Hrepo. rewrite !elem_of_cons in Hrepo.
    destruct Hrepo as [->|[->|Hrepo]]; [reflexivity..|inversion Hrepo].
  - intros r Hr. cbn in Hr. apply list_elem_of_singleton in Hr as ->.
    cbn. lia.
  - exists r, db', rows. repeat split; assumption.
Defined.

Lemma updateWorkspaceRepo_cases now args st :
  updateWorkspaceRepo now args st
  = match workspaceRepos (st_db st) !! ur_workspaceRepoId args with
    | None => inl (WorkspaceRepoNotFound (ur_workspaceRepoId args))
    | Some repo =>
      inr ((ur_workspaceRepoId args, now),
           {| st_db :=
                setRows workspaceReposT
                  (<[ur_workspaceRepoId args :=
                       updatedWorkspaceRepo now args repo]>
                     (workspaceRepos (st_db st))) (st_db st);
              approvals := approvals st |})
    end.
Proof.
  unfold updateWorkspaceRepo, sbind, onDb, db_get, db_patch, sthrow, sret.
  cbn.
  destruct (workspaceRepos (st_db st) !! ur_workspaceRepoId args)
    as [repo|] eqn:Hr; [|reflexivity].
  cbn. by rewrite Hr.
Qed.

(** X20.  [updateWorkspaceRepo] stores the fields that the call passes, [false]
    and [0] included, and keeps those that it omits; the workspace, the
    repository id and name of the row, every other row and the approvals are
    unchanged.  The repository stays in the full listing of its workspace,
    and when the call disables it, it leaves the listing of the enabled
    repositories.  On a missing repository the call throws and commits
    nothing. *)
Theorem updateWorkspaceRepo_updates now args st :
  (forall repo,
     workspaceRepos (st_db st) !! ur_workspaceRepoId args = Some repo ->
     exists st' repo' allRows,
       updateWorkspaceRepo now args st
       = inr ((ur_workspaceRepoId args, now), st')
       /\ workspaceRepos (st_db st') !! ur_workspaceRepoId args = Some repo'
       /\ wr_enabled repo' = default (wr_enabled repo) (ur_enabled args)
       /\ wr_targetBranch repo'
          = default (wr_targetBranch repo) (ur_targetBranch args)
       /\ wr_sortOrder repo'
          = default (wr_sortOrder repo) (ur_sortOrder args)
       /\ wr_workspaceId repo' = wr_workspaceId repo
       /\ wr_repoId repo' = wr_repoId repo
       /\ wr_repoName repo' = wr_repoName repo
       /\ wr_createdAt repo' = wr_createdAt repo
       /\ (forall j, j <> ur_workspaceRepoId args ->
             workspaceRepos (st_db st') !! j
             = workspaceRepos (st_db st) !! j)
       /\ workspaces (st_db st') = workspaces (st_db st)
       /\ approvals st' = approvals st
       /\ listWorkspaceRepos (wr_workspaceId repo) None (st_db st')
          = inr (allRows, st_db st')
       /\ (ur_workspaceRepoId args, repo') ∈ allRows
       /\ (ur_enabled args = Some false ->
           exists rows,
             listWorkspaceRepos (wr_workspaceId repo) (Some true) (st_db st')
             = inr (rows, st_db st')
             /\ forall x, (ur_workspaceRepoId args, x) ∉ rows))
  /\ (workspaceRepos (st_db st) !! ur_workspaceRepoId args = None ->
      runStoreMutation (updateWorkspaceRepo now args) st
      = (st, inl (WorkspaceRepoNotFound (ur_workspaceRepoId args)))).
Proof.
  split.
  - intros repo Hr. rewrite updateWorkspaceRepo_cases, Hr.
    eexists _, (updatedWorkspaceRepo now args repo), _.
    split; [reflexivity|]. cbn [st_db approvals].
    set (db' := setRows workspaceReposT _ (st_db st)).
    assert (Hl : workspaceRepos db' !! ur_workspaceRepoId args
                 = Some (updatedWorkspaceRepo now args repo)).
    { cbn. by rewrite list_lookup_insert_eq by eauto using lookup_lt_Some. }
    split; [exact Hl|]. do 7 (split; [reflexivity|]).
    split; [intros j Hj; cbn; by rewrite list_lookup_insert_ne|].
    do 2 (split; [reflexivity|]).
    split; [apply listWorkspaceRepos_cases|]. split.
    + eapply listWorkspaceRepos_elem; [apply listWorkspaceRepos_cases|].
      split; [exact Hl|]. split; [reflexivity|discriminate].
    + intros Hdisabled. eexists. split; [apply listWorkspaceRepos_cases|].
      intros x Hin.
      eapply listWorkspaceRepos_elem in Hin as (Hl' & _ & Henabled);
        [|apply listWorkspaceRepos_cases].
      pose proof (eq_trans (eq_sym Hl') Hl) as Hx. injection Hx as ->.
      specialize (Henabled eq_refl). cbn in Henabled.
      rewrite Hdisabled in Henabled. discriminate.
  - intros Hr. unfold runStoreMutation.
    by rewrite updateWorkspaceRepo_cases, Hr.
Qed.

Lemma updateWorkspaceRepo_updates_witness :
  (exists st' repo' rows,
     updateWorkspaceRepo 10
       (mkUpdateWorkspaceRepoArgs 0 (Some false) None (Some 0)) exampleStore
     = inr ((0%nat, 10), st')
     /\ workspaceRepos (st_db st') !! 0%nat = Some repo'
     /\ wr_enabled repo' = false
     /\ wr_targetBranch repo' = "main"
     /\ listWorkspaceRepos 0 (Some true) (st_db st') = inr (rows, st_db st')
     /\ (forall x, (0%nat, x) ∉ rows))
  /\ runStoreMutation
       (updateWorkspaceRepo 10 (mkUpdateWorkspaceRepoArgs 3 None None None))
       exampleStore
     = (exampleStore, inl (WorkspaceRepoNotFound 3)).
Proof.
  split.
  - destruct (proj1 (updateWorkspaceRepo_updates 10
                       (mkUpdateWorkspaceRepoArgs 0 (Some false) None
                          (Some 0)) exampleStore) exampleRepo eq_refl)
      as (st' & repo' & allRows & Hrun & Hl & Henabled & Hbranch & _ & _ & _
          & _ & _ & _ & _ & _ & _ & _ & Hdisabled).
    destruct (Hdisabled eq_refl) as (rows & Hrows & Hnot).
    exists st', repo', rows. repeat split; assumption.
  - apply (proj2 (updateWorkspaceRepo_updates 10
                    (mkUpdateWorkspaceRepoArgs 3 None None None)
                    exampleStore)).
    reflexivity.
Defined.

Lemma setActiveWorkspaceRepo_cases now workspaceId workspaceRepoId st :
  setActiveWorkspaceRepo now workspaceId workspaceRepoId st
  = match workspaces (st_db st) !! workspaceId with
    | None => inl (Thrown (WorkspaceNotFound workspaceId))
    | Some w =>
      match workspaceRepos (st_db st) !! workspaceRepoId with
      | None => inl (WorkspaceRepoNotInWorkspace workspaceRepoId workspaceId)
      | Some repo =>
        if decide (wr_workspaceId repo = workspaceId)
        then inr ((workspaceId, workspaceRepoId, now),
                  {| st_db :=
                       setRows workspacesT
                         (<[workspaceId :=
                              workspaceWithActiveRepo now workspaceRepoId w]>
                            (workspaces (st_db st))) (st_db st);
                     approvals := approvals st |})
        else inl (WorkspaceRepoNotInWorkspace workspaceRepoId workspaceId)
      end
    end.
Proof.
  unfold setActiveWorkspaceRepo, sbind, onDb, db_get, db_patch, sthrow, sret.
  cbn.
  destruct (workspaces (st_db st) !! workspaceId) as [w|] eqn:Hw;
    [|reflexivity].
  cbn. destruct (workspaceRepos (st_db st) !! workspaceRepoId) as [repo|];
    [|reflexivity].
  destruct (decide (wr_workspaceId repo = workspaceId)) as [Heq|Hne].
  - rewrite bool_decide_eq_false_2 by (by intros ?). cbn. by rewrite Hw.
  - by rewrite bool_decide_eq_true_2.
Qed.

(** X21.  [setActiveWorkspaceRepo] succeeds exactly when the workspace exists and
    the repository is a stored repository of that workspace.  Then the
    workspace points to the repository and keeps its active session and its
    status.  A repository that is missing or belongs to another workspace
    is refused, and the mutation commits nothing. *)
Theorem setActiveWorkspaceRepo_checks_owner now workspaceId workspaceRepoId
    st :
  (forall r st',
     setActiveWorkspaceRepo now workspaceId workspaceRepoId st
     = inr (r, st') ->
     exists w w' repo,
       workspaces (st_db st) !! workspaceId = Some w
       /\ workspaceRepos (st_db st') !! workspaceRepoId = Some repo
       /\ wr_workspaceId repo = workspaceId
       /\ workspaces (st_db st') !! workspaceId = Some w'
       /\ ws_activeWorkspaceRepoId w' = Some workspaceRepoId
       /\ ws_activeSessionId w' = ws_activeSessionId w
       /\ ws_status w' = ws_status w
       /\ workspaceRepos (st_db st') = workspaceRepos (st_db st))
  /\ (forall w repo,
        workspaces (st_db st) !! workspaceId = Some w ->
        workspaceRepos (st_db st) !! workspaceRepoId = Some repo ->
        wr_workspaceId repo = workspaceId ->
        exists st',
          setActiveWorkspaceRepo now workspaceId workspaceRepoId st
          = inr ((workspaceId, workspaceRepoId, now), st'))
  /\ (forall w,
        workspaces (st_db st) !! workspaceId = Some w ->
        (forall repo,
           workspaceRepos (st_db st) !! workspaceRepoId = Some repo ->
           wr_workspaceId repo <> workspaceId) ->
        runStoreMutation
          (setActiveWorkspaceRepo now workspaceId workspaceRepoId) st
        = (st, inl (WorkspaceRepoNotInWorkspace workspaceRepoId workspaceId)))
  /\ (workspaces (st_db st) !! workspaceId = None ->
      runStoreMutation
        (setActiveWorkspaceRepo now workspaceId workspaceRepoId) st
      = (st, inl (Thrown (WorkspaceNotFound workspaceId)))).
Proof.
  split; [|split; [|split]].
  - intros r st'. rewrite setActiveWorkspaceRepo_cases.
    destruct (workspaces (st_db st) !! workspaceId) as [w|] eqn:Hw;
      [|discriminate].
    destruct (workspaceRepos (st_db st) !! workspaceRepoId) as [repo|] eqn:Hr;
      [|discriminate].
    destruct (decide (wr_workspaceId repo = workspaceId)); [|discriminate].
    intros [= <- <-]. exists w, (workspaceWithActiveRepo now workspaceRepoId w),
      repo.
    cbn. rewrite list_lookup_insert_eq by eauto using lookup_lt_Some.
    repeat split; done.
  - intros w repo Hw Hr Hrepo. rewrite setActiveWorkspaceRepo_cases, Hw, Hr.
    rewrite decide_True by done. by eexists.
  - intros w Hw Hother. unfold runStoreMutation.
    rewrite setActiveWorkspaceRepo_cases, Hw.
    destruct (workspaceRepos (st_db st) !! workspaceRepoId) as [repo|] eqn:Hr;
      [|done].
    by rewrite decide_False by (by apply Hother).
  - intros Hw. unfold runStoreMutation.
    by rewrite setActiveWorkspaceRepo_cases, Hw.
Qed.

Lemma setActiveWorkspaceRepo_checks_owner_witness :
  (exists st',
     setActiveWorkspaceRepo 10 0 0 exampleStore = inr ((0%nat, 0%nat, 10), st'))
  /\ runStoreMutation (setActiveWorkspaceRepo 10 0 4) exampleStore
     = (exampleStore, inl (WorkspaceRepoNotInWorkspace 4 0)).
Proof.
  pose proof (setActiveWorkspaceRepo_checks_owner 10 0 0 exampleStore)
    as (_ & Hok & _ & _).
  pose proof (setActiveWorkspaceRepo_checks_owner 10 0 4 exampleStore)
    as (_ & _ & Hrefused & _).
  split.
  - apply (Hok exampleWorkspace exampleRepo); reflexivity.
  - apply (Hrefused exampleWorkspace); [reflexivity|].
    intros repo Hrepo. discriminate Hrepo.
Defined.

(** ** Approvals *)

Lemma requestApproval_cases now args st :
  requestApproval now args st
  = match sessions (st_db st) !! ra_sessionId args with
    | None => inl (Thrown (PatchOfMissingDocument (ra_sessionId args)))
    | Some s =>
      match workspaces (st_db st) !! ra_workspaceId args with
      | None => inl (Thrown (PatchOfMissingDocument (ra_workspaceId args)))
      | Some w =>
        inr ({| rar_approvalId := length (approvals st);
                rar_status := ApPending;
                rar_requestedAt := now |},
             {| st_db :=
                  {| workspaces :=
                       <[ra_workspaceId args :=
                           workspaceWithStatus now StNeedsAttention w]>
                         (workspaces (st_db st));
                     workspaceRepos := workspaceRepos (st_db st);
                     sessions :=
                       <[ra_sessionId args :=
                           sessionWithStatus now StNeedsAttention s]>
                         (sessions (st_db st));
                     executionProcesses := executionProcesses (st_db st);
                     executionProcessRepoStates :=
                       executionProcessRepoStates (st_db st);
                     queuedMessages := queuedMessages (st_db st) |};
                approvals := approvals st ++ [requestedApproval now args] |})
      end
    end.
Proof.
  unfold requestApproval, sbind, approval_insert, onDb, db_patch, sret. cbn.
  destruct (sessions (st_db st) !! ra_sessionId args) as [s|]; [|reflexivity].
  cbn.
  by destruct (workspaces (st_db st) !! ra_workspaceId args) as [w|].
Qed.

(** X22.  On an existing session and workspace [requestApproval] appends one
    pending approval, requested at the time of the call, returns its id, and
    sets the session and the workspace to needs_attention.  When the session
    or the workspace is missing it throws after the insert, and the mutation
    commits nothing: no approval is left behind. *)
Theorem requestApproval_requests now args st :
  (is_Some (sessions (st_db st) !! ra_sessionId args) ->
   is_Some (workspaces (st_db st) !! ra_workspaceId args) ->
   exists r st' approval,
     requestApproval now args st = inr (r, st')
     /\ rar_approvalId r = length (approvals st)
     /\ rar_status r = ApPending
     /\ approvals st' = approvals st ++ [approval]
     /\ ap_status approval = ApPending
     /\ ap_requestedAt approval = now
     /\ ap_sessionId approval = ra_sessionId args
     /\ ap_workspaceId approval = ra_workspaceId args
     /\ ap_executionProcessId approval = ra_executionProcessId args
     /\ ap_kind approval = ra_kind args
     /\ ap_prompt approval = ra_prompt args
     /\ ap_expiresAt approval = ra_expiresAt args
     /\ se_status <$> sessions (st_db st') !! ra_sessionId args
        = Some StNeedsAttention
     /\ ws_status <$> workspaces (st_db st') !! ra_workspaceId args
        = Some StNeedsAttention
     /\ executionProcesses (st_db st') = executionProcesses (st_db st))
  /\ (sessions (st_db st) !! ra_sessionId args = None
      \/ workspaces (st_db st) !! ra_workspaceId args = None ->
      exists e,
        runStoreMutation (requestApproval now args) st = (st, inl e)).
Proof.
  split.
  - intros [s Hs] [w Hw]. eexists _, _, _.
    rewrite requestApproval_cases, Hs, Hw. split; [reflexivity|]. cbn.
    rewrite !list_lookup_insert_eq by eauto using lookup_lt_Some.
    repeat split.
  - intros Hmissing. unfold runStoreMutation.
    rewrite requestApproval_cases.
    destruct (sessions (st_db st) !! ra_sessionId args); [|by eauto].
    destruct Hmissing as [|Hw]; [done|]. rewrite Hw. by eauto.
Qed.

Lemma requestApproval_requests_witness :
  (exists r st',
     requestApproval 10
       (mkRequestApprovalArgs 0 1 0 "push" "push to origin?" (Some 99))
       exampleStore = inr (r, st')
     /\ rar_approvalId r = 1%nat
     /\ se_status <$> sessions (st_db st') !! 1%nat = Some StNeedsAttention)
  /\ (exists e,
        runStoreMutation
          (requestApproval 10
             (mkRequestApprovalArgs 0 7 0 "push" "push to origin?" None))
          exampleStore = (exampleStore, inl e)).
Proof.
  split.
  - destruct (proj1 (requestApproval_requests 10
                (mkRequestApprovalArgs 0 1 0 "push" "push to origin?"
                   (Some 99)) exampleStore))
      as (r & st' & approval & Hrun & Hid & _ & _ & _ & _ & _ & _ & _ & _ & _
          & _ & Hsession & _).
    + eexists; reflexivity.
    + eexists; reflexivity.
    + exists r, st'. repeat split; assumption.
  - apply (proj2 (requestApproval_requests 10
                    (mkRequestApprovalArgs 0 7 0 "push" "push to origin?"
                       None) exampleStore)).
    left. reflexivity.
Defined.

Lemma respondApproval_cases now args st :
  respondApproval now args st
  = match approvals st !! rp_approvalId args with
    | None => inl (ApprovalNotFound (rp_approvalId args))
    | Some a =>
      if decide (ap_status a = ApPending)
      then
        match sessions (st_db st) !! ap_sessionId a with
        | None => inl (Thrown (PatchOfMissingDocument (ap_sessionId a)))
        | Some s =>
          match workspaces (st_db st) !! ap_workspaceId a with
          | None => inl (Thrown (PatchOfMissingDocument (ap_workspaceId a)))
          | Some w =>
            inr ({| rpr_approvalId := rp_approvalId args;
                    rpr_status := responseStatus (rp_status args);
                    rpr_respondedAt := now |},
                 {| st_db :=
                      {| workspaces :=
                           <[ap_workspaceId a :=
                               workspaceWithStatus now StIdle w]>
                             (workspaces (st_db st));
                         workspaceRepos := workspaceRepos (st_db st);
                         sessions :=
                           <[ap_sessionId a :=
                               sessionWithStatus now StIdle s]>
                             (sessions (st_db st));
                         executionProcesses := executionProcesses (st_db st);
                         executionProcessRepoStates :=
                           executionProcessRepoStates (st_db st);
                         queuedMessages := queuedMessages (st_db st) |};
                    approvals :=
                      <[rp_approvalId args := respondedApproval now args a]>
                        (approvals st) |})
          end
        end
      else inl (ApprovalNotPending (rp_approvalId args))
    end.
Proof.
  unfold respondApproval, sbind, approval_get, approval_patch, onDb,
    db_patch, sthrow, sret. cbn.
  destruct (approvals st !! rp_approvalId args) as [a|] eqn:Ha;
    [|reflexivity].
  destruct (decide (ap_status a = ApPending)) as [Hp|Hp].
  - rewrite bool_decide_eq_false_2 by (by intros ?). cbn. rewrite Ha. cbn.
    destruct (sessions (st_db st) !! ap_sessionId a) as [s|]; [|reflexivity].
    cbn.
    by destruct (workspaces (st_db st) !! ap_workspaceId a) as [w|].
  - by rewrite bool_decide_eq_true_2.
Qed.



(** One approval mutation writes to no approval that has been answered. *)
Lemma applyApprovalOp_keeps_answered st op i approval :
  approvals st !! i = Some approval -> ap_status approval <> ApPending ->
  approvals (applyApprovalOp st op) !! i = Some approval.
Proof.
  intros Ha Hst. pose proof (lookup_lt_Some _ _ _ Ha) as Hlt.
  destruct op as [now args|now args]; unfold applyApprovalOp, runStoreMutation.
  - rewrite requestApproval_cases.
    destruct (sessions (st_db st) !! ra_sessionId args); [|done].
    destruct (workspaces (st_db st) !! ra_workspaceId args); [|done].
    cbn. by rewrite lookup_app_l.
  - rewrite respondApproval_cases.
    destruct (approvals st !! rp_approvalId args) as [a|] eqn:Ha'; [|done].
    destruct (decide (ap_status a = ApPending)) as [Hp|]; [|done].
    destruct (sessions (st_db st) !! ap_sessionId a); [|done].
    destruct (workspaces (st_db st) !! ap_workspaceId a); [|done].
    cbn. rewrite list_lookup_insert_ne; [done|].
    intros Heq. rewrite Heq in Ha'. congruence.
Qed.

(** X24.  An approval that is no longer pending is final: no sequence of
    [requestApproval] and [respondApproval] mutations changes it. *)
Theorem answered_approvals_are_kept ops st i approval :
  approvals st !! i = Some approval -> ap_status approval <> ApPending ->
  approvals (applyApprovalOps ops st) !! i = Some approval.
Proof.
  unfold applyApprovalOps. revert st.
  induction ops as [|op ops IH]; intros st Ha Hst; [done|].
  cbn. apply IH; [|done]. by apply applyApprovalOp_keeps_answered.
Qed.

Lemma answered_approvals_are_kept_witness :
  let st :=
    applyApprovalOp exampleStore
      (OpRespond 10 (mkRespondApprovalArgs 0 RespApproved "user_1")) in
  exists approval,
    approvals
      (applyApprovalOps
         [OpRespond 11 (mkRespondApprovalArgs 0 RespRejected "user_2");
          OpRequest 12 (mkRequestApprovalArgs 0 0 0 "push" "push?" None)]
         st) !! 0%nat = Some approval
    /\ ap_status approval = ApApproved
    /\ ap_respondedBy approval = Some "user_1".
Proof.
  cbn zeta. eexists. split.
  - apply (answered_approvals_are_kept
             [OpRespond 11 (mkRespondApprovalArgs 0 RespRejected "user_2");
              OpRequest 12 (mkRequestApprovalArgs 0 0 0 "push" "push?" None)]
             (applyApprovalOp exampleStore
                (OpRespond 10 (mkRespondApprovalArgs 0 RespApproved "user_1")))
             0%nat).
    + reflexivity.
    + discriminate.
  - split; reflexivity.
Defined.

Lemma listPendingApprovalsBySession_elem sessionId st p :
  (exists rows,
     listPendingApprovalsBySession sessionId st = inr (rows, st)
     /\ p ∈ rows)
  <-> exists i a,
      p = pendingApprovalOf (i, a)
      /\ approvals st !! i = Some a
      /\ ap_sessionId a = sessionId
      /\ ap_status a = ApPending.
Proof.
  unfold listPendingApprovalsBySession. split.
  - intros (rows & [= <-] & Hin).
    apply list_elem_of_fmap in Hin as ([i a] & -> & Hd).
    apply orderDesc_elem, (matches_elem (pendingOf sessionId)) in Hd
        as [Hl [Hs Hp]].
    by exists i, a.
  - intros (i & a & -> & Hl & Hs & Hp). eexists. split; [reflexivity|].
    apply list_elem_of_fmap_2, orderDesc_elem.
    by apply (matches_elem (pendingOf sessionId)).
Qed.

(** X25.  [listPendingApprovalsBySession] never throws and does not write.  It
    returns one object for each pending approval of the session and for no
    other approval, the latest request first. *)
Theorem listPendingApprovalsBySession_lists sessionId st :
  exists rows,
    listPendingApprovalsBySession sessionId st = inr (rows, st)
    /\ (forall p,
          p ∈ rows
          <-> exists i a,
              p = pendingApprovalOf (i, a)
              /\ approvals st !! i = Some a
              /\ ap_sessionId a = sessionId
              /\ ap_status a = ApPending)
    /\ length rows
       = length (filter (pendingOf sessionId) (approvals st))
    /\ Forall (fun p => pa_sessionId p = sessionId
                        /\ pa_status p = ApPending) rows
    /\ StronglySorted
         (fun p1 p2 => pa_requestedAt p2 <= pa_requestedAt p1) rows.
Proof.
  eexists. split; [reflexivity|]. split; [|split; [|split]].
  - intros p. rewrite <- listPendingApprovalsBySession_elem. split.
    + intros Hin. eexists. split; [reflexivity|exact Hin].
    + intros (rows & [= <-] & Hin). exact Hin.
  - by rewrite length_fmap, orderDesc_length,
      (matches_length (pendingOf sessionId)).
  - apply Forall_forall. intros p Hin.
    apply list_elem_of_fmap in Hin as ([i a] & -> & Hd).
    apply orderDesc_elem, (matches_elem (pendingOf sessionId)) in Hd
        as [_ Hp].
    exact Hp.
  - eapply StronglySorted_fmap; [|apply (orderDesc_keys ap_requestedAt)].
    intros d1 d2 Hle. exact Hle.
Qed.

(** X26.  An approval that was requested is listed as pending for its session,
    with its kind and prompt, and once it is answered no listing of pending
    approvals contains it. *)
Theorem approval_is_pending_until_answered now args now2 response
    respondedBy st r st1 :
  requestApproval now args st = inr (r, st1) ->
  (exists rows p,
     listPendingApprovalsBySession (ra_sessionId args) st1 = inr (rows, st1)
     /\ p ∈ rows
     /\ pa_approvalId p = rar_approvalId r
     /\ pa_kind p = ra_kind args
     /\ pa_prompt p = ra_prompt args
     /\ pa_status p = ApPending)
  /\ (exists r2 st2,
        respondApproval now2
          (mkRespondApprovalArgs (rar_approvalId r) response respondedBy) st1
        = inr (r2, st2)
        /\ forall sessionId rows p,
             listPendingApprovalsBySession sessionId st2 = inr (rows, st2) ->
             p ∈ rows -> pa_approvalId p <> rar_approvalId r).
Proof.
  rewrite requestApproval_cases.
  destruct (sessions (st_db st) !! ra_sessionId args) as [s|] eqn:Hs;
    [|discriminate].
  destruct (workspaces (st_db st) !! ra_workspaceId args) as [w|] eqn:Hw;
    [|discriminate].
  intros [= <- <-]. cbn [rar_approvalId].
  set (st1 := mkStore _ (approvals st ++ [requestedApproval now args])).
  assert (Ha : approvals st1 !! length (approvals st)
               = Some (requestedApproval now args))
    by (cbn; by rewrite lookup_app_r, Nat.sub_diag).
  split.
  - destruct (proj2 (listPendingApprovalsBySession_elem (ra_sessionId args)
                       st1 (pendingApprovalOf
                              (length (approvals st),
                               requestedApproval now args))))
      as (rows & Hlist & Hin).
    { eexists _, _. split; [reflexivity|]. split; [exact Ha|]. by split. }
    exists rows, (pendingApprovalOf
                    (length (approvals st), requestedApproval now args)).
    repeat split; done.
  - eexists _, _. rewrite respondApproval_cases. cbn [rp_approvalId].
    rewrite Ha, decide_True by done.
    cbn [requestedApproval ap_sessionId ap_workspaceId st1 st_db sessions
           workspaces].
    rewrite !list_lookup_insert_eq by eauto using lookup_lt_Some.
    split; [reflexivity|].
    intros sessionId rows p Hlist Hin Hid.
    destruct (proj1 (listPendingApprovalsBySession_elem _ _ p)
                (ex_intro _ rows (conj Hlist Hin)))
      as (i & a & -> & Hl & _ & Hp).
    cbn in Hid. subst i. cbn in Hl.
    rewrite list_lookup_insert_eq in Hl
      by (rewrite length_app; cbn; lia).
    injection Hl as <-. cbn in Hp. by destruct response.
Qed.

Lemma approval_is_pending_until_answered_witness :
  exists r st1 rows p,
    requestApproval 10
      (mkRequestApprovalArgs 0 1 0 "push" "push to origin?" None)
      exampleStore = inr (r, st1)
    /\ listPendingApprovalsBySession 1 st1 = inr (rows, st1)
    /\ p ∈ rows
    /\ pa_kind p = "push".
Proof.
  eexists (mkRequestApprovalResult 1 ApPending 10), _.
  destruct (approval_is_pending_until_answered 10
              (mkRequestApprovalArgs 0 1 0 "push" "push to origin?" None)
              20 RespApproved "user_1" exampleStore
              (mkRequestApprovalResult 1 ApPending 10) _ eq_refl)
    as [(rows & p & Hlist & Hin & _ & Hkind & _) _].
  exists rows, p. split; [reflexivity|]. repeat split; assumption.
Defined.

(** ** The follow-up queue and the repository snapshots, continued *)

(** X27.  [consumeQueuedMessage] hands out exactly what [getQueueStatus] reports
    as queued, under the same id, and reports empty exactly when
    [getQueueStatus] does; [getQueueStatus] never writes and never reports a
    consumed message. *)
Theorem consume_returns_what_status_reports now sessionId db :
  (exists status,
     getQueueStatus sessionId db = inr (status, db)
     /\ forall p, status <> StatusConsumed p)
  /\ (forall p,
        getQueueStatus sessionId db = inr (StatusQueued p, db) ->
        exists db' m,
          consumeQueuedMessage now sessionId db = inr (StatusConsumed p, db')
          /\ queuedMessages db' !! qp_queuedMessageId p = Some m
          /\ qm_state m = QConsumed
          /\ qm_message m = qp_message p)
  /\ (getQueueStatus sessionId db = inr (StatusEmpty, db) ->
      consumeQueuedMessage now sessionId db = inr (StatusEmpty, db)).
Proof.
  rewrite getQueueStatus_cases, consumeQueuedMessage_cases.
  destruct (firstQueuedRow sessionId (queuedMessages db)) as [[i m]|] eqn:E.
  - apply firstQueuedRow_Some in E as [Hl _].
    split; [by eexists|]. split; [|discriminate].
    intros p [= <-]. eexists _, (markConsumed now m).
    split; [reflexivity|]. cbn.
    by rewrite list_lookup_insert_eq by eauto using lookup_lt_Some.
  - split; [by eexists|]. split; [discriminate|done].
Qed.

Lemma consume_returns_what_status_reports_witness :
  exists p db',
    getQueueStatus 1 exampleQueueDb = inr (StatusQueued p, exampleQueueDb)
    /\ consumeQueuedMessage 20 1 exampleQueueDb
       = inr (StatusConsumed p, db')
    /\ qp_message p = "run the tests".
Proof.
  eexists (payloadOf 1 (exampleQueuedMessage 1 "run the tests" QQueued)), _.
  destruct (proj1 (proj2 (consume_returns_what_status_reports 20 1
                            exampleQueueDb))
              (payloadOf 1 (exampleQueuedMessage 1 "run the tests" QQueued))
              eq_refl)
    as (db' & m & Hrun & _).
  split; [reflexivity|]. split; [|reflexivity].
  rewrite Hrun. f_equal. f_equal. cbv in Hrun. by injection Hrun as <-.
Defined.

(** What one queue mutation does to the rows of other sessions: nothing. *)
Lemma applyQueueOp_other_rows db op :
  (forall k m,
     queuedMessages db !! k = Some m ->
     qm_sessionId m <> queueOpSession op ->
     queuedMessages (applyQueueOp db op) !! k = Some m)
  /\ (forall k m',
        queuedMessages (applyQueueOp db op) !! k = Some m' ->
        queuedMessages db !! k = Some m'
        \/ qm_sessionId m' = queueOpSession op).
Proof.
  assert (Hpatch : forall i (m : QueuedMessage) (f : QueuedMessage ->
                                                     QueuedMessage),
             firstQueuedRow (queueOpSession op) (queuedMessages db)
             = Some (i, m) ->
             qm_sessionId (f m) = qm_sessionId m ->
             (forall k m0,
                queuedMessages db !! k = Some m0 ->
                qm_sessionId m0 <> queueOpSession op ->
                <[i:=f m]> (queuedMessages db) !! k = Some m0)
             /\ (forall k m',
                   <[i:=f m]> (queuedMessages db) !! k = Some m' ->
                   queuedMessages db !! k = Some m'
                   \/ qm_sessionId m' = queueOpSession op)).
  { intros i m f E Hf. apply firstQueuedRow_Some in E as [Hl [Hsid _]].
    pose proof (lookup_lt_Some _ _ _ Hl) as Hlt. split.
    - intros k m0 Hk Hne. rewrite list_lookup_insert_ne; [done|].
      intros ->. congruence.
    - intros k m' Hk. destruct (decide (i = k)) as [->|Hik].
      + rewrite list_lookup_insert_eq in Hk by done. injection Hk as <-.
        right. congruence.
      + rewrite list_lookup_insert_ne in Hk by done. by left. }
  destruct op as [now args|now sid|now sid]; unfold applyQueueOp, runMutation;
    cbn [queueOpSession] in *.
  - rewrite enqueueFollowUp_cases.
    destruct (firstQueuedRow _ _) as [[i m]|] eqn:E; cbn.
    + by apply (Hpatch i m (overwriteQueued now args)).
    + split.
      * intros k m Hk _. rewrite lookup_app_l; [done|].
        by eapply lookup_lt_Some.
      * intros k m' Hk. apply lookup_app_Some in Hk as [Hk|[_ Hk]];
          [by left|].
        apply list_lookup_singleton_Some in Hk as [_ <-]. by right.
  - rewrite consumeQueuedMessage_cases.
    destruct (firstQueuedRow _ _) as [[i m]|] eqn:E; cbn; [|by auto].
    by apply (Hpatch i m (markConsumed now)).
  - rewrite discardQueuedMessage_cases.
    destruct (firstQueuedRow _ _) as [[i m]|] eqn:E; cbn; [|by auto].
    by apply (Hpatch i m (markDiscarded now)).
Qed.

(** X28.  The queues of different sessions do not interfere: a queue mutation on
    one session leaves what [getQueueStatus] reports for any other session
    as it was. *)
Theorem queues_are_independent sessionId db op :
  queueOpSession op <> sessionId ->
  (queuedCount sessionId db <= 1)%nat ->
  exists status,
    getQueueStatus sessionId db = inr (status, db)
    /\ getQueueStatus sessionId (applyQueueOp db op)
       = inr (status, applyQueueOp db op).
Proof.
  intros Hother Hle.
  destruct (applyQueueOp_other_rows db op) as [Hkept Hrows].
  pose proof (applyQueueOp_at_most_one sessionId db op Hle) as Hle'.
  rewrite !getQueueStatus_cases.
  destruct (firstQueuedRow sessionId (queuedMessages db)) as [[i m]|] eqn:E.
  - apply firstQueuedRow_Some in E as [Hl Hq].
    rewrite (firstQueuedRow_the sessionId _ i m); [by eexists|exact Hle'| |done].
    apply Hkept; [done|]. destruct Hq as [Hsid _]. congruence.
  - assert (Hnone : firstQueuedRow sessionId
                      (queuedMessages (applyQueueOp db op)) = None).
    { apply firstQueuedRow_None. intros m' Hin Hq.
      apply list_elem_of_lookup in Hin as [k Hk].
      destruct (Hrows k m' Hk) as [Hold|Hsid].
      - eapply firstQueuedRow_None; [exact E| |exact Hq].
        by eapply list_elem_of_lookup_2.
      - destruct Hq as [Hsid' _]. congruence. }
    rewrite Hnone. by eexists.
Qed.

Lemma queues_are_independent_witness :
  exists status,
    getQueueStatus 1 exampleQueueDb = inr (status, exampleQueueDb)
    /\ getQueueStatus 1
         (applyQueueOp exampleQueueDb
            (OpEnqueue 10
               (mkEnqueueFollowUpArgs 0 "and bump version" None None None)))
       = inr (status,
              applyQueueOp exampleQueueDb
                (OpEnqueue 10
                   (mkEnqueueFollowUpArgs 0 "and bump version" None None
                      None))).
Proof.
  apply (queues_are_independent 1 exampleQueueDb
           (OpEnqueue 10
              (mkEnqueueFollowUpArgs 0 "and bump version" None None None))).
  - discriminate.
  - vm_compute. lia.
Defined.

(** X29.  [upsertExecutionRepoState] does not repair a pair that has several
    rows: [.unique()] throws and the mutation commits nothing. *)
Theorem upsertExecutionRepoState_rejects_duplicates now args db :
  (2 <= repoStateCount (ux_executionProcessId args) (ux_workspaceRepoId args)
          db)%nat ->
  runMutation (upsertExecutionRepoState now args) db
  = (db, inl UniqueFoundSeveral).
Proof.
  intros Htwo. unfold runMutation, repoStateCount in *.
  rewrite upsertExecutionRepoState_cases.
  rewrite <- (matches_length (repoStateOf _ _)) in Htwo.
  destruct (filter _ (imap pair _)) as [|[i a] [|d rest]];
    cbn in Htwo; [lia|lia|done].
Qed.

Lemma upsertExecutionRepoState_rejects_duplicates_witness :
  let db :=
    setRows executionProcessRepoStatesT [exampleRepoState; exampleRepoState]
      (exampleDb ExRunning None) in
  runMutation
    (upsertExecutionRepoState 10
       (mkUpsertExecutionRepoStateArgs 0 0 None (Some "def456") None)) db
  = (db, inl UniqueFoundSeveral).
Proof.
  cbn zeta.
  apply (upsertExecutionRepoState_rejects_duplicates 10
           (mkUpsertExecutionRepoStateArgs 0 0 None (Some "def456") None)).
  vm_compute. lia.
Defined.

(** X30.  The snapshot of an execution in two steps: after one call has recorded
    [beforeHeadCommit] and a later call [afterHeadCommit], the one row of
    the pair holds both. *)
Theorem snapshot_before_then_after now1 now2 e w before after db :
  (repoStateCount e w db <= 1)%nat ->
  exists r1 db1 r2 db2 row,
    upsertExecutionRepoState now1
      (mkUpsertExecutionRepoStateArgs e w (Some before) None None) db
    = inr (r1, db1)
    /\ upsertExecutionRepoState now2
         (mkUpsertExecutionRepoStateArgs e w None (Some after) None) db1
       = inr (r2, db2)
    /\ uxr_executionProcessRepoStateId r2
       = uxr_executionProcessRepoStateId r1
    /\ executionProcessRepoStates db2
         !! uxr_executionProcessRepoStateId r1 = Some row
    /\ rs_executionProcessId row = e
    /\ rs_workspaceRepoId row = w
    /\ rs_beforeHeadCommit row = Some before
    /\ rs_afterHeadCommit row = Some after
    /\ repoStateCount e w db2 = 1%nat.
Proof.
  intros Hle.
  destruct (upsertExecutionRepoState_post now1
              (mkUpsertExecutionRepoStateArgs e w (Some before) None None)
              db Hle)
    as (i1 & row1 & db1 & Hrun1 & Hl1 & Hq1 & Hone1 & _ & _ & _ & _ & Hrow1).
  cbn [ux_executionProcessId ux_workspaceRepoId] in *.
  assert (Hle1 : (repoStateCount e w db1 <= 1)%nat) by lia.
  destruct (upsertExecutionRepoState_post now2
              (mkUpsertExecutionRepoStateArgs e w None (Some after) None)
              db1 Hle1)
    as (i2 & row2 & db2 & Hrun2 & Hl2 & Hq2 & Hone2 & _ & _ & Hsome2 & _).
  cbn [ux_executionProcessId ux_workspaceRepoId] in *.
  destruct (Hsome2 i1 row1 Hl1 Hq1) as (-> & _ & ->).
  eexists _, db1, _, db2, _. split; [exact Hrun1|]. split; [exact Hrun2|].
  split; [reflexivity|]. split; [exact Hl2|].
  destruct Hq2 as [He Hw]. split; [exact He|]. split; [exact Hw|].
  split; [|split; [reflexivity|exact Hone2]].
  cbn. by destruct Hrow1 as [[old ->]| ->].
Qed.

Lemma snapshot_before_then_after_witness :
  exists r1 db1 r2 db2 row,
    upsertExecutionRepoState 10
      (mkUpsertExecutionRepoStateArgs 0 0 (Some "abc123") None None)
      (exampleDb ExRunning None) = inr (r1, db1)
    /\ upsertExecutionRepoState 20
         (mkUpsertExecutionRepoStateArgs 0 0 None (Some "def456") None) db1
       = inr (r2, db2)
    /\ executionProcessRepoStates db2
         !! uxr_executionProcessRepoStateId r1 = Some row
    /\ rs_beforeHeadCommit row = Some "abc123"
    /\ rs_afterHeadCommit row = Some "def456".
Proof.
  destruct (snapshot_before_then_after 10 20 0 0 "abc123" "def456"
              (exampleDb ExRunning None) ltac:(vm_compute; lia))
    as (r1 & db1 & r2 & db2 & row & Hrun1 & Hrun2 & _ & Hl & _ & _ & Hbefore
        & Hafter & _).
  exists r1, db1, r2, db2, row. repeat split; assumption.
Defined.

(** ** The listings on the example database *)

Lemma listExecutionProcessesBySession_lists_witness :
  let db := exampleDb ExRunning None in
  (exists rows,
     listExecutionProcessesBySession 0
       (Some (Finite (QArith_base.Qmake 5 1))) db = inr (rows, db)
     /\ length rows = 1%nat
     /\ NoDup rows
     /\ forall i p, (i, p) ∈ rows -> ep_sessionId p = 0%nat)
  /\ listExecutionProcessesBySession 0
       (Some (Finite (QArith_base.Qmake (-1) 1))) db
     = inl (TakeCountInvalid (Finite (QArith_base.Qmake (-1) 1)))
  /\ listExecutionProcessesBySession 0
       (Some (Finite (QArith_base.Qmake 3 2))) db
     = inl (TakeCountInvalid (Finite (QArith_base.Qmake 3 2))).
Proof.
  cbn zeta. split; [|split].
  - destruct (listExecutionProcessesBySession_lists 0
                (Some (Finite (QArith_base.Qmake 5 1)))
                (exampleDb ExRunning None))
      as (all & _ & _ & _ & _ & Hcount & _).
    destruct (Hcount (Finite (QArith_base.Qmake 5 1)) 5%nat eq_refl)
      as (rows & Hrun & _ & Hlen & Hin & Hnodup & _).
    + eexists. split; reflexivity.
    + exists rows. split; [exact Hrun|]. split; [exact Hlen|].
      split; [exact Hnodup|]. intros i p Hd. by destruct (Hin i p Hd).
  - destruct (listExecutionProcessesBySession_lists 0
                (Some (Finite (QArith_base.Qmake (-1) 1)))
                (exampleDb ExRunning None))
      as (all & _ & _ & _ & _ & _ & Hthrow).
    apply Hthrow; [reflexivity|].
    intros k (q & [= <-] & Hq). unfold QArith_base.Qeq in Hq. cbn in Hq. lia.
  - destruct (listExecutionProcessesBySession_lists 0
                (Some (Finite (QArith_base.Qmake 3 2)))
                (exampleDb ExRunning None))
      as (all & _ & _ & _ & _ & _ & Hthrow).
    apply Hthrow; [reflexivity|].
    intros k (q & [= <-] & Hq). unfold QArith_base.Qeq in Hq. cbn in Hq. lia.
Defined.

Lemma listWorkspacesByOwner_lists_witness :
  exists rows,
    listWorkspacesByOwner "user_1" None (exampleDb ExRunning None)
    = inr (rows, exampleDb ExRunning None)
    /\ (0%nat, exampleWorkspace) ∈ rows
    /\ NoDup rows.
Proof.
  destruct (listWorkspacesByOwner_lists "user_1" None
              (exampleDb ExRunning None))
    as (rows & Hrun & Hin & Hnodup & _).
  exists rows. split; [exact Hrun|]. split; [|exact Hnodup].
  apply Hin. repeat split.
Defined.

Lemma listSessionsByWorkspace_lists_witness :
  exists rows,
    listSessionsByWorkspace 0 (exampleDb ExRunning None)
    = inr (rows, exampleDb ExRunning None)
    /\ (1%nat, exampleSession "second") ∈ rows
    /\ NoDup rows.
Proof.
  destruct (listSessionsByWorkspace_lists 0 (exampleDb ExRunning None))
    as (rows & Hrun & Hin & Hnodup & _).
  exists rows. split; [exact Hrun|]. split; [|exact Hnodup].
  apply Hin. repeat split.
Defined.

Lemma listWorkspaceRepos_lists_witness :
  exists rows,
    listWorkspaceRepos 0 (Some true) (exampleDb ExRunning None)
    = inr (rows, exampleDb ExRunning None)
    /\ (0%nat, exampleRepo) ∈ rows
    /\ NoDup rows.
Proof.
  destruct (listWorkspaceRepos_lists 0 (Some true)
              (exampleDb ExRunning None))
    as (rows & Hrun & Hin & Hnodup & _).
  exists rows. split; [exact Hrun|]. split; [|exact Hnodup].
  apply Hin. repeat split.
Defined.

Lemma listPendingApprovalsBySession_lists_witness :
  exists rows,
    listPendingApprovalsBySession 0 exampleStore = inr (rows, exampleStore)
    /\ length rows = 1%nat.
Proof.
  destruct (listPendingApprovalsBySession_lists 0 exampleStore)
    as (rows & Hrun & _ & Hlen & _).
  exists rows. split; [exact Hrun|]. rewrite Hlen. reflexivity.
Defined.
